(** * mcp-codemode: schema-to-type generator, validator gate, sandboxes and
      error classification, embedded from the JavaScript sources.

    Layout: the models come first (one module per source file), then the
    vocabulary in which the properties are stated, then the theorems.
    JavaScript strings are sequences of UTF-16 code units, and every
    string operation of the sources that works on code units (the regular
    expressions have no [u] flag) is modelled on them.  What the sources
    call but do not define (the TypeScript compiler, the isolation layer,
    the client of the tool server, [JSON.stringify] and [JSON.parse], the
    engine's case mappings) is a parameter. *)

From Stdlib Require Import Ascii String DecimalString.
From Stdlib Require Import List NArith ZArith Bool Arith Lia.
Import ListNotations.

Local Open Scope N_scope.
Local Open Scope list_scope.

(* ===================================================================== *)
(** * JavaScript strings and the built-ins the sources call               *)
(* ===================================================================== *)

Module JS.

Definition code_unit := N.
Definition jsstring := list code_unit.

(** An ASCII literal as a JavaScript string. *)
Definition lit (s : string) : jsstring :=
  map N_of_ascii (list_ascii_of_string s).
Arguments lit s%_string.

Definition underscore : code_unit := 95.
Definition newline : jsstring := [10].
Definition dquote : jsstring := [34].

Definition between (lo hi c : code_unit) : bool := (lo <=? c) && (c <=? hi).

Definition is_upper (c : code_unit) : bool := between 65 90 c.
Definition is_lower (c : code_unit) : bool := between 97 122 c.
Definition is_letter (c : code_unit) : bool := is_upper c || is_lower c.
Definition is_digit (c : code_unit) : bool := between 48 57 c.

(** The class [[a-zA-Z0-9_]], which is also [\w] of a regular expression
    without the [u] and [i] flags. *)
Definition is_word (c : code_unit) : bool :=
  is_lower c || is_upper c || is_digit c || (c =? underscore).

Fixpoint str_eqb (a b : jsstring) : bool :=
  match a, b with
  | [], [] => true
  | x :: a', y :: b' => (x =? y) && str_eqb a' b'
  | _, _ => false
  end.

Fixpoint starts_with (p s : jsstring) : bool :=
  match p, s with
  | [], _ => true
  | x :: p', y :: s' => (x =? y) && starts_with p' s'
  | _ :: _, [] => false
  end.

(** [s.includes(p)] *)
Fixpoint includes (p s : jsstring) : bool :=
  starts_with p s ||
  match s with
  | [] => false
  | _ :: s' => includes p s'
  end.

(** [parts.join(sep)] on an array of strings. *)
Fixpoint join (sep : jsstring) (parts : list jsstring) : jsstring :=
  match parts with
  | [] => []
  | [p] => p
  | p :: rest => p ++ sep ++ join sep rest
  end.

(** [' '.repeat(n)] *)
Definition spaces (n : nat) : jsstring := repeat 32 n.

(** [s.replace(/\n/g, r)] *)
Definition replace_newlines (r s : jsstring) : jsstring :=
  flat_map (fun c => if c =? 10 then r else [c]) s.

(** [s.split(/[-_]/)]: the pieces between the separators; a string
    without separator is its own single piece. *)
Fixpoint split_on (sep : code_unit -> bool) (s : jsstring) : list jsstring :=
  match s with
  | [] => [[]]
  | c :: s' =>
      if sep c then [] :: split_on sep s'
      else match split_on sep s' with
           | [] => [[c]]
           | p :: ps => (c :: p) :: ps
           end
  end.

(** A membership test on arrays of strings: [arr.includes(x)]. *)
Definition mem (x : jsstring) (arr : list jsstring) : bool :=
  existsb (str_eqb x) arr.

(** Decimal numerals, as [String(n)] prints a natural number. *)
Definition decimal (n : nat) : jsstring :=
  lit (NilEmpty.string_of_uint (Nat.to_uint n)).

(** ** Values read from JSON

    A tool's input schema arrives as parsed JSON.  A number is carried by
    its string form [String(n)]: the sources only test a number for
    truthiness and print it, and [String] tells all JSON numbers apart
    except [0] and [-0], which both print as [0] and are both falsy.
    An object lists its own properties in enumeration order. *)
#[warnings="-register-all"]
Inductive json : Type :=
| JNull
| JBool (b : bool)
| JNum (text : jsstring)
| JStr (s : jsstring)
| JArr (elems : list json)
| JObj (fields : list (jsstring * json)).

(** A JavaScript value of this fragment: [None] is [undefined]. *)
Definition value := option json.

Inductive exn : Type :=
| TypeError      (* reading a property of null, calling what is no function *)
| OutOfFuel.     (* the model's recursion bound, never reached from the wrappers *)

Inductive result (A : Type) : Type :=
| Ok (a : A)
| Throw (e : exn).
Arguments Ok {A} a.
Arguments Throw {A} e.

Definition bind {A B} (c : result A) (k : A -> result B) : result B :=
  match c with
  | Ok a => k a
  | Throw e => Throw e
  end.

(** [arr.map(f)] when [f] may throw: elements in order, the first throw
    ends the call. *)
Definition mapM {A B} (f : A -> result B) : list A -> result (list B) :=
  fix go (l : list A) : result (list B) :=
    match l with
    | [] => Ok []
    | x :: l' =>
        match f x with
        | Ok y => match go l' with
                  | Ok ys => Ok (y :: ys)
                  | Throw e => Throw e
                  end
        | Throw e => Throw e
        end
    end.

Definition truthy (v : value) : bool :=
  match v with
  | None | Some JNull | Some (JBool false) => false
  | Some (JBool true) => true
  | Some (JNum t) => negb (str_eqb t (lit "0"))
  | Some (JStr s) => match s with [] => false | _ => true end
  | Some (JArr _) | Some (JObj _) => true
  end.

Fixpoint lookup (key : jsstring) (fields : list (jsstring * json)) : value :=
  match fields with
  | [] => None
  | (k, v) :: rest => if str_eqb key k then Some v else lookup key rest
  end.

(** [v.key] for the property names the sources read ([anyOf], [type],
    [description], ...): none of them is a member of a primitive's or an
    array's prototype, so only an object can answer; reading a property
    of [null] or [undefined] throws. *)
Definition get_prop (v : value) (key : jsstring) : result value :=
  match v with
  | None | Some JNull => Throw TypeError
  | Some (JObj fs) => Ok (lookup key fs)
  | Some _ => Ok None
  end.

(** [v[0]] *)
Definition index0 (v : value) : result value :=
  match v with
  | None | Some JNull => Throw TypeError
  | Some (JArr l) => Ok (hd_error l)
  | Some (JStr s) => Ok (match s with [] => None | c :: _ => Some (JStr [c]) end)
  | Some (JObj fs) => Ok (lookup (lit "0") fs)
  | Some _ => Ok None
  end.

(** [typeof v === 'object'] *)
Definition typeof_object (v : value) : bool :=
  match v with
  | Some JNull | Some (JArr _) | Some (JObj _) => true
  | _ => false
  end.

(** [v === 'text'] *)
Definition is_string (text : jsstring) (v : value) : bool :=
  match v with
  | Some (JStr s) => str_eqb s text
  | _ => false
  end.

(** The receiver of [.map(...)]: an array, or the call throws. *)
Definition as_array (v : value) : result (list json) :=
  match v with
  | Some (JArr l) => Ok l
  | _ => Throw TypeError
  end.

(** The string conversion of a template literal, [`${v}`].  An array
    prints through [join(',')], where [null] elements print as nothing;
    an object prints as [[object Object]] unless it has an own
    [toString], which JSON can only fill with something that is no
    function. *)
Fixpoint ToString (v : json) : result jsstring :=
  match v with
  | JNull => Ok (lit "null")
  | JBool true => Ok (lit "true")
  | JBool false => Ok (lit "false")
  | JNum t => Ok t
  | JStr s => Ok s
  | JArr l =>
      match mapM (fun e => match e with
                           | JNull => Ok []
                           | _ => ToString e
                           end) l with
      | Ok parts => Ok (join (lit ",") parts)
      | Throw e => Throw e
      end
  | JObj fs =>
      match lookup (lit "toString") fs with
      | Some _ => Throw TypeError
      | None => Ok (lit "[object Object]")
      end
  end.

(** [Object.entries(v)] of a truthy value. *)
Definition entries (v : value) : list (jsstring * json) :=
  match v with
  | Some (JObj fs) => fs
  | Some (JArr l) => combine (map decimal (seq 0 (length l))) l
  | Some (JStr s) =>
      combine (map decimal (seq 0 (length s))) (map (fun c => JStr [c]) s)
  | _ => []
  end.

Fixpoint depth (v : json) : nat :=
  match v with
  | JArr l => S (fold_right (fun e d => Nat.max (depth e) d) 0%nat l)
  | JObj fs => S (fold_right (fun kv d => Nat.max (depth (snd kv)) d) 0%nat fs)
  | _ => 0%nat
  end.

Definition depth_of (v : value) : nat :=
  match v with
  | Some j => depth j
  | None => 0%nat
  end.

End JS.
Import JS.

Declare Scope js_scope.
Delimit Scope js_scope with js.
Notation "x <- c ;; k" := (bind c (fun x => k))
  (at level 61, c at next level, right associativity) : js_scope.

(* ===================================================================== *)
(** * src/schema-to-types.js                                              *)
(* ===================================================================== *)

Module SchemaToTypes.

Local Open Scope js_scope.

(** [name.replace(/[^a-zA-Z0-9_]/g, '_')] *)
Definition sanitizeName (name : jsstring) : jsstring :=
  map (fun c => if is_word c then c else underscore) name.

(** The JSDoc block of a property: [description.replace] exists only on
    a string. *)
Definition doc_comment (spaces : jsstring) (description : value)
  : result jsstring :=
  if truthy description then
    match description with
    | Some (JStr d) =>
        Ok (spaces ++ lit "  /**" ++ newline
            ++ spaces ++ lit "   * "
            ++ replace_newlines (newline ++ spaces ++ lit "   * ") d
            ++ newline ++ spaces ++ lit "   */" ++ newline)
    | _ => Throw TypeError
    end
  else Ok [].

(** [schema.required?.includes(key) ?? false] *)
Definition is_required (required : value) (key : jsstring) : result bool :=
  match required with
  | None | Some JNull => Ok false
  | Some (JArr l) => Ok (existsb (fun e => is_string key (Some e)) l)
  | Some (JStr s) => Ok (includes key s)
  | Some _ => Throw TypeError
  end.

(** The body of [jsonSchemaToTypeScript(schema, indent)]; [self] stands
    for the function itself in its recursive calls. *)
Definition jsonSchemaToTypeScript_body
    (self : value -> nat -> result jsstring) (schema : value) (indent : nat)
  : result jsstring :=
  let spaces := JS.spaces indent in
  if negb (truthy schema) then Ok (lit "unknown") else
  anyOf <- get_prop schema (lit "anyOf") ;;
  if truthy anyOf then
    branches <- as_array anyOf ;;
    texts <- mapM (fun s => self (Some s) indent) branches ;;
    Ok (join (lit " | ") texts)
  else
  oneOf <- get_prop schema (lit "oneOf") ;;
  if truthy oneOf then
    branches <- as_array oneOf ;;
    texts <- mapM (fun s => self (Some s) indent) branches ;;
    Ok (join (lit " | ") texts)
  else
  allOf <- get_prop schema (lit "allOf") ;;
  if truthy allOf then
    first <- index0 allOf ;;
    self first indent
  else
  type <- get_prop schema (lit "type") ;;
  if is_string (lit "string") type then
    enum <- get_prop schema (lit "enum") ;;
    if truthy enum then
      values <- as_array enum ;;
      texts <- mapM (fun v => t <- ToString v ;; Ok (dquote ++ t ++ dquote))
                    values ;;
      Ok (join (lit " | ") texts)
    else Ok (lit "string")
  else if is_string (lit "number") type || is_string (lit "integer") type then
    Ok (lit "number")
  else if is_string (lit "boolean") type then Ok (lit "boolean")
  else if is_string (lit "null") type then Ok (lit "null")
  else if is_string (lit "array") type then
    items <- get_prop schema (lit "items") ;;
    itemType <- (if truthy items then self items indent
                 else Ok (lit "unknown")) ;;
    Ok (itemType ++ lit "[]")
  else if is_string (lit "object") type then
    properties <- get_prop schema (lit "properties") ;;
    additionalProperties <- get_prop schema (lit "additionalProperties") ;;
    if negb (truthy properties) then
      match additionalProperties with
      | Some (JBool false) => Ok (lit "{}")
      | _ => Ok (lit "Record<string, unknown>")
      end
    else
    lines <- mapM (fun entry : jsstring * json =>
               let (key, propSchema) := entry in
               req <- get_prop schema (lit "required") ;;
               required <- is_required req key ;;
               let optionalMark := if required : bool then [] else lit "?" in
               description <- get_prop (Some propSchema) (lit "description") ;;
               comment <- doc_comment spaces description ;;
               propType <- self (Some propSchema) (indent + 2)%nat ;;
               Ok (comment ++ spaces ++ lit "  " ++ key ++ optionalMark
                   ++ lit ": " ++ propType ++ lit ";"))
             (entries properties) ;;
    let props := join newline lines in
    additionalProps <-
      (if truthy additionalProperties then
         additionalType <-
           (if typeof_object additionalProperties
            then self additionalProperties (indent + 2)%nat
            else Ok (lit "unknown")) ;;
         Ok (newline ++ spaces ++ lit "  [key: string]: "
             ++ additionalType ++ lit ";")
       else Ok []) ;;
    Ok (lit "{" ++ newline ++ props ++ additionalProps
        ++ newline ++ spaces ++ lit "}")
  else Ok (lit "unknown").

(** The recursion, with its depth bounded by [fuel]. *)
Fixpoint translate (fuel : nat) (schema : value) (indent : nat)
  : result jsstring :=
  match fuel with
  | O => Throw OutOfFuel
  | S fuel' => jsonSchemaToTypeScript_body (translate fuel') schema indent
  end.

(** The recursion of the source descends into the schema, so a bound
    above the schema's depth is never reached. *)
Definition jsonSchemaToTypeScript (schema : value) (indent : nat)
  : result jsstring :=
  translate (S (depth_of schema)) schema indent.

(** One advertised tool. *)
Record ToolDescriptor := mkTool {
  name : jsstring;
  description : option jsstring;
  inputSchema : value
}.

Section Generator.

(** [String.prototype.toUpperCase] and [toLowerCase]: the engine's
    Unicode case mappings. *)
Variables toUpperCase toLowerCase : jsstring -> jsstring.

(** [part.charAt(0).toUpperCase() + part.slice(1).toLowerCase()] *)
Definition capitalize (part : jsstring) : jsstring :=
  toUpperCase (firstn 1 part) ++ toLowerCase (skipn 1 part).

Definition toPascalCase (str : jsstring) : jsstring :=
  concat (map capitalize
              (split_on (fun c => (c =? 45) || (c =? underscore)) str)).

(** What one turn of the loop pushes: two interfaces and one method. *)
Definition tool_entry (tool : ToolDescriptor)
  : result (list jsstring * jsstring) :=
  let safeName := sanitizeName (name tool) in
  let pascalName := toPascalCase (name tool) in
  let inputInterfaceName := pascalName ++ lit "Input" in
  let inputSchema :=
    if truthy (inputSchema tool) then inputSchema tool
    else Some (JObj [(lit "type", JStr (lit "object"));
                     (lit "properties", JObj [])]) in
  inputType <- jsonSchemaToTypeScript inputSchema 0 ;;
  let outputInterfaceName := pascalName ++ lit "Output" in
  let description :=
    match description tool with
    | Some ((_ :: _) as d) =>
        lit "  /**" ++ newline ++ lit "   * "
        ++ replace_newlines (newline ++ lit "   * ") d
        ++ newline ++ lit "   */" ++ newline
    | _ => []
    end in
  Ok ([lit "interface " ++ inputInterfaceName ++ lit " " ++ inputType;
       lit "interface " ++ outputInterfaceName ++ lit " {" ++ newline
       ++ lit "  [key: string]: any;" ++ newline ++ lit "}"],
      description ++ lit "  " ++ safeName ++ lit ": (" ++ newline
      ++ lit "    input: " ++ inputInterfaceName ++ newline
      ++ lit "  ) => Promise<" ++ outputInterfaceName ++ lit ">;").

Definition generateTypeScriptDefinitions (tools : list ToolDescriptor)
  : result jsstring :=
  pushed <- mapM tool_entry tools ;;
  let interfaces := concat (map fst pushed) in
  let toolMethods := map snd pushed in
  Ok (lit "// TypeScript definitions for MCP tools" ++ newline
      ++ join (newline ++ newline) interfaces
      ++ newline ++ newline
      ++ lit "declare const mcp: {" ++ newline
      ++ join (newline ++ newline) toolMethods
      ++ newline ++ lit "};").

End Generator.

(** The case mappings on ASCII text, for running the generator. *)
Definition ascii_upper (s : jsstring) : jsstring :=
  map (fun c => if is_lower c then c - 32 else c) s.
Definition ascii_lower (s : jsstring) : jsstring :=
  map (fun c => if is_upper c then c + 32 else c) s.

End SchemaToTypes.

(* ===================================================================== *)
(** * src/validator.js                                                    *)
(* ===================================================================== *)

Module Validator.

(** The longest run of [\w] at the front of a string, and what follows. *)
Fixpoint word_run (s : jsstring) : jsstring * jsstring :=
  match s with
  | c :: s' =>
      if is_word c then let (w, rest) := word_run s' in (c :: w, rest)
      else ([], s)
  | [] => ([], [])
  end.

(** One attempt of [/mcp\.(\w+)\(/] at the front of [s]: the captured
    identifier and the length of the match.  [\w+] is greedy, and giving
    characters back cannot help, as what it gives back is no parenthesis. *)
Definition match_here (s : jsstring) : option (jsstring * nat) :=
  if starts_with (lit "mcp.") s then
    match word_run (skipn 4 s) with
    | ((_ :: _) as w, c :: _) =>
        if c =? 40 then Some (w, (4 + length w + 1)%nat) else None
    | _ => None
    end
  else None.

(** The [while ((match = toolPattern.exec(code)) !== null)] loop of a
    global pattern: the search resumes where the last match ended
    ([lastIndex]); [skip] counts the code units of that match still to
    pass. *)
Fixpoint scan (skip : nat) (s : jsstring) : list jsstring :=
  match s with
  | [] => []
  | _ :: s' =>
      match skip with
      | S k => scan k s'
      | O =>
          match match_here s with
          | Some (w, len) => w :: scan (len - 1) s'
          | None => scan 0 s'
          end
      end
  end.

(** [usedTools.add(x)]: a [Set] keeps its members in insertion order. *)
Definition set_add (set : list jsstring) (x : jsstring) : list jsstring :=
  if mem x set then set else set ++ [x].

Definition usedTools (code : jsstring) : list jsstring :=
  fold_left set_add (scan 0 code) [].

Definition invalidTools (code : jsstring) (availableTools : list jsstring)
  : list jsstring :=
  filter (fun tool => negb (mem tool availableTools)) (usedTools code).

Record UsageResult := mkUsage {
  usage_success : bool;
  usage_error : option jsstring
}.

Definition validateMCPUsage (code : jsstring) (availableTools : list jsstring)
  : UsageResult :=
  match invalidTools code availableTools with
  | (_ :: _) as invalid =>
      mkUsage false
        (Some (lit "Code uses undefined MCP tools: " ++ join (lit ", ") invalid))
  | [] => mkUsage true None
  end.

(** What [String.prototype.trim] removes: white space and line
    terminators. *)
Definition is_space (c : code_unit) : bool :=
  between 9 13 c || (c =? 32) || (c =? 160) || (c =? 5760)
  || between 8192 8202 c || (c =? 8232) || (c =? 8233) || (c =? 8239)
  || (c =? 8287) || (c =? 12288) || (c =? 65279).

Fixpoint trim_start (s : jsstring) : jsstring :=
  match s with
  | c :: s' => if is_space c then trim_start s' else s
  | [] => []
  end.

Definition trim (s : jsstring) : jsstring :=
  rev (trim_start (rev (trim_start s))).

(** [lines.findIndex(l => l.includes('// User code'))], [None] for -1. *)
Fixpoint find_marker (lines : list jsstring) : option nat :=
  match lines with
  | [] => None
  | l :: rest =>
      if includes (lit "// User code") l then Some O
      else option_map S (find_marker rest)
  end.

Definition extractUserCode (transpiledCode : jsstring) : jsstring :=
  let lines := split_on (fun c => c =? 10) transpiledCode in
  match find_marker lines with
  | Some userCodeStart => trim (join newline (skipn (userCodeStart + 1) lines))
  | None => transpiledCode
  end.

(** The two shapes [validate] returns: [{success: true, output,
    sourceMap}] and [{success: false, errors, formattedErrors}]. *)
Inductive ValidationResult : Type :=
| Passed (output : jsstring) (sourceMap : option jsstring)
| Failed (formattedErrors : jsstring).

Definition success (r : ValidationResult) : bool :=
  match r with
  | Passed _ _ => true
  | Failed _ => false
  end.

Section Validate.

(** The TypeScript compiler is an external library: its
    [transpileModule], and the rendering of its diagnostics, which reads
    them through the compiler's own interface. *)
Variable diagnostic : Type.
Variable transpileModule :
  jsstring -> jsstring * list diagnostic * option jsstring.
Variable formatErrorMessages : list diagnostic -> jsstring -> jsstring.

Definition validate (code types : jsstring) : ValidationResult :=
  let fullSource :=
    newline ++ lit "// Type definitions" ++ newline ++ types ++ newline
    ++ newline ++ lit "// User code" ++ newline ++ code ++ newline in
  let '(outputText, diagnostics, sourceMapText) := transpileModule fullSource in
  match diagnostics with
  | _ :: _ => Failed (formatErrorMessages diagnostics fullSource)
  | [] => Passed (extractUserCode outputText) sourceMapText
  end.

End Validate.

Arguments validate {diagnostic} transpileModule formatErrorMessages code types.

(** ** Diagnostics

    What [formatDiagnostics] reads of a compiler diagnostic: its message
    text as [ts.flattenDiagnosticMessageText] gives it, the line and
    character [file.getLineAndCharacterOfPosition(start)] answers when
    the diagnostic has a file and a start (both counted from zero), and
    its category. *)
Inductive DiagnosticCategory : Type :=
| Warning
| Error
| Suggestion
| Message
| OtherCategory.

Record Diagnostic := mkDiagnostic {
  messageText : jsstring;
  position : option (nat * nat);
  category : DiagnosticCategory
}.

(** The objects [formatDiagnostics] builds; a diagnostic without
    position has neither [line], [column] nor [code]. *)
Record FormattedError := mkFormattedError {
  message : jsstring;
  line : option Z;
  column : option nat;
  code : option jsstring;
  severity : jsstring
}.

Definition getSeverity (category : DiagnosticCategory) : jsstring :=
  match category with
  | Error => lit "error"
  | Warning => lit "warning"
  | Suggestion => lit "suggestion"
  | Message => lit "info"
  | OtherCategory => lit "unknown"
  end.

Definition formatDiagnostics (diagnostics : list Diagnostic) (source : jsstring)
  : list FormattedError :=
  let lines := split_on (fun c => c =? 10) source in
  map (fun diagnostic =>
         match position diagnostic with
         | Some (line, character) =>
             let codeLine := nth line lines [] in
             let userCodeStartLine :=
               match find_marker lines with
               | Some index => S index
               | None => O
               end in
             let adjustedLine := (Z.of_nat line - Z.of_nat userCodeStartLine)%Z in
             mkFormattedError (messageText diagnostic) (Some adjustedLine)
               (Some character) (Some (trim codeLine))
               (getSeverity (category diagnostic))
         | None =>
             mkFormattedError (messageText diagnostic) None None None
               (getSeverity (category diagnostic))
         end)
      diagnostics.

(** [String(n)] of an integer. *)
Definition integer_text (n : Z) : jsstring :=
  match n with
  | Z0 => lit "0"
  | Zpos p => decimal (Pos.to_nat p)
  | Zneg p => lit "-" ++ decimal (Pos.to_nat p)
  end.

(** One entry of [formatErrorMessages]; the severities are ASCII words,
    on which [toUpperCase] is the ASCII mapping. *)
Definition error_message (error : FormattedError) : jsstring :=
  SchemaToTypes.ascii_upper (severity error) ++ lit ": " ++ message error
  ++ match line error with
     | Some line =>
         lit " (line " ++ integer_text (line + 1)%Z ++ lit ", col "
         ++ match column error with
            | Some column => decimal (column + 1)
            | None => lit "NaN"
            end
         ++ lit ")"
     | None => []
     end
  ++ match code error with
     | Some ((_ :: _) as code) => newline ++ lit "  > " ++ code
     | _ => []
     end.

Definition formatErrorMessages (errors : list FormattedError) : jsstring :=
  join (newline ++ newline) (map error_message errors).

End Validator.

(* ===================================================================== *)
(** * Regular expressions with captures                                   *)
(* ===================================================================== *)

(** The regular expressions of the error mapper and of [extractCode] are
    run the way the language defines matching: a piece of a pattern gets
    the input that is left and a continuation standing for the rest of
    the pattern, tries its alternatives in priority order, and the first
    alternative the continuation accepts is the match.  A greedy
    quantifier tries the longest repetition first, a lazy one the
    shortest. *)
Module RegExp.

Section Matchers.

Variable R : Type.

(** One character of a class. *)
Definition char (class : code_unit -> bool) (s : jsstring)
    (k : jsstring -> option R) : option R :=
  match s with
  | c :: s' => if class c then k s' else None
  | [] => None
  end.

(** A literal text. *)
Definition literal (text : jsstring) (s : jsstring)
    (k : jsstring -> option R) : option R :=
  if starts_with text s then k (skipn (length text) s) else None.

(** [x?] *)
Definition optional (x : jsstring -> (jsstring -> option R) -> option R)
    (s : jsstring) (k : jsstring -> option R) : option R :=
  match x s k with
  | Some r => Some r
  | None => k s
  end.

(** [x|y] *)
Definition alternative (x y : jsstring -> (jsstring -> option R) -> option R)
    (s : jsstring) (k : jsstring -> option R) : option R :=
  match x s k with
  | Some r => Some r
  | None => y s k
  end.

(** [[class]*] *)
Fixpoint star (class : code_unit -> bool) (s : jsstring)
    (k : jsstring -> option R) : option R :=
  match s with
  | c :: s' =>
      if class c then
        match star class s' k with
        | Some r => Some r
        | None => k s
        end
      else k s
  | [] => k []
  end.

(** [[class]+] *)
Definition plus (class : code_unit -> bool) (s : jsstring)
    (k : jsstring -> option R) : option R :=
  char class s (fun s' => star class s' k).

(** [[class]*?] *)
Fixpoint lazy_star (class : code_unit -> bool) (s : jsstring)
    (k : jsstring -> option R) : option R :=
  match k s with
  | Some r => Some r
  | None =>
      match s with
      | c :: s' => if class c then lazy_star class s' k else None
      | [] => None
      end
  end.

(** A capturing [[class]*] after the characters [taken]: the
    continuation also gets the captured text. *)
Fixpoint star_capture (class : code_unit -> bool) (taken s : jsstring)
    (k : jsstring -> jsstring -> option R) : option R :=
  match s with
  | c :: s' =>
      if class c then
        match star_capture class (taken ++ [c]) s' k with
        | Some r => Some r
        | None => k taken s
        end
      else k taken s
  | [] => k taken []
  end.

(** [([class]+)] *)
Definition plus_capture (class : code_unit -> bool) (s : jsstring)
    (k : jsstring -> jsstring -> option R) : option R :=
  match s with
  | c :: s' => if class c then star_capture class [c] s' k else None
  | [] => None
  end.

(** [([class]*?)] after the characters [taken]. *)
Fixpoint lazy_star_capture (class : code_unit -> bool) (taken s : jsstring)
    (k : jsstring -> jsstring -> option R) : option R :=
  match k taken s with
  | Some r => Some r
  | None =>
      match s with
      | c :: s' =>
          if class c then lazy_star_capture class (taken ++ [c]) s' k else None
      | [] => None
      end
  end.

(** [text.match(pattern)] without the [g] flag: the match at the
    leftmost position that has one. *)
Fixpoint search (pattern : jsstring -> option R) (s : jsstring) : option R :=
  match pattern s with
  | Some r => Some r
  | None =>
      match s with
      | _ :: s' => search pattern s'
      | [] => None
      end
  end.

End Matchers.

Arguments char {R} class s k.
Arguments literal {R} text s k.
Arguments optional {R} x s k.
Arguments alternative {R} x y s k.
Arguments star {R} class s k.
Arguments plus {R} class s k.
Arguments lazy_star {R} class s k.
Arguments star_capture {R} class taken s k.
Arguments plus_capture {R} class s k.
Arguments lazy_star_capture {R} class taken s k.
Arguments search {R} pattern s.

(** [\s], the set [trim] removes; [.], anything but a line terminator;
    [\d]. *)
Definition space : code_unit -> bool := Validator.is_space.
Definition dot (c : code_unit) : bool :=
  negb ((c =? 10) || (c =? 13) || (c =? 8232) || (c =? 8233)).
Definition digit : code_unit -> bool := is_digit.
Definition any (c : code_unit) : bool := true.

End RegExp.

(* ===================================================================== *)
(** * error-mapper.js: classifying and locating errors                    *)
(* ===================================================================== *)

Module ErrorMapper.

(** The two fields of a raised error that [isRecoverable] reads. *)
Record js_error := mkError { name : jsstring; message : jsstring }.

Definition isRecoverable (error : js_error) : bool :=
  if str_eqb (name error) (lit "SyntaxError") then false
  else if includes (lit "memory") (message error)
          || includes (lit "timeout") (message error) then true
  else if str_eqb (name error) (lit "TypeError")
          || str_eqb (name error) (lit "ReferenceError") then true
  else false.

(** ** Locating an error in the submitted code *)

(** [line.match(/at\s+(?:.*?)\s*[(<]?(?:.*?):(\d+):(\d+)/)]: the two
    captured runs of digits. *)
Definition frame_here (s : jsstring) : option (jsstring * jsstring) :=
  RegExp.literal (lit "at") s (fun s =>
  RegExp.plus RegExp.space s (fun s =>
  RegExp.lazy_star RegExp.dot s (fun s =>
  RegExp.star RegExp.space s (fun s =>
  RegExp.optional (RegExp.char (fun c => (c =? 40) || (c =? 60))) s (fun s =>
  RegExp.lazy_star RegExp.dot s (fun s =>
  RegExp.literal (lit ":") s (fun s =>
  RegExp.plus_capture RegExp.digit s (fun lineNum s =>
  RegExp.literal (lit ":") s (fun s =>
  RegExp.plus_capture RegExp.digit s (fun column _ =>
  Some (lineNum, column))))))))))).

Definition frame (line : jsstring) : option (jsstring * jsstring) :=
  RegExp.search frame_here line.

(** A number as [parseInt] returns it for a text of decimal digits: a
    double whose value is a natural number, [Infinity], or [NaN]. *)
Inductive double := Finite (n : N) | Infinity | NaN.

(** The double of a natural number: the number itself below 2^53; from
    there on its 53 leading bits, rounded to the nearest with ties to the
    even one, and [Infinity] when the rounded value reaches 2^1024. *)
Definition to_double (n : N) : double :=
  if n <? 2 ^ 53 then Finite n
  else
    let e := N.size n - 53 in
    let q := N.shiftr n e in
    let r := n mod 2 ^ e in
    let half := 2 ^ (e - 1) in
    let q := if (half <? r) || ((r =? half) && N.odd q) then q + 1 else q in
    if 1024 <? N.size (N.shiftl q e) then Infinity
    else Finite (N.shiftl q e).

(** [parseInt] of a text of decimal digits, which is what the pattern
    captures: the double of the number the digits write in base ten, as
    the engine of Node.js computes it, and [NaN] for the empty text. *)
Definition parseInt (digits : jsstring) : double :=
  match digits with
  | [] => NaN
  | _ => to_double (fold_left (fun n d => 10 * n + (d - 48)) digits 0)
  end.

(** [line] is a number for which [lineNum > 0 && lineNum <= length]
    holds, kept as the natural number it then is; [column] is whatever
    [parseInt] returned. *)
Record Location := mkLocation {
  line : nat;
  column : double;
  code : jsstring
}.

(** [lineNum > 0 && lineNum <= length]: false for [Infinity] and for
    [NaN]. *)
Definition within (lineNum : double) (length : nat) : option nat :=
  match lineNum with
  | Finite n =>
      if (0 <? n) && (n <=? N.of_nat length) then Some (N.to_nat n) else None
  | Infinity | NaN => None
  end.

(** The loop over the lines of the stack: the first line holding a frame
    whose line number lies within the code. *)
Fixpoint first_frame (codeLines lines : list jsstring) : option Location :=
  match lines with
  | [] => None
  | line :: rest =>
      match frame line with
      | Some (digits1, digits2) =>
          let lineNum := parseInt digits1 in
          let column := parseInt digits2 in
          match within lineNum (length codeLines) with
          | Some lineNum =>
              Some (mkLocation lineNum column (nth (lineNum - 1) codeLines []))
          | None => first_frame codeLines rest
          end
      | None => first_frame codeLines rest
      end
  end.

(** [stack] is [None] when the error has no stack. *)
Definition parseStackTrace (stack : option jsstring) (code : jsstring)
  : option Location :=
  match stack with
  | Some ((_ :: _) as stack) =>
      first_frame (split_on (fun c => c =? 10) code)
                  (split_on (fun c => c =? 10) stack)
  | _ => None
  end.

Record ContextLine := mkContextLine {
  number : nat;
  text : jsstring;
  isError : bool
}.

(** [getCodeContext(code, errorLine, contextLines = 3)], for a line
    number that is a natural number; [Math.max(0, ...)] is the truncated
    subtraction. *)
Definition getCodeContext (code : jsstring) (errorLine contextLines : nat)
  : list ContextLine :=
  let lines := split_on (fun c => c =? 10) code in
  let start := (errorLine - contextLines - 1)%nat in
  let end_ := Nat.min (length lines) (errorLine + contextLines) in
  map (fun i =>
         let lineNum := (i + 1)%nat in
         mkContextLine lineNum (nth i lines []) (Nat.eqb lineNum errorLine))
      (seq start (end_ - start)).

End ErrorMapper.

(* ===================================================================== *)
(** * index.js with validation: MCPCodeMode                               *)
(* ===================================================================== *)

Module CodeMode.

Record MCPCodeMode := mkCodeMode {
  connected : bool;
  validateTypes : bool;
  typeDefinitions : jsstring;
  availableTools : list jsstring
}.

(** [connect()], once the bridge has fetched the tools and generated
    the interface text: the known tools are listed by their names as
    advertised. *)
Definition connect (this : MCPCodeMode) (tools : list SchemaToTypes.ToolDescriptor)
    (typeDefinitions : jsstring) : MCPCodeMode :=
  mkCodeMode true (validateTypes this) typeDefinitions
    (map SchemaToTypes.name tools).

Record Options := mkOptions { skipValidation : bool }.

(** The object [executeCode] returns; [executionTimeMs] is read from
    the clock and left out. *)
Record ExecuteResult := mkResult {
  success : bool;
  error : option jsstring;
  validationErrors : option jsstring;
  rawError : option jsstring;
  output : list jsstring;
  sourceMap : option jsstring
}.

Inductive settled (A : Type) : Type :=
| Resolved (r : A)
| Rejected (e : ErrorMapper.js_error).
Arguments Resolved {A} r.
Arguments Rejected {A} e.

(** What one call did: how its promise settled, and the code of every
    [sandbox.execute] it made, in order. *)
Record Executed := mkExecuted {
  outcome : settled ExecuteResult;
  sandbox_calls : list jsstring
}.

Section ExecuteCode.

Variable diagnostic : Type.
Variable transpileModule :
  jsstring -> jsstring * list diagnostic * option jsstring.
Variable formatErrorMessages : list diagnostic -> jsstring -> jsstring.

(** The engine behind [this.sandbox.execute], and the report
    [errorMapper.formatError(errorMapper.mapError(error, code, types))]. *)
Variable sandbox_execute : jsstring -> settled ExecuteResult.
Variable formatMappedError :
  ErrorMapper.js_error -> jsstring -> jsstring -> jsstring.

Definition run_sandbox (this : MCPCodeMode) (code processedCode : jsstring)
    (sourceMap : option jsstring) : Executed :=
  match sandbox_execute processedCode with
  | Rejected error =>
      mkExecuted
        (Resolved (mkResult false
           (Some (formatMappedError error code (typeDefinitions this)))
           None (Some (ErrorMapper.message error)) [] None))
        [processedCode]
  | Resolved result =>
      mkExecuted
        (Resolved (match sourceMap with
                   | Some ((_ :: _) as m) =>
                       mkResult (success result) (error result)
                         (validationErrors result) (rawError result)
                         (output result) (Some m)
                   | _ => result
                   end))
        [processedCode]
  end.

Definition executeCode (this : MCPCodeMode) (code : jsstring)
    (options : Options) : Executed :=
  if negb (connected this) then
    mkExecuted
      (Rejected (ErrorMapper.mkError (lit "Error")
         (lit "Not connected to MCP server. Call connect() first.")))
      []
  else if validateTypes this && negb (skipValidation options) then
    match Validator.validate transpileModule formatErrorMessages
            code (typeDefinitions this) with
    | Validator.Failed formattedErrors =>
        mkExecuted
          (Resolved (mkResult false (Some (lit "TypeScript validation failed"))
                       (Some formattedErrors) None [] None))
          []
    | Validator.Passed processedCode sourceMap =>
        let mcpValidation :=
          Validator.validateMCPUsage processedCode (availableTools this) in
        if negb (Validator.usage_success mcpValidation) then
          mkExecuted
            (Resolved (mkResult false (Validator.usage_error mcpValidation)
                         None None [] None))
            []
        else run_sandbox this code processedCode sourceMap
    end
  else run_sandbox this code code None.

End ExecuteCode.

Arguments executeCode {diagnostic} transpileModule formatErrorMessages
  sandbox_execute formatMappedError this code options.

(** ** Code out of a model's answer *)

(** Three backticks. *)
Definition fence : jsstring := [96; 96; 96].

(** [(?:javascript|js|typescript|ts)] *)
Definition language_tag {R} (s : jsstring) (k : jsstring -> option R)
  : option R :=
  RegExp.alternative (RegExp.literal (lit "javascript"))
    (RegExp.alternative (RegExp.literal (lit "js"))
       (RegExp.alternative (RegExp.literal (lit "typescript"))
          (RegExp.literal (lit "ts"))))
    s k.

(** The pattern of [extractCode] tried at the front of [s]: a fence, an
    optional language tag, an optional line break, the captured text
    (lazy, any characters), an optional line break, a fence. *)
Definition code_block_here (s : jsstring) : option jsstring :=
  RegExp.literal fence s (fun s =>
  RegExp.optional language_tag s (fun s =>
  RegExp.optional (RegExp.char (fun c => c =? 10)) s (fun s =>
  RegExp.lazy_star_capture RegExp.any [] s (fun captured s =>
  RegExp.optional (RegExp.char (fun c => c =? 10)) s (fun s =>
  RegExp.literal fence s (fun _ =>
  Some captured)))))).

(** [MCPCodeMode.extractCode(llmResponse)]; [None] is a missing
    response. *)
Definition extractCode (llmResponse : option jsstring) : jsstring :=
  match llmResponse with
  | Some ((_ :: _) as llmResponse) =>
      match RegExp.search code_block_here llmResponse with
      | Some captured => Validator.trim captured
      | None => Validator.trim llmResponse
      end
  | _ => []
  end.

End CodeMode.

(* ===================================================================== *)
(** * isolated-sandbox.js: the engine on the isolation layer             *)
(* ===================================================================== *)

Module IsolatedSandbox.

(** An argument of a console call as the host callback receives it.  A
    number is carried by its string form, and so is a value of any other
    type that is not an object (a bigint, a symbol, a function), should the
    isolation layer hand one over: [String(arg)] of a number is its
    numeral, of a bigint its digits, of a symbol [Symbol(description)], of
    a function its source text.  A call whose arguments the isolation layer
    does not hand over never reaches the callback, and nothing is captured
    for it. *)
Inductive arg (object : Type) : Type :=
| ANull
| AUndefined
| ABool (b : bool)
| ANum (text : jsstring)
| AStr (s : jsstring)
| AObj (o : object)
| AOther (text : jsstring).
Arguments ANull {object}.
Arguments AUndefined {object}.
Arguments ABool {object} b.
Arguments ANum {object} text.
Arguments AStr {object} s.
Arguments AObj {object} o.
Arguments AOther {object} text.

(** How [JSON.stringify(o)] ends on an object: with text, with
    [undefined] (a [toJSON] that yields nothing), or by throwing (a cycle,
    a BigInt inside). *)
Inductive stringified : Type :=
| Text (s : jsstring)
| NoText
| Fails.

Inductive method : Type := log | error | warn.

Inductive completion : Type :=
| Completed
| Raised (message : option jsstring).

(** Calls into the isolation layer, as the host makes them. *)
Inductive ivm_call : Type :=
| NewIsolate (memoryLimit : nat) (handle : nat)
| Bootstrap (context : nat)
| SetupMCPProxy (context : nat)
| Eval (context : nat) (code : jsstring) (timeout : nat).

Record Result := mkResult {
  success : bool;
  result_error : option jsstring;
  output : list jsstring
}.

Record Sandbox := mkSandbox {
  memoryLimit : nat;
  timeout : nat;
  isolate : option nat;
  context : option nat;
  logs : list jsstring
}.

(** [options.memoryLimit || 128], [options.timeout || 5000] *)
Definition or_default (option : option nat) (default : nat) : nat :=
  match option with
  | Some (S _ as n) => n
  | _ => default
  end.

Definition constructor (memoryLimit timeout : option nat) : Sandbox :=
  mkSandbox (or_default memoryLimit 128) (or_default timeout 5000) None None [].

Section Engine.

Variable object : Type.
Variable JSON_stringify : object -> stringified.

(** [String(arg)] of a primitive that is neither [null] nor
    [undefined]. *)
Definition string_form (a : arg object) : jsstring :=
  match a with
  | ABool true => lit "true"
  | ABool false => lit "false"
  | ANum text => text
  | AStr s => s
  | ANull => lit "null"
  | AUndefined => lit "undefined"
  | AObj _ => lit "[object Object]"
  | AOther text => text
  end.

(** The callback of [args.map(...)] in [_logSync]; [None] is the
    [undefined] that [JSON.stringify] may return. *)
Definition format (a : arg object) : option jsstring :=
  match a with
  | ANull => Some (lit "null")
  | AUndefined => Some (lit "undefined")
  | AObj o =>
      match JSON_stringify o with
      | Text s => Some s
      | NoText => None
      | Fails => Some (lit "[Object]")
      end
  | _ => Some (string_form a)
  end.

(** [Array.prototype.join] prints an [undefined] element as nothing. *)
Definition element_text (e : option jsstring) : jsstring :=
  match e with
  | Some s => s
  | None => []
  end.

Definition logSync (args : list (arg object)) (logs : list jsstring)
  : list jsstring :=
  logs ++ [join (lit " ") (map element_text (map format args))].

(** [console.log], [console.error] and [console.warn] of the
    bootstrap script. *)
Definition console (m : method) (args : list (arg object))
    (logs : list jsstring) : list jsstring :=
  match m with
  | log => logSync args logs
  | error => logSync (AStr (lit "ERROR:") :: args) logs
  | warn => logSync (AStr (lit "WARN:") :: args) logs
  end.

(** What the isolate did with one evaluation: the console calls it
    made, then how the evaluation ended. *)
Record Run := mkRun {
  console_calls : list (method * list (arg object));
  ending : completion
}.

(** The isolation layer numbers its isolates; [created] counts them. *)
Definition initialize (this : Sandbox) (created : nat)
  : Sandbox * nat * list ivm_call :=
  (mkSandbox (memoryLimit this) (timeout this) (Some created) (Some created) [],
   S created,
   [NewIsolate (memoryLimit this) created; Bootstrap created]).

Definition is_none {A} (o : option A) : bool :=
  match o with
  | None => true
  | Some _ => false
  end.

(** What one [execute(code, mcpHandler)] leaves: the sandbox, the
    number of isolates created so far, the calls made into the isolation
    layer, and the value the promise resolves with ([None] when the
    [catch] block itself throws, on an error without message). *)
Record Executed := mkExecuted {
  after : Sandbox;
  isolates : nat;
  ivm_calls : list ivm_call;
  returned : option Result
}.

Definition execute (this : Sandbox) (created : nat) (code : jsstring)
    (mcpHandler : bool) (run : Run) : Executed :=
  let '(this, created, calls) :=
    if is_none (isolate this) || is_none (context this)
    then initialize this created
    else (this, created, []) in
  let ctx := match context this with Some c => c | None => O end in
  let calls := calls
    ++ (if mcpHandler then [SetupMCPProxy ctx] else [])
    ++ [Eval ctx code (timeout this)] in
  let logs :=
    fold_left (fun logs call => console (fst call) (snd call) logs)
              (console_calls run) [] in
  let this := mkSandbox (memoryLimit this) (timeout this) (isolate this)
                        (context this) logs in
  match ending run with
  | Completed => mkExecuted this created calls (Some (mkResult true None logs))
  | Raised None => mkExecuted this created calls None
  | Raised (Some message) =>
      if includes (lit "Script execution timed out") message then
        mkExecuted this created calls
          (Some (mkResult false
                   (Some (lit "Execution timeout (" ++ decimal (timeout this)
                          ++ lit "ms exceeded)"))
                   logs))
      else if includes (lit "Isolate was disposed") message then
        mkExecuted
          (mkSandbox (memoryLimit this) (timeout this) None None logs)
          created calls
          (Some (mkResult false
                   (Some (lit "Memory limit exceeded ("
                          ++ decimal (memoryLimit this) ++ lit "MB)"))
                   logs))
      else
        mkExecuted this created calls
          (Some (mkResult false (Some message) logs))
  end.

End Engine.

Arguments string_form {object} a.
Arguments console_calls {object} r.
Arguments ending {object} r.
Arguments format {object} JSON_stringify a.
Arguments logSync {object} JSON_stringify args logs.
Arguments console {object} JSON_stringify m args logs.
Arguments execute {object} JSON_stringify this created code mcpHandler run.

(** The message of the error the isolation layer raises when it disposes
    an isolate that reached its memory limit. *)
Definition ivm_memory_message : jsstring :=
  lit "Isolate was disposed during execution due to memory limit".

(** ** Giving the isolate back *)

(** The calls [dispose] makes into the isolation layer. *)
Inductive ivm_release : Type :=
| ReleaseContext (context : nat)
| DisposeIsolate (isolate : nat).

Definition dispose (this : Sandbox) : Sandbox * list ivm_release :=
  (mkSandbox (memoryLimit this) (timeout this) None None (logs this),
   match context this with
   | Some c => [ReleaseContext c]
   | None => []
   end
   ++ match isolate this with
      | Some i => [DisposeIsolate i]
      | None => []
      end).

Record MemoryUsage := mkMemoryUsage {
  used : N;
  total : N;
  limit : nat
}.

(** [Math.round(bytes / 1024 / 1024)] of a byte count: the divisions by
    a power of two are exact, and [Math.round] rounds a half upwards. *)
Definition round_MB (bytes : N) : N := (bytes + 524288) / 1048576.

(** [getMemoryUsage()]; the isolation layer answers
    [getHeapStatistics()] with [used_heap_size] and [total_heap_size]. *)
Definition getMemoryUsage (this : Sandbox) (used_heap_size total_heap_size : N)
  : option MemoryUsage :=
  match isolate this with
  | None => None
  | Some _ =>
      Some (mkMemoryUsage (round_MB used_heap_size) (round_MB total_heap_size)
              (memoryLimit this))
  end.

End IsolatedSandbox.

(* ===================================================================== *)
(** * src/mcp-bridge.js: the connection to the tool server                *)
(* ===================================================================== *)

Module MCPBridge.

(** [client] and [transport] say whether the field holds an object or
    [null]. *)
Record Bridge := mkBridge {
  client : bool;
  transport : bool;
  tools : list SchemaToTypes.ToolDescriptor;
  typeDefinitions : jsstring
}.

Definition constructor : Bridge := mkBridge false false [] [].

Definition isConnected (this : Bridge) : bool := client this.

Definition getTools (this : Bridge) : list SchemaToTypes.ToolDescriptor :=
  tools this.

(** What the server does while [connect] runs: whether
    [client.connect(transport)] resolves, and how [client.listTools()]
    ends ([tools] may be missing from its response). *)
Inductive listing : Type :=
| ListToolsRejects
| ListToolsResolves (tools : option (list SchemaToTypes.ToolDescriptor)).

Record Server := mkServer {
  accepts : bool;
  listTools : listing
}.

(** How a method of the bridge ends when it does not return: with an
    error the bridge makes itself, with the rejection of a call into the
    SDK, or with what the generator raised. *)
Inductive failure : Type :=
| NewError (message : jsstring)
| SdkRejection
| GeneratorRaised (e : exn).

Section Connect.

Variables toUpperCase toLowerCase : jsstring -> jsstring.

(** [connect()]: the bridge after the call, and the failure it ended
    with, if any. *)
Definition connect (this : Bridge) (server : Server)
  : Bridge * option failure :=
  if client this then
    (this, Some (NewError (lit "Already connected to MCP server")))
  else
    let this := mkBridge true true (tools this) (typeDefinitions this) in
    if negb (accepts server) then (this, Some SdkRejection)
    else
      match listTools server with
      | ListToolsRejects => (this, Some SdkRejection)
      | ListToolsResolves response_tools =>
          let this :=
            mkBridge true true
              (match response_tools with
               | Some tools => tools
               | None => []
               end)
              (typeDefinitions this) in
          match SchemaToTypes.generateTypeScriptDefinitions
                  toUpperCase toLowerCase (tools this) with
          | Ok text => (mkBridge true true (tools this) text, None)
          | Throw e => (this, Some (GeneratorRaised e))
          end
      end.

End Connect.

(** [disconnect()]; [client_closes] and [transport_closes] say whether
    the SDK's [close()] calls resolve. *)
Definition disconnect (this : Bridge) (client_closes transport_closes : bool)
  : Bridge * option failure :=
  if client this && negb client_closes then (this, Some SdkRejection)
  else
    let this := mkBridge false (transport this) (tools this)
                         (typeDefinitions this) in
    if transport this && negb transport_closes then (this, Some SdkRejection)
    else (mkBridge false false [] [], None).

(** How [client.callTool(request)] ends: with a result object, or with a
    rejection ([message] is what [error.message] reads). *)
Inductive reply : Type :=
| Resolves (result : list (jsstring * json))
| Rejects (message : option jsstring).

(** How [callTool] ends: all it throws is [new Error(message)]. *)
Inductive ended : Type :=
| Returns (v : json)
| Throws (message : jsstring).

(** What one [callTool] did: how it ended, and the requests it sent to
    the server (tool name and arguments), in order. *)
Record Called := mkCalled {
  outcome : ended;
  requests : list (jsstring * value)
}.

(** The predicate of [this.tools.find(...)]. *)
Definition names (toolName : jsstring) (t : SchemaToTypes.ToolDescriptor)
  : bool :=
  str_eqb (SchemaToTypes.sanitizeName (SchemaToTypes.name t)) toolName
  || str_eqb (SchemaToTypes.name t) toolName.

Section CallTool.

Variable client_callTool : jsstring -> value -> reply.
(** [JSON.parse(text)]; [None] when it throws. *)
Variable JSON_parse : jsstring -> option json.

(** The statements of the [try] block after the server has answered.
    ['text' in null] raises the engine's TypeError, which the [catch]
    wraps like a rejection. *)
Definition extract (result : list (jsstring * json)) : ended :=
  match lookup (lit "content") result with
  | Some (JArr (content :: _)) =>
      match content with
      | JNull =>
          Throws (lit "MCP tool call failed: "
                  ++ lit "Cannot use 'in' operator to search for 'text' in null")
      | JObj fields =>
          match lookup (lit "text") fields with
          | Some text =>
              match ToString text with
              | Ok s =>
                  match JSON_parse s with
                  | Some parsed => Returns parsed
                  | None => Returns text
                  end
              | Throw _ => Returns text
              end
          | None => Returns content
          end
      | _ => Returns content
      end
  | _ => Returns JNull
  end.

Definition callTool (this : Bridge) (toolName : jsstring) (args : value)
  : Called :=
  if negb (client this) then
    mkCalled (Throws (lit "Not connected to MCP server")) []
  else
    match find (names toolName) (tools this) with
    | None => mkCalled (Throws (lit "Unknown MCP tool: " ++ toolName)) []
    | Some tool =>
        let arguments := if truthy args then args else Some (JObj []) in
        mkCalled
          match client_callTool (SchemaToTypes.name tool) arguments with
          | Resolves result => extract result
          | Rejects message =>
              Throws (lit "MCP tool call failed: "
                      ++ match message with
                         | Some m => m
                         | None => lit "undefined"
                         end)
          end
          [(SchemaToTypes.name tool, arguments)]
    end.

End CallTool.

End MCPBridge.

(* ===================================================================== *)
(** * src/sandbox.js: the worker-thread engine                            *)
(* ===================================================================== *)

Module WorkerSandbox.

(** Messages from the worker to the host, and back. *)
Inductive to_host : Type :=
| McpCall (method : jsstring) (args : value)
| Complete (logs : list jsstring).

Record McpResult := mkMcpResult {
  method : jsstring;
  result : value;
  error : option jsstring
}.

(** How a host-side [mcpHandler(method, args)] ends; a thrown value
    without [message] leaves [error.message] undefined. *)
Inductive handled : Type :=
| Returns (v : value)
| Throws (message : option jsstring).

(** How the promise of one [mcp.tool(input)] call ends in the worker. *)
Inductive settlement : Type :=
| Fulfilled (v : value)
| RejectedWith (message : jsstring).

(** The host's [worker.on('message')] branch for an [mcp-call]: the reply
    it posts once the handler has ended. *)
Definition host_reply (mcpHandler : jsstring -> value -> handled)
    (method : jsstring) (args : value) : McpResult :=
  match mcpHandler method args with
  | Returns v => mkMcpResult method v None
  | Throws m => mkMcpResult method None m
  end.

(** A listener the proxy left on [parentPort]: the call whose promise it
    settles, and the property name [prop] it closes over. *)
Record listener := mkListener { call : nat; prop : jsstring }.

Record Worker := mkWorker {
  listeners : list listener;
  settlements : list (nat * settlement);
  posted : list to_host;
  next_call : nat
}.

Definition start : Worker := mkWorker [] [] [] 0%nat.

(** [mcp[prop](input)]: post the request, then wait on the port. *)
Definition mcp_call (w : Worker) (prop : jsstring) (input : value) : Worker :=
  mkWorker (listeners w ++ [mkListener (next_call w) prop])
           (settlements w)
           (posted w ++ [McpCall prop input])
           (S (next_call w)).

(** [if (msg.error) reject(new Error(msg.error)) else resolve(msg.result)] *)
Definition settle (msg : McpResult) : settlement :=
  match error msg with
  | Some ((_ :: _) as e) => RejectedWith e
  | _ => Fulfilled (result msg)
  end.

(** One [mcp-result] message reaches the worker: every listener on the
    port sees it, in registration order; a listener whose [prop] is the
    message's [method] leaves the port and settles its promise. *)
Definition deliver (w : Worker) (msg : McpResult) : Worker :=
  let hit := fun l => str_eqb (method msg) (prop l) in
  mkWorker (filter (fun l => negb (hit l)) (listeners w))
           (settlements w
            ++ map (fun l => (call l, settle msg)) (filter hit (listeners w)))
           (posted w)
           (next_call w).

Definition issue (calls : list (jsstring * value)) : Worker :=
  fold_left (fun w c => mcp_call w (fst c) (snd c)) calls start.

(** The handler invocation for the [i]-th call ends: the host posts its
    reply and the worker takes it. *)
Definition handler_ends (mcpHandler : jsstring -> value -> handled)
    (calls : list (jsstring * value)) (w : Worker) (i : nat) : Worker :=
  match nth_error calls i with
  | Some (m, a) => deliver w (host_reply mcpHandler m a)
  | None => w
  end.

(** Calls issued together, host handlers ending in the order
    [completion_order] (positions in [calls]). *)
Definition bridge_run (mcpHandler : jsstring -> value -> handled)
    (calls : list (jsstring * value)) (completion_order : list nat) : Worker :=
  fold_left (handler_ends mcpHandler calls) completion_order (issue calls).

(** The first settlement of a call's promise (a promise settles once). *)
Fixpoint settled_as (k : nat) (l : list (nat * settlement)) : option settlement :=
  match l with
  | [] => None
  | (k', s) :: rest => if Nat.eqb k k' then Some s else settled_as k rest
  end.

(** What the call's own handler invocation produced. *)
Definition own_outcome (mcpHandler : jsstring -> value -> handled)
    (calls : list (jsstring * value)) (k : nat) : option settlement :=
  match nth_error calls k with
  | Some (m, a) => Some (settle (host_reply mcpHandler m a))
  | None => None
  end.

(** ** The try/catch around the submitted code, and the host's promise *)

(** A caught value: its [stack] and [message] when it has them, and its
    string form. *)
Record thrown := mkThrown {
  stack : option jsstring;
  message : option jsstring;
  text : jsstring
}.

Definition nonempty (o : option jsstring) : bool :=
  match o with
  | Some (_ :: _) => true
  | _ => false
  end.

Definition text_of (o : option jsstring) : jsstring :=
  match o with
  | Some s => s
  | None => []
  end.

(** ['Error: ' + (error.stack || error.message || error)] *)
Definition error_line (e : thrown) : jsstring :=
  lit "Error: "
  ++ (if nonempty (stack e) then text_of (stack e)
      else if nonempty (message e) then text_of (message e)
      else text e).

(** How the submitted code, awaited inside the [try], ends. *)
Inductive ending : Type :=
| Returned
| Threw (e : thrown).

Section WorkerScript.

Variable object : Type.
(** [JSON.stringify(o, null, 2)] *)
Variable JSON_stringify : object -> IsolatedSandbox.stringified.

(** The callback of [args.map(...)] in the overridden console
    methods; [typeof null] is ['object'] too. *)
Definition format (a : IsolatedSandbox.arg object) : option jsstring :=
  match a with
  | IsolatedSandbox.ANull => Some (lit "null")
  | IsolatedSandbox.AObj o =>
      match JSON_stringify o with
      | IsolatedSandbox.Text s => Some s
      | IsolatedSandbox.NoText => None
      | IsolatedSandbox.Fails => Some (lit "[object]")
      end
  | IsolatedSandbox.AUndefined => Some (lit "undefined")
  | IsolatedSandbox.ABool true => Some (lit "true")
  | IsolatedSandbox.ABool false => Some (lit "false")
  | IsolatedSandbox.ANum t => Some t
  | IsolatedSandbox.AStr s => Some s
  | IsolatedSandbox.AOther t => Some t
  end.

Definition console (args : list (IsolatedSandbox.arg object))
    (logs : list jsstring) : list jsstring :=
  logs ++ [join (lit " ") (map text_of (map format args))].

(** The worker script from the [try] on: the console calls of the
    submitted code fill [logs], a caught error adds its line, and the
    [complete] message carries [logs]. *)
Definition script (console_calls : list (list (IsolatedSandbox.arg object)))
    (e : ending) : to_host :=
  let logs := fold_left (fun logs args => console args logs) console_calls [] in
  Complete (match e with
            | Returned => logs
            | Threw err => logs ++ [error_line err]
            end).

End WorkerScript.

Arguments format {object} JSON_stringify a.
Arguments console {object} JSON_stringify args logs.
Arguments script {object} JSON_stringify console_calls e.

(** What [execute] resolves with; [executionTimeMs] is read from the
    clock and left out. *)
Record Result := mkResult {
  success : bool;
  output : list jsstring;
  result_error : option jsstring
}.

(** The [completed] flag and the promise of one [execute]. *)
Record Host := mkHost {
  completed : bool;
  resolved : option Result
}.

(** [resolve(r)]: a promise keeps its first resolution. *)
Definition resolve (h : Host) (r : Result) : Host :=
  match resolved h with
  | None => mkHost (completed h) (Some r)
  | Some _ => h
  end.

Inductive event : Type :=
| Message (msg : to_host)
| ErrorEvent (message : jsstring)
| Exit (code : nat)
| TimerFired.

Definition host_step (h : Host) (ev : event) : Host :=
  match ev with
  | TimerFired =>
      if completed h then h
      else resolve h (mkResult false [] (Some (lit "Execution timeout")))
  | Message (McpCall _ _) => h
  | Message (Complete logs) =>
      resolve (mkHost true (resolved h)) (mkResult true logs None)
  | ErrorEvent message =>
      resolve (mkHost true (resolved h)) (mkResult false [] (Some message))
  | Exit code =>
      if completed h then h
      else match code with
           | O => mkHost true (resolved h)
           | S _ =>
               resolve (mkHost true (resolved h))
                 (mkResult false []
                    (Some (lit "Worker exited with code " ++ decimal code)))
           end
  end.

Definition execute (events : list event) : Host :=
  fold_left host_step events (mkHost false None).

Definition is_mcp_call (ev : event) : bool :=
  match ev with
  | Message (McpCall _ _) => true
  | _ => false
  end.

(** ** The bridge of the isolated engine, for comparison

    [setupMCPProxy] hands every call to [_mcpCallAsync.apply(...,
    {result: {promise: true}})]: the isolation layer gives each call a
    promise of its own, settled by that call's handler invocation. *)
Definition isolated_bridge_run (mcpHandler : jsstring -> value -> handled)
    (calls : list (jsstring * value)) (completion_order : list nat)
  : list (nat * settlement) :=
  flat_map
    (fun i =>
       match nth_error calls i with
       | Some (m, a) =>
           [(i, match mcpHandler m a with
                | Returns v => Fulfilled v
                | Throws (Some msg) => RejectedWith msg
                | Throws None => RejectedWith []
                end)]
       | None => []
       end)
    completion_order.

End WorkerSandbox.

(* ===================================================================== *)
(** * The vocabulary of the specification                                 *)
(* ===================================================================== *)

(** ** Classes of errors *)

Definition syntax_class (e : ErrorMapper.js_error) : bool :=
  str_eqb (ErrorMapper.name e) (lit "SyntaxError").

(** The message test of the classifier: the message contains [memory]
    or [timeout]. *)
Definition resource_message (e : ErrorMapper.js_error) : bool :=
  includes (lit "memory") (ErrorMapper.message e)
  || includes (lit "timeout") (ErrorMapper.message e).

Definition type_or_reference_class (e : ErrorMapper.js_error) : bool :=
  str_eqb (ErrorMapper.name e) (lit "TypeError")
  || str_eqb (ErrorMapper.name e) (lit "ReferenceError").

(** One reading of a message that indicates a timeout or memory
    condition: letter case aside, it speaks of memory, of a timeout or of
    timing out. *)
Definition mentions_resource (message : jsstring) : Prop :=
  let lower := SchemaToTypes.ascii_lower message in
  includes (lit "memory") lower || includes (lit "timeout") lower
  || includes (lit "timed out") lower = true.

(** ** Console lines *)

Section ConsoleRule.

Variable object : Type.
Variable JSON_stringify : object -> IsolatedSandbox.stringified.

(** The formatting rule in the specification's words: [text] is how the
    argument [a] is printed.  [null] and [undefined] print as their names;
    an object as its JSON serialization, as the placeholder when
    serializing throws and as nothing when it yields [undefined]; a
    boolean as [true] or [false]; a string as itself; a number and any
    other value as the string form they are carried by. *)
Definition formatted (a : IsolatedSandbox.arg object) (text : jsstring) : Prop :=
  match a with
  | IsolatedSandbox.ANull => text = lit "null"
  | IsolatedSandbox.AUndefined => text = lit "undefined"
  | IsolatedSandbox.AObj o =>
      (forall s, JSON_stringify o = IsolatedSandbox.Text s -> text = s)
      /\ (JSON_stringify o = IsolatedSandbox.Fails -> text = lit "[Object]")
      /\ (JSON_stringify o = IsolatedSandbox.NoText -> text = [])
  | IsolatedSandbox.ABool true => text = lit "true"
  | IsolatedSandbox.ABool false => text = lit "false"
  | IsolatedSandbox.ANum numeral => text = numeral
  | IsolatedSandbox.AStr s => text = s
  | IsolatedSandbox.AOther string => text = string
  end.

(** The word an entry point puts before the arguments. *)
Definition prefix (m : IsolatedSandbox.method) : list jsstring :=
  match m with
  | IsolatedSandbox.log => []
  | IsolatedSandbox.error => [lit "ERROR:"]
  | IsolatedSandbox.warn => [lit "WARN:"]
  end.

Definition printed (a : IsolatedSandbox.arg object) : jsstring :=
  IsolatedSandbox.element_text (IsolatedSandbox.format JSON_stringify a).

End ConsoleRule.

Arguments formatted {object} JSON_stringify a text.
Arguments printed {object} JSON_stringify a.

(** ** Tool calls in submitted code *)

(** An identifier of the generated interface: a non-empty run of letters,
    digits and underscores. *)
Definition identifier (w : jsstring) : Prop :=
  w <> [] /\ Forall (fun c => is_word c = true) w.

(** The text [mcp.<w>(] stands somewhere in [code]. *)
Definition called_in (w code : jsstring) : Prop :=
  identifier w
  /\ exists before rest, code = before ++ lit "mcp." ++ w ++ lit "(" ++ rest.

(** Every position tried in turn, without [lastIndex]. *)
Fixpoint all_matches (s : jsstring) : list jsstring :=
  match s with
  | [] => []
  | _ :: s' =>
      match Validator.match_here s with
      | Some (w, _) => w :: all_matches s'
      | None => all_matches s'
      end
  end.

Section GateRule.

Variable diagnostic : Type.
Variable transpileModule :
  jsstring -> jsstring * list diagnostic * option jsstring.
Variable formatErrorMessages : list diagnostic -> jsstring -> jsstring.

(** Type validation or the usage check fails for a submission. *)
Definition validation_fails (this : CodeMode.MCPCodeMode) (code : jsstring)
  : Prop :=
  match Validator.validate transpileModule formatErrorMessages code
          (CodeMode.typeDefinitions this) with
  | Validator.Failed _ => True
  | Validator.Passed compiled _ =>
      Validator.usage_success
        (Validator.validateMCPUsage compiled (CodeMode.availableTools this))
      = false
  end.

End GateRule.

Arguments validation_fails {diagnostic} transpileModule formatErrorMessages
  this code.

(** ** Schema trees

    A parsed JSON value is a schema tree when the keywords the translator
    reads carry the kind of value JSON Schema gives them: [anyOf], [oneOf]
    and [allOf] an array of schemas, [enum] an array of values that print,
    [items] and [additionalProperties] a schema, [properties] an object
    whose values are schemas (and none of them [null]), [description] a
    string, [required] an array (or a string, which [includes] reads
    too).  Any of these may be missing, [null], [false] or empty, any
    other keyword may hold anything, the [type] tag may be any value, and
    a schema may be a boolean. *)

Definition printable (v : json) : bool :=
  match ToString v with
  | Ok _ => true
  | Throw _ => false
  end.

Definition is_null (v : json) : bool :=
  match v with
  | JNull => true
  | _ => false
  end.

Definition keyword_ok (well_formed : json -> bool) (key : jsstring) (v : json)
  : bool :=
  if str_eqb key (lit "anyOf") || str_eqb key (lit "oneOf")
     || str_eqb key (lit "allOf") then
    negb (truthy (Some v))
    || match v with
       | JArr branches => forallb well_formed branches
       | _ => false
       end
  else if str_eqb key (lit "enum") then
    negb (truthy (Some v))
    || match v with
       | JArr values => forallb printable values
       | _ => false
       end
  else if str_eqb key (lit "items")
          || str_eqb key (lit "additionalProperties") then
    well_formed v
  else if str_eqb key (lit "properties") then
    negb (truthy (Some v))
    || match v with
       | JObj props =>
           forallb (fun p => negb (is_null (snd p)) && well_formed (snd p)) props
       | _ => false
       end
  else if str_eqb key (lit "description") then
    negb (truthy (Some v))
    || match v with
       | JStr _ => true
       | _ => false
       end
  else if str_eqb key (lit "required") then
    match v with
    | JNull | JArr _ | JStr _ => true
    | _ => false
    end
  else true.

Fixpoint well_formed (schema : json) : bool :=
  match schema with
  | JObj fields =>
      forallb (fun field => keyword_ok well_formed (fst field) (snd field)) fields
  | _ => true
  end.

Definition well_formed_value (schema : value) : bool :=
  match schema with
  | Some j => well_formed j
  | None => true
  end.

Definition has_combinator (schema : json) : bool :=
  match schema with
  | JObj fields =>
      truthy (lookup (lit "anyOf") fields)
      || truthy (lookup (lit "oneOf") fields)
      || truthy (lookup (lit "allOf") fields)
  | _ => false
  end.

Definition type_tag (schema : json) : value :=
  match schema with
  | JObj fields => lookup (lit "type") fields
  | _ => None
  end.

(** The type tags the translator knows. *)
Definition recognized (tag : value) : bool :=
  existsb (fun name => is_string name tag)
    [lit "string"; lit "number"; lit "integer"; lit "boolean"; lit "null";
     lit "array"; lit "object"].

(** ** Object schemas and their properties *)

(** No [anyOf], [oneOf] or [allOf] decides the translation. *)
Definition plain (fields : list (jsstring * json)) : Prop :=
  has_combinator (JObj fields) = false.

(** An object schema with the properties [props]. *)
Definition object_schema (fields props : list (jsstring * json)) : Prop :=
  plain fields
  /\ lookup (lit "type") fields = Some (JStr (lit "object"))
  /\ lookup (lit "properties") fields = Some (JObj props).

(** A string-typed schema carrying [enum: values]. *)
Definition string_enum (schema : json) (values : list jsstring) : Prop :=
  exists fields,
    schema = JObj fields
    /\ plain fields
    /\ lookup (lit "type") fields = Some (JStr (lit "string"))
    /\ lookup (lit "enum") fields = Some (JArr (map JStr values)).

(** The schema's [required] is missing or an array. *)
Definition required_array (fields : list (jsstring * json)) : Prop :=
  match lookup (lit "required") fields with
  | None | Some (JArr _) => True
  | Some _ => False
  end.

(** [key] is listed in the schema's [required] array. *)
Definition listed (fields : list (jsstring * json)) (key : jsstring) : bool :=
  match lookup (lit "required") fields with
  | Some (JArr names) => existsb (fun e => is_string key (Some e)) names
  | _ => false
  end.

Definition quoted (s : jsstring) : jsstring := dquote ++ s ++ dquote.

(** The literal union of an enumeration. *)
Definition literal_union (values : list jsstring) : jsstring :=
  join (lit " | ") (map quoted values).

(** How one property of an object schema is rendered into [line]. *)
Definition rendered (fields : list (jsstring * json)) (indent : nat)
    (property : jsstring * json) (line : jsstring) : Prop :=
  let (key, propSchema) := property in
  exists comment propType,
    line = comment ++ spaces indent ++ lit "  " ++ key
           ++ (if listed fields key then [] else lit "?")
           ++ lit ": " ++ propType ++ lit ";"
    /\ SchemaToTypes.jsonSchemaToTypeScript (Some propSchema) (indent + 2)
       = Ok propType
    /\ (forall values, string_enum propSchema values ->
                       propType = literal_union values).

(** ** Pending calls of the worker bridge *)

(** The listeners left by issuing [calls] from call number [n] on. *)
Fixpoint listeners_from (n : nat) (calls : list (jsstring * value))
  : list WorkerSandbox.listener :=
  match calls with
  | [] => []
  | c :: rest =>
      WorkerSandbox.mkListener n (fst c) :: listeners_from (S n) rest
  end.

(** What holds of the worker once the handler invocations in [done]
    have ended: every settlement is the call's own outcome, every listener
    belongs to a call, the calls not in [done] still listen, and those in
    [done] are settled. *)
Record bridge_invariant (mcpHandler : jsstring -> value -> WorkerSandbox.handled)
    (calls : list (jsstring * value)) (done : list nat)
    (w : WorkerSandbox.Worker) : Prop := {
  inv_own : forall k s,
      In (k, s) (WorkerSandbox.settlements w) ->
      WorkerSandbox.own_outcome mcpHandler calls k = Some s;
  inv_known : forall l,
      In l (WorkerSandbox.listeners w) ->
      exists a, nth_error calls (WorkerSandbox.call l)
                = Some (WorkerSandbox.prop l, a);
  inv_pending : forall k m a,
      nth_error calls k = Some (m, a) -> ~ In k done ->
      In (WorkerSandbox.mkListener k m) (WorkerSandbox.listeners w);
  inv_settled : forall k,
      In k done -> (k < length calls)%nat ->
      exists s, In (k, s) (WorkerSandbox.settlements w)
}.

(** ** Lines of text *)

Definition line_break (c : code_unit) : bool := c =? 10.

(** [text.split('\n')] *)
Definition lines_of (text : jsstring) : list jsstring :=
  split_on line_break text.

(** The comment that separates the interface text from the submission
    in what the validator compiles. *)
Definition marker : jsstring := lit "// User code".

(** The source [validate] hands to the compiler. *)
Definition fullSource (code types : jsstring) : jsstring :=
  newline ++ lit "// Type definitions" ++ newline ++ types ++ newline
  ++ newline ++ marker ++ newline ++ code ++ newline.

(** Where line [k] of the submission (counted from zero) stands in
    [fullSource]: after the empty first line, the heading, the lines of
    the interface text, an empty line and the marker. *)
Definition user_line (types : jsstring) (k : nat) : nat :=
  (length (lines_of types) + 4 + k)%nat.

(** ** Stack traces *)

(** The frame found on a line of the stack points into the code. *)
Definition in_code (codeLines : list jsstring) (line : jsstring) : bool :=
  match ErrorMapper.frame line with
  | Some (digits, _) =>
      match ErrorMapper.parseInt digits with
      | ErrorMapper.Finite n => (0 <? n) && (n <=? N.of_nat (length codeLines))
      | _ => false
      end
  | None => false
  end.

(** The number a text of decimal digits writes in base ten. *)
Fixpoint decimal_value (digits : jsstring) : N :=
  match digits with
  | [] => 0
  | d :: rest => (d - 48) * 10 ^ N.of_nat (length rest) + decimal_value rest
  end.

(** A repetition of [class] cannot go on into [rest]. *)
Definition stops (class : code_unit -> bool) (rest : jsstring) : bool :=
  match rest with
  | [] => true
  | c :: _ => negb (class c)
  end.

(** A stack-frame line as the engine prints it: an indentation without
    the letter [a], the word [at], white space, a description without
    colon or line terminator, then [:line:column] and what follows the
    column. *)
Record frame_line
    (indentation blank description digits1 digits2 tail : jsstring) : Prop := {
  indentation_plain : Forall (fun c => c <> 97) indentation;
  blank_space : blank <> [] /\ forallb RegExp.space blank = true;
  description_plain :
    forallb RegExp.dot description = true
    /\ Forall (fun c => c <> 58) description
    /\ stops RegExp.space (description ++ lit ":") = true;
  digits1_digits : digits1 <> [] /\ forallb RegExp.digit digits1 = true;
  digits2_digits : digits2 <> [] /\ forallb RegExp.digit digits2 = true;
  tail_stops : stops RegExp.digit tail = true
}.

(** ** Tools and their identifiers *)

(** The identifier under which the generator declares a tool. *)
Definition identifier_of (t : SchemaToTypes.ToolDescriptor) : jsstring :=
  SchemaToTypes.sanitizeName (SchemaToTypes.name t).

(** A tool whose advertised name is an identifier already. *)
Definition plain_name (t : SchemaToTypes.ToolDescriptor) : Prop :=
  identifier (SchemaToTypes.name t).

(** The arguments a tool request carries: [args || {}]. *)
Definition arguments_sent (args : value) : value :=
  if truthy args then args else Some (JObj []).

(** The server refuses the connection or the listing of its tools. *)
Definition refuses (server : MCPBridge.Server) : bool :=
  negb (MCPBridge.accepts server)
  || match MCPBridge.listTools server with
     | MCPBridge.ListToolsRejects => true
     | MCPBridge.ListToolsResolves _ => false
     end.

(** Text of ASCII characters only. *)
Definition ascii (s : jsstring) : Prop := Forall (fun c => c < 128) s.

(** The language tags the pattern of [extractCode] knows, and none. *)
Definition known_tag (tag : jsstring) : Prop :=
  In tag [[]; lit "javascript"; lit "js"; lit "typescript"; lit "ts"].

(** ** Console arguments *)

(** An argument that is no object: [null], [undefined], a boolean, a
    number, a string, or a value of another type that is not an object. *)
Definition primitive {object} (a : IsolatedSandbox.arg object) : bool :=
  match a with
  | IsolatedSandbox.AObj _ => false
  | _ => true
  end.

(** ** Evaluations of the isolated engine *)

(** The engine keeps its isolate after an evaluation: the evaluation
    completes, or raises something the memory branch of the [catch] block
    does not take.  The branch is taken on the text of the message alone,
    [Isolate was disposed] without [Script execution timed out], whoever
    raised the error. *)
Definition keeps_isolate {object} (run : IsolatedSandbox.Run object) : bool :=
  match IsolatedSandbox.ending run with
  | IsolatedSandbox.Completed => true
  | IsolatedSandbox.Raised None => true
  | IsolatedSandbox.Raised (Some message) =>
      includes (lit "Script execution timed out") message
      || negb (includes (lit "Isolate was disposed") message)
  end.

(** The line one console call leaves in the output. *)
Definition console_line {object}
    (JSON_stringify : object -> IsolatedSandbox.stringified)
    (call : IsolatedSandbox.method * list (IsolatedSandbox.arg object))
  : jsstring :=
  join (lit " ") (prefix (fst call) ++ map (printed JSON_stringify) (snd call)).

(** ** Events of the worker engine *)

(** What the host reports for the event that ends an execution: the
    timer, the [complete] message, an error of the worker, or its exit
    with a code other than zero. *)
Definition verdict (ev : WorkerSandbox.event) : option WorkerSandbox.Result :=
  match ev with
  | WorkerSandbox.TimerFired =>
      Some (WorkerSandbox.mkResult false [] (Some (lit "Execution timeout")))
  | WorkerSandbox.Message (WorkerSandbox.Complete logs) =>
      Some (WorkerSandbox.mkResult true logs None)
  | WorkerSandbox.ErrorEvent message =>
      Some (WorkerSandbox.mkResult false [] (Some message))
  | WorkerSandbox.Exit (S n) =>
      Some (WorkerSandbox.mkResult false []
              (Some (lit "Worker exited with code " ++ decimal (S n))))
  | _ => None
  end.

(** Events that resolve nothing once the worker has gone: a tool request,
    the timer, an exit. *)
Definition quiet (ev : WorkerSandbox.event) : bool :=
  match ev with
  | WorkerSandbox.Message (WorkerSandbox.McpCall _ _) => true
  | WorkerSandbox.TimerFired => true
  | WorkerSandbox.Exit _ => true
  | _ => false
  end.

(** ** Sample inputs *)

(** A schema with nested objects, an enumeration, an array, a union, a
    boolean subschema and a type tag from nowhere. *)
Definition sample_props : list (jsstring * json) :=
  [(lit "query",
    JObj [(lit "type", JStr (lit "string"));
          (lit "description", JStr (lit "What to look for"))]);
   (lit "mode",
    JObj [(lit "type", JStr (lit "string"));
          (lit "enum", JArr [JStr (lit "a"); JStr (lit "b")])]);
   (lit "tags",
    JObj [(lit "type", JStr (lit "array"));
          (lit "items", JObj [(lit "type", JStr (lit "integer"))])]);
   (lit "when",
    JObj [(lit "anyOf",
           JArr [JObj [(lit "type", JStr (lit "null"))];
                 JObj [(lit "type", JStr (lit "date"))]])]);
   (lit "extra", JBool true)].

Definition sample_fields : list (jsstring * json) :=
  [(lit "type", JStr (lit "object"));
   (lit "properties", JObj sample_props);
   (lit "required", JArr [JStr (lit "query")])].

Definition sample_schema : json := JObj sample_fields.

Definition sample_tools : list SchemaToTypes.ToolDescriptor :=
  [SchemaToTypes.mkTool (lit "search-music!")
     (Some (lit "Search the library." ++ newline ++ lit "Returns tracks."))
     (Some (JObj [(lit "type", JStr (lit "object"));
                  (lit "properties",
                   JObj [(lit "q", JObj [(lit "type", JStr (lit "string"))])]);
                  (lit "required", JArr [JStr (lit "q")])]));
   SchemaToTypes.mkTool (lit "get_user_info") None None].

(* ===================================================================== *)
(** * Facts about strings                                                 *)
(* ===================================================================== *)

Lemma str_eqb_eq (a b : jsstring) : str_eqb a b = true <-> a = b.
Proof.
  revert b; induction a as [|x a IH]; intros [|y b]; simpl; split;
    try congruence; try reflexivity.
  - intros H. apply andb_true_iff in H as [Hx Hr].
    apply N.eqb_eq in Hx. apply IH in Hr. congruence.
  - intros H. injection H as -> ->. rewrite N.eqb_refl. simpl.
    now apply IH.
Qed.

Lemma str_eqb_refl (a : jsstring) : str_eqb a a = true.
Proof. now apply str_eqb_eq. Qed.

Lemma str_eqb_neq (a b : jsstring) : str_eqb a b = false <-> a <> b.
Proof.
  rewrite <- str_eqb_eq. destruct (str_eqb a b); split; congruence.
Qed.

Lemma starts_with_spec (p s : jsstring) :
  starts_with p s = true <-> exists t, s = p ++ t.
Proof.
  revert s; induction p as [|x p IH]; intros s; simpl.
  - split; [intros _; now exists s | reflexivity].
  - destruct s as [|y s].
    + split; [discriminate | intros [t Ht]; discriminate].
    + rewrite andb_true_iff, N.eqb_eq, IH. split.
      * intros [-> [t ->]]. now exists t.
      * intros [t Ht]. injection Ht as -> ->. split; [reflexivity | now exists t].
Qed.

Lemma includes_spec (p s : jsstring) :
  includes p s = true <-> exists pre post, s = pre ++ p ++ post.
Proof.
  induction s as [|c s IH].
  - simpl. rewrite orb_false_r, starts_with_spec. split.
    + intros [t ->]. now exists [], t.
    + intros [pre [post H]]. destruct pre; [now exists post | discriminate].
  - simpl. rewrite orb_true_iff, IH, starts_with_spec. split.
    + intros [[t Ht] | [pre [post ->]]].
      * now exists [], t.
      * now exists (c :: pre), post.
    + intros [[|d pre] [post H]].
      * left. now exists post.
      * right. injection H as -> ->. now exists pre, post.
Qed.

Lemma is_word_classes (c : code_unit) :
  is_word c = is_letter c || is_digit c || (c =? underscore).
Proof.
  unfold is_word, is_letter.
  destruct (is_lower c), (is_upper c), (is_digit c), (c =? underscore);
    reflexivity.
Qed.

(* ===================================================================== *)
(** * The sanitization rule                                               *)
(* ===================================================================== *)

(** C6.  [sanitizeName] keeps the length of the name, keeps every code
    unit that is a letter, a digit or the underscore where it stands, and
    puts an underscore in the place of every other one; the tool name
    [search-music!] becomes [search_music_]. *)
Theorem sanitizeName_replaces_exactly (name : jsstring) :
  length (SchemaToTypes.sanitizeName name) = length name
  /\ (forall i c,
        nth_error name i = Some c ->
        nth_error (SchemaToTypes.sanitizeName name) i
        = Some (if is_letter c || is_digit c || (c =? underscore)
                then c else underscore))
  /\ SchemaToTypes.sanitizeName (lit "search-music!") = lit "search_music_".
Proof.
  unfold SchemaToTypes.sanitizeName. split; [apply length_map | split].
  - intros i c Hc. rewrite nth_error_map, Hc. simpl.
    now rewrite is_word_classes.
  - reflexivity.
Qed.

(** The rule is not injective: two distinct names share an identifier. *)
Lemma sanitizeName_collision :
  lit "a-b" <> lit "a.b"
  /\ SchemaToTypes.sanitizeName (lit "a-b") = SchemaToTypes.sanitizeName (lit "a.b").
Proof. split; [discriminate | reflexivity]. Qed.

(* ===================================================================== *)
(** * The recoverability classifier                                       *)
(* ===================================================================== *)

Lemma isRecoverable_unfold (e : ErrorMapper.js_error) :
  ErrorMapper.isRecoverable e
  = if syntax_class e then false
    else if resource_message e then true
    else type_or_reference_class e.
Proof.
  unfold ErrorMapper.isRecoverable, syntax_class, resource_message,
    type_or_reference_class.
  destruct (str_eqb (ErrorMapper.name e) (lit "SyntaxError")); [reflexivity|].
  destruct (includes (lit "memory") (ErrorMapper.message e)
            || includes (lit "timeout") (ErrorMapper.message e)); [reflexivity|].
  now destruct (str_eqb (ErrorMapper.name e) (lit "TypeError")
                || str_eqb (ErrorMapper.name e) (lit "ReferenceError")).
Qed.

Lemma type_or_reference_not_syntax (e : ErrorMapper.js_error) :
  type_or_reference_class e = true -> syntax_class e = false.
Proof.
  unfold type_or_reference_class, syntax_class. intros H.
  apply orb_true_iff in H as [H | H]; apply str_eqb_eq in H; rewrite H;
    reflexivity.
Qed.

(** C9 as worded fails: a syntax error whose message speaks of a timeout
    is in the first class, its message is one of the second, and the
    classifier answers [false] for it. *)
Lemma isRecoverable_syntax_error_with_timeout_message :
  let e := ErrorMapper.mkError (lit "SyntaxError") (lit "Execution timeout") in
  syntax_class e = true
  /\ resource_message e = true
  /\ ErrorMapper.isRecoverable e = false.
Proof. repeat split. Qed.

Lemma includes_map (f : code_unit -> code_unit) (p s : jsstring) :
  includes p s = true -> includes (map f p) (map f s) = true.
Proof.
  rewrite !includes_spec. intros (pre & post & ->).
  exists (map f pre), (map f post). now rewrite !map_app.
Qed.

Lemma decimal_digits (n : nat) : forallb is_digit (decimal n) = true.
Proof.
  unfold decimal. generalize (Nat.to_uint n) as u.
  induction u as [|u IH|u IH|u IH|u IH|u IH|u IH|u IH|u IH|u IH|u IH];
    [reflexivity | exact IH ..].
Qed.

Lemma includes_after_digits (p digits rest : jsstring) (c : code_unit) :
  is_digit c = false ->
  forallb is_digit digits = true ->
  includes (c :: p) (digits ++ rest) = includes (c :: p) rest.
Proof.
  intros Hc. induction digits as [|d digits IH]; [reflexivity|].
  cbn [forallb app]. intros H. apply andb_prop in H as [Hd Hrest].
  cbn [includes starts_with]. rewrite (IH Hrest).
  destruct (N.eqb_spec c d) as [->|_]; [congruence | reflexivity].
Qed.

Section Recoverability.

(** What it is for a message to indicate a timeout or memory condition
    is left open, but for this: a message that contains the text [memory]
    or the text [timeout] does. *)
Variable indicates : jsstring -> Prop.
Hypothesis words_indicate :
  forall message,
    includes (lit "memory") message || includes (lit "timeout") message = true ->
    indicates message.

(** C9, amended.  The classifier answers [false] for every syntax-class
    error; [true] for every error that is not syntax-class and whose
    message contains the text [timeout] or [memory] as the classifier
    searches for them, in lower case; [true] for every type-class or
    reference-class error; and [false] for every other error whose message
    does not indicate a timeout or memory condition.  Nothing is said of
    an error of another class whose message indicates such a condition in
    other words or another letter case. *)
Theorem isRecoverable_classification (e : ErrorMapper.js_error) :
  (syntax_class e = true -> ErrorMapper.isRecoverable e = false)
  /\ (syntax_class e = false -> resource_message e = true ->
      ErrorMapper.isRecoverable e = true)
  /\ (type_or_reference_class e = true -> ErrorMapper.isRecoverable e = true)
  /\ (syntax_class e = false -> type_or_reference_class e = false ->
      ~ indicates (ErrorMapper.message e) ->
      ErrorMapper.isRecoverable e = false).
Proof.
  rewrite isRecoverable_unfold. split; [|split; [|split]].
  - now intros ->.
  - now intros -> ->.
  - intros H. rewrite (type_or_reference_not_syntax e H), H.
    now destruct (resource_message e).
  - intros -> -> Hnot. destruct (resource_message e) eqn:Hres; [|reflexivity].
    exfalso. apply Hnot, words_indicate. exact Hres.
Qed.

End Recoverability.

Lemma words_mention_resource (message : jsstring) :
  includes (lit "memory") message || includes (lit "timeout") message = true ->
  mentions_resource message.
Proof.
  unfold mentions_resource. cbv zeta. intros H.
  apply orb_true_iff in H as [H|H];
    apply (includes_map (fun c => if is_upper c then c + 32 else c)) in H;
    change (map _ message) with (SchemaToTypes.ascii_lower message) in H;
    change (map _ (lit "memory")) with (lit "memory") in H;
    change (map _ (lit "timeout")) with (lit "timeout") in H;
    rewrite H; [reflexivity | now rewrite orb_true_r].
Qed.

Lemma isRecoverable_classification_witness :
  ErrorMapper.isRecoverable
    (ErrorMapper.mkError (lit "Error") (lit "Execution timeout")) = true
  /\ ErrorMapper.isRecoverable
       (ErrorMapper.mkError (lit "RangeError") (lit "Invalid array length"))
     = false.
Proof.
  split.
  - exact (proj1 (proj2 (isRecoverable_classification mentions_resource
                           words_mention_resource
                           (ErrorMapper.mkError (lit "Error")
                              (lit "Execution timeout"))))
             eq_refl eq_refl).
  - refine (proj2 (proj2 (proj2 (isRecoverable_classification mentions_resource
                                   words_mention_resource
                                   (ErrorMapper.mkError (lit "RangeError")
                                      (lit "Invalid array length")))))
              eq_refl eq_refl _).
    unfold mentions_resource. cbn. discriminate.
Defined.

(** What the amended statement leaves out.  The classifier looks for
    [memory] and [timeout] in the message as it is, while [getSuggestion]
    lower-cases the message first: it misses the memory report of the
    isolated engine, whatever the limit, and the timeout error of the
    isolation layer, and finds the engine's timeout report and the
    isolation layer's memory error. *)
Lemma isRecoverable_misses_engine_messages (memoryLimit timeout : nat) :
  let error := fun message => ErrorMapper.mkError (lit "Error") message in
  ErrorMapper.isRecoverable
    (error (lit "Memory limit exceeded (" ++ decimal memoryLimit ++ lit "MB)"))
  = false
  /\ ErrorMapper.isRecoverable (error (lit "Script execution timed out.")) = false
  /\ ErrorMapper.isRecoverable
       (error (lit "Execution timeout (" ++ decimal timeout ++ lit "ms exceeded)"))
     = true
  /\ ErrorMapper.isRecoverable
       (error (lit "Isolate was disposed during execution due to memory limit"))
     = true.
Proof.
  intros error. split; [|split; [reflexivity | split; [|reflexivity]]].
  - unfold error, ErrorMapper.isRecoverable.
    cbn [ErrorMapper.name ErrorMapper.message].
    set (tail := decimal memoryLimit ++ lit "MB)").
    assert (Hm : includes (lit "memory") tail = false)
      by (unfold tail; change (lit "memory") with (109 :: lit "emory");
          rewrite (includes_after_digits _ _ _ 109 eq_refl
                     (decimal_digits memoryLimit)); reflexivity).
    assert (Ht : includes (lit "timeout") tail = false)
      by (unfold tail; change (lit "timeout") with (116 :: lit "imeout");
          rewrite (includes_after_digits _ _ _ 116 eq_refl
                     (decimal_digits memoryLimit)); reflexivity).
    cbn. cbn in Hm, Ht. now rewrite Hm, Ht.
  - unfold error, ErrorMapper.isRecoverable.
    cbn [ErrorMapper.name ErrorMapper.message].
    assert (H : includes (lit "timeout")
                  (lit "Execution timeout (" ++ decimal timeout
                   ++ lit "ms exceeded)") = true).
    { apply includes_spec. exists (lit "Execution "),
        (lit " (" ++ decimal timeout ++ lit "ms exceeded)"). reflexivity. }
    rewrite H, orb_true_r. reflexivity.
Qed.

(* ===================================================================== *)
(** * Console capture of the isolated engine                              *)
(* ===================================================================== *)

Section ConsoleCapture.

Variable object : Type.
Variable JSON_stringify : object -> IsolatedSandbox.stringified.

Lemma printed_formatted (a : IsolatedSandbox.arg object) :
  formatted JSON_stringify a (printed JSON_stringify a).
Proof.
  unfold printed, formatted.
  destruct a as [| |[|]|t|s|o|t]; cbn [IsolatedSandbox.format
    IsolatedSandbox.string_form IsolatedSandbox.element_text];
    try reflexivity.
  destruct (JSON_stringify o) as [s| |];
    cbn [IsolatedSandbox.element_text]; repeat split; congruence.
Qed.

Lemma logSync_line (args : list (IsolatedSandbox.arg object))
    (logs : list jsstring) :
  IsolatedSandbox.logSync JSON_stringify args logs
  = logs ++ [join (lit " ") (map (printed JSON_stringify) args)].
Proof.
  unfold IsolatedSandbox.logSync, printed. now rewrite map_map.
Qed.

(** C8.  A console call appends exactly one line to the captured
    output: the entry point's prefix ([ERROR:] for [console.error],
    [WARN:] for [console.warn], none for [console.log]) and the printed
    arguments, joined by single spaces, where [null] prints as [null],
    [undefined] as [undefined], an object as its JSON serialization or
    as the placeholder [[Object]] when serializing throws, a boolean as
    [true] or [false], a string as itself, and a number or any other
    value as its string form.  So [console.log('5 + 3 =', 8, true)]
    appends the line [5 + 3 = 8 true], and [console.warn(false, null)]
    the line [WARN: false null]. *)
Theorem console_appends_one_formatted_line
    (m : IsolatedSandbox.method) (args : list (IsolatedSandbox.arg object))
    (logs : list jsstring) :
  (exists texts,
     IsolatedSandbox.console JSON_stringify m args logs
     = logs ++ [join (lit " ") (prefix m ++ texts)]
     /\ Forall2 (formatted JSON_stringify) args texts
     /\ length (IsolatedSandbox.console JSON_stringify m args logs)
        = S (length logs))
  /\ IsolatedSandbox.console JSON_stringify IsolatedSandbox.log
       [IsolatedSandbox.AStr (lit "5 + 3 ="); IsolatedSandbox.ANum (lit "8");
        IsolatedSandbox.ABool true] logs
     = logs ++ [lit "5 + 3 = 8 true"]
  /\ IsolatedSandbox.console JSON_stringify IsolatedSandbox.warn
       [IsolatedSandbox.ABool false; IsolatedSandbox.ANull] logs
     = logs ++ [lit "WARN: false null"].
Proof.
  split; [|split; reflexivity].
  exists (map (printed JSON_stringify) args). split; [|split].
  - destruct m; simpl; rewrite logSync_line; reflexivity.
  - induction args as [|a args IH]; simpl; constructor;
      [apply printed_formatted | exact IH].
  - destruct m; simpl; rewrite logSync_line, length_app; simpl; lia.
Qed.

(** The output of an evaluation that completes holds one line per
    console call, in the order of the calls. *)
Lemma console_fold_lines
    (calls : list (IsolatedSandbox.method * list (IsolatedSandbox.arg object)))
    (logs : list jsstring) :
  fold_left
    (fun logs call =>
       IsolatedSandbox.console JSON_stringify (fst call) (snd call) logs)
    calls logs
  = logs ++ map (fun call => join (lit " ")
                               (prefix (fst call)
                                  ++ map (printed JSON_stringify) (snd call)))
                calls.
Proof.
  revert logs. induction calls as [|[m args] calls IH]; intros logs; simpl.
  - now rewrite app_nil_r.
  - rewrite IH. destruct m; simpl; rewrite logSync_line, <- app_assoc;
      reflexivity.
Qed.

End ConsoleCapture.

(** The rule at work: [console.error('x', null, {..})] with an object
    that cannot be serialized. *)
Example console_error_line :
  IsolatedSandbox.console (fun _ : unit => IsolatedSandbox.Fails)
    IsolatedSandbox.error
    [IsolatedSandbox.AStr (lit "x"); IsolatedSandbox.ANull;
     IsolatedSandbox.AUndefined; IsolatedSandbox.AObj tt]
    [lit "first"]
  = [lit "first"; lit "ERROR: x null undefined [Object]"].
Proof. reflexivity. Qed.

(* ===================================================================== *)
(** * The memory ceiling of the isolated engine                           *)
(* ===================================================================== *)

Section MemoryCeiling.

Variable object : Type.
Variable JSON_stringify : object -> IsolatedSandbox.stringified.

Local Abbreviation execute := (IsolatedSandbox.execute JSON_stringify).

(** The first thing [execute] does on a sandbox without isolate or
    context. *)
Lemma execute_reinitializes (this : IsolatedSandbox.Sandbox) (created : nat)
    (code : jsstring) (mcpHandler : bool) (run : IsolatedSandbox.Run object) :
  IsolatedSandbox.isolate this = None ->
  IsolatedSandbox.ivm_calls (execute this created code mcpHandler run)
  = [IsolatedSandbox.NewIsolate (IsolatedSandbox.memoryLimit this) created;
     IsolatedSandbox.Bootstrap created]
    ++ (if mcpHandler then [IsolatedSandbox.SetupMCPProxy created] else [])
    ++ [IsolatedSandbox.Eval created code (IsolatedSandbox.timeout this)]
  /\ IsolatedSandbox.isolates (execute this created code mcpHandler run)
     = S created.
Proof.
  intros Hnone. unfold IsolatedSandbox.execute.
  rewrite Hnone. simpl.
  destruct (IsolatedSandbox.ending run) as [|[message|]]; simpl;
    [now split | | now split].
  destruct (includes (lit "Script execution timed out") message); simpl;
    [now split|].
  destruct (includes (lit "Isolate was disposed") message); simpl;
    now split.
Qed.

(** C3.  When the evaluation ends with the isolation layer's error for a
    disposed isolate (its message carries [Isolate was disposed] and is
    not the timeout's), [execute] returns [success = false] with the
    error [Memory limit exceeded (<limit>MB)] naming the configured
    limit, leaves [isolate] and [context] null, and the next [execute]
    first creates and bootstraps a new isolate and evaluates the code in
    its context. *)
Theorem execute_memory_limit (this : IsolatedSandbox.Sandbox) (created : nat)
    (code : jsstring) (mcpHandler : bool) (run : IsolatedSandbox.Run object)
    (message : jsstring) :
  IsolatedSandbox.ending run = IsolatedSandbox.Raised (Some message) ->
  includes (lit "Isolate was disposed") message = true ->
  includes (lit "Script execution timed out") message = false ->
  let first := execute this created code mcpHandler run in
  let this' := IsolatedSandbox.after first in
  (exists output,
      IsolatedSandbox.returned first
      = Some (IsolatedSandbox.mkResult false
                (Some (lit "Memory limit exceeded ("
                       ++ decimal (IsolatedSandbox.memoryLimit this)
                       ++ lit "MB)"))
                output))
  /\ IsolatedSandbox.isolate this' = None
  /\ IsolatedSandbox.context this' = None
  /\ forall code' mcpHandler' run',
       let next := execute this' (IsolatedSandbox.isolates first)
                           code' mcpHandler' run' in
       IsolatedSandbox.ivm_calls next
       = [IsolatedSandbox.NewIsolate (IsolatedSandbox.memoryLimit this)
            (IsolatedSandbox.isolates first);
          IsolatedSandbox.Bootstrap (IsolatedSandbox.isolates first)]
         ++ (if mcpHandler'
             then [IsolatedSandbox.SetupMCPProxy (IsolatedSandbox.isolates first)]
             else [])
         ++ [IsolatedSandbox.Eval (IsolatedSandbox.isolates first) code'
               (IsolatedSandbox.timeout this)].
Proof.
  intros Hend Hmem Htime first this'.
  assert (Hfirst :
    exists output,
      IsolatedSandbox.returned first
      = Some (IsolatedSandbox.mkResult false
                (Some (lit "Memory limit exceeded ("
                       ++ decimal (IsolatedSandbox.memoryLimit this)
                       ++ lit "MB)"))
                output)
      /\ this' = IsolatedSandbox.mkSandbox (IsolatedSandbox.memoryLimit this)
                   (IsolatedSandbox.timeout this) None None output).
  { subst this' first. unfold IsolatedSandbox.execute.
    destruct (IsolatedSandbox.is_none (IsolatedSandbox.isolate this)
              || IsolatedSandbox.is_none (IsolatedSandbox.context this));
      simpl; rewrite Hend, Htime, Hmem; simpl; eexists; split; reflexivity. }
  destruct Hfirst as [output [Hret Hthis]].
  split; [now exists output|].
  rewrite Hthis. simpl. split; [reflexivity | split; [reflexivity|]].
  intros code' mcpHandler' run'.
  apply (execute_reinitializes
           (IsolatedSandbox.mkSandbox (IsolatedSandbox.memoryLimit this)
              (IsolatedSandbox.timeout this) None None output)).
  reflexivity.
Qed.

End MemoryCeiling.

(** The theorem at the isolation layer's own message, on a sandbox with
    an 8 MB ceiling. *)
Lemma execute_memory_limit_witness :
  exists output,
    IsolatedSandbox.returned
      (IsolatedSandbox.execute (fun _ : unit => IsolatedSandbox.Fails)
         (IsolatedSandbox.constructor (Some 8%nat) None) 0%nat
         (lit "while(1) a.push(a)") false
         (IsolatedSandbox.mkRun unit []
            (IsolatedSandbox.Raised (Some IsolatedSandbox.ivm_memory_message))))
    = Some (IsolatedSandbox.mkResult false
              (Some (lit "Memory limit exceeded (8MB)")) output).
Proof.
  exact (proj1 (execute_memory_limit unit (fun _ : unit => IsolatedSandbox.Fails)
                  (IsolatedSandbox.constructor (Some 8%nat) None) 0%nat
                  (lit "while(1) a.push(a)") false
                  (IsolatedSandbox.mkRun unit []
                     (IsolatedSandbox.Raised
                        (Some IsolatedSandbox.ivm_memory_message)))
                  IsolatedSandbox.ivm_memory_message
                  eq_refl eq_refl eq_refl)).
Defined.

(* ===================================================================== *)
(** * The worker-thread engine: errors of the submitted code              *)
(* ===================================================================== *)

Lemma host_step_keeps_resolution (h : WorkerSandbox.Host)
    (ev : WorkerSandbox.event) (r : WorkerSandbox.Result) :
  WorkerSandbox.resolved h = Some r ->
  WorkerSandbox.resolved (WorkerSandbox.host_step h ev) = Some r.
Proof.
  intros Hr. destruct ev as [[m a|logs]|msg|[|code]|]; simpl;
    unfold WorkerSandbox.resolve; simpl;
    try destruct (WorkerSandbox.completed h); simpl; rewrite ?Hr; auto.
Qed.

Lemma host_fold_keeps_resolution (events : list WorkerSandbox.event)
    (h : WorkerSandbox.Host) (r : WorkerSandbox.Result) :
  WorkerSandbox.resolved h = Some r ->
  WorkerSandbox.resolved (fold_left WorkerSandbox.host_step events h) = Some r.
Proof.
  revert h. induction events as [|ev events IH]; intros h Hr; simpl.
  - exact Hr.
  - apply IH. now apply host_step_keeps_resolution.
Qed.

Lemma host_fold_mcp_calls (events : list WorkerSandbox.event)
    (h : WorkerSandbox.Host) :
  forallb WorkerSandbox.is_mcp_call events = true ->
  fold_left WorkerSandbox.host_step events h = h.
Proof.
  revert h. induction events as [|ev events IH]; intros h Hall; simpl.
  - reflexivity.
  - simpl in Hall. apply andb_true_iff in Hall as [Hev Hall].
    destruct ev as [[m a|logs]| | |]; try discriminate. simpl. now apply IH.
Qed.

Section WorkerErrors.

Variable object : Type.
Variable JSON_stringify : object -> IsolatedSandbox.stringified.

(** C10.  The submitted code throws a value with a stack or a message,
    and the worker's [complete] message reaches the host before a
    timeout, a worker error or an exit (until then only tool calls
    arrive).  Then [execute] resolves with [success = true], no error
    field, and the captured lines followed by one last line: [Error: ]
    and the stack, or the message when there is no stack. *)
Theorem worker_uncaught_error_is_output
    (console_calls : list (list (IsolatedSandbox.arg object)))
    (e : WorkerSandbox.thrown) (before later : list WorkerSandbox.event) :
  forallb WorkerSandbox.is_mcp_call before = true ->
  WorkerSandbox.nonempty (WorkerSandbox.stack e)
  || WorkerSandbox.nonempty (WorkerSandbox.message e) = true ->
  let lines :=
    fold_left (fun logs args => WorkerSandbox.console JSON_stringify args logs)
              console_calls [] in
  let reason :=
    if WorkerSandbox.nonempty (WorkerSandbox.stack e)
    then WorkerSandbox.text_of (WorkerSandbox.stack e)
    else WorkerSandbox.text_of (WorkerSandbox.message e) in
  WorkerSandbox.resolved
    (WorkerSandbox.execute
       (before
        ++ [WorkerSandbox.Message
              (WorkerSandbox.script JSON_stringify console_calls
                 (WorkerSandbox.Threw e))]
        ++ later))
  = Some (WorkerSandbox.mkResult true
            (lines ++ [lit "Error: " ++ reason]) None).
Proof.
  intros Hbefore Hreason lines reason.
  unfold WorkerSandbox.execute.
  rewrite fold_left_app, (host_fold_mcp_calls before _ Hbefore).
  simpl. apply host_fold_keeps_resolution.
  unfold WorkerSandbox.resolve. simpl. do 3 f_equal.
  unfold WorkerSandbox.error_line, reason.
  destruct (WorkerSandbox.nonempty (WorkerSandbox.stack e)); [reflexivity|].
  simpl in Hreason. now rewrite Hreason.
Qed.

End WorkerErrors.

(** The theorem on [console.log('a'); throw new Error('boom')], while a
    timer fires after the worker has completed. *)
Lemma worker_uncaught_error_is_output_witness :
  WorkerSandbox.resolved
    (WorkerSandbox.execute
       ([WorkerSandbox.Message (WorkerSandbox.McpCall (lit "t") None)]
        ++ [WorkerSandbox.Message
              (WorkerSandbox.script (fun _ : unit => IsolatedSandbox.Fails)
                 [[IsolatedSandbox.AStr (lit "a")]]
                 (WorkerSandbox.Threw
                    (WorkerSandbox.mkThrown None (Some (lit "boom"))
                       (lit "Error: boom"))))]
        ++ [WorkerSandbox.TimerFired]))
  = Some (WorkerSandbox.mkResult true [lit "a"; lit "Error: boom"] None).
Proof.
  exact (worker_uncaught_error_is_output unit
           (fun _ : unit => IsolatedSandbox.Fails)
           [[IsolatedSandbox.AStr (lit "a")]]
           (WorkerSandbox.mkThrown None (Some (lit "boom")) (lit "Error: boom"))
           [WorkerSandbox.Message (WorkerSandbox.McpCall (lit "t") None)]
           [WorkerSandbox.TimerFired] eq_refl eq_refl).
Defined.

(* ===================================================================== *)
(** * Correlation of tool-bridge calls                                    *)
(* ===================================================================== *)

Lemma host_reply_method (mcpHandler : jsstring -> value -> WorkerSandbox.handled)
    (m : jsstring) (a : value) :
  WorkerSandbox.method (WorkerSandbox.host_reply mcpHandler m a) = m.
Proof.
  unfold WorkerSandbox.host_reply. now destruct (mcpHandler m a).
Qed.

(** C1 on the worker engine.  Two calls to the same tool are pending
    together.  The reply to whichever handler invocation ends first
    carries only the tool's name, both listeners take it, and each call
    settles with it: when the second invocation ends first, the first
    call receives the second call's outcome, and the other way round. *)
Theorem worker_bridge_same_tool_takes_first_reply
    (mcpHandler : jsstring -> value -> WorkerSandbox.handled)
    (tool : jsstring) (a b : value) :
  let calls := [(tool, a); (tool, b)] in
  WorkerSandbox.settled_as 0
    (WorkerSandbox.settlements (WorkerSandbox.bridge_run mcpHandler calls [1; 0]%nat))
  = WorkerSandbox.own_outcome mcpHandler calls 1
  /\ WorkerSandbox.settled_as 1
       (WorkerSandbox.settlements (WorkerSandbox.bridge_run mcpHandler calls [0; 1]%nat))
     = WorkerSandbox.own_outcome mcpHandler calls 0.
Proof.
  intros calls.
  unfold WorkerSandbox.bridge_run, WorkerSandbox.handler_ends,
    WorkerSandbox.own_outcome, WorkerSandbox.deliver, WorkerSandbox.issue,
    WorkerSandbox.mcp_call.
  cbn [calls nth_error fold_left fst snd WorkerSandbox.listeners
       WorkerSandbox.settlements WorkerSandbox.next_call WorkerSandbox.start
       WorkerSandbox.posted app filter map WorkerSandbox.prop WorkerSandbox.call].
  rewrite !host_reply_method, !str_eqb_refl.
  cbn [negb filter map app WorkerSandbox.call WorkerSandbox.prop
       WorkerSandbox.settled_as Nat.eqb].
  split; reflexivity.
Qed.

(** The same on a handler that answers with its argument:
    [Promise.all([mcp.t(1), mcp.t(2)])], second invocation ending first. *)
Example worker_bridge_swap :
  let echo := fun (_ : jsstring) (a : value) => WorkerSandbox.Returns a in
  let calls := [(lit "t", Some (JNum (lit "1"))); (lit "t", Some (JNum (lit "2")))] in
  WorkerSandbox.settled_as 0
    (WorkerSandbox.settlements (WorkerSandbox.bridge_run echo calls [1; 0]%nat))
  = Some (WorkerSandbox.Fulfilled (Some (JNum (lit "2"))))
  /\ WorkerSandbox.own_outcome echo calls 0
     = Some (WorkerSandbox.Fulfilled (Some (JNum (lit "1")))).
Proof. split; reflexivity. Qed.

(** The isolated engine gives every call a promise of its own: whatever
    the completion order, a call settles with its own handler's outcome. *)
Lemma isolated_bridge_own_outcome
    (mcpHandler : jsstring -> value -> WorkerSandbox.handled)
    (calls : list (jsstring * value)) (order : list nat)
    (k : nat) (m : jsstring) (a : value) :
  nth_error calls k = Some (m, a) ->
  In k order ->
  WorkerSandbox.settled_as k
    (WorkerSandbox.isolated_bridge_run mcpHandler calls order)
  = Some (match mcpHandler m a with
          | WorkerSandbox.Returns v => WorkerSandbox.Fulfilled v
          | WorkerSandbox.Throws (Some msg) => WorkerSandbox.RejectedWith msg
          | WorkerSandbox.Throws None => WorkerSandbox.RejectedWith []
          end).
Proof.
  intros Hk. unfold WorkerSandbox.isolated_bridge_run.
  induction order as [|i order IH]; intros Hin; [destruct Hin|].
  simpl. destruct (Nat.eq_dec i k) as [->|Hne].
  - rewrite Hk. simpl. now rewrite Nat.eqb_refl.
  - destruct Hin as [Heq|Hin]; [congruence|].
    destruct (nth_error calls i) as [[m' a']|]; simpl.
    + destruct (Nat.eqb_spec k i) as [->|_]; [congruence | now apply IH].
    + now apply IH.
Qed.

(** ** Calls to distinct tools

    The worker bridge tells replies apart by tool name, so it does
    correlate as long as the pending calls name pairwise distinct tools. *)

Lemma issue_from (calls : list (jsstring * value)) (w : WorkerSandbox.Worker) :
  let w' :=
    fold_left (fun w c => WorkerSandbox.mcp_call w (fst c) (snd c)) calls w in
  WorkerSandbox.listeners w'
  = WorkerSandbox.listeners w
    ++ listeners_from (WorkerSandbox.next_call w) calls
  /\ WorkerSandbox.settlements w' = WorkerSandbox.settlements w.
Proof.
  revert w. induction calls as [|c calls IH]; intros w; simpl.
  - now rewrite app_nil_r.
  - destruct (IH (WorkerSandbox.mcp_call w (fst c) (snd c))) as [-> ->].
    simpl. now rewrite <- app_assoc.
Qed.

Lemma In_listeners_from (l : WorkerSandbox.listener) (n : nat)
    (calls : list (jsstring * value)) :
  In l (listeners_from n calls) <->
  exists a, (n <= WorkerSandbox.call l)%nat
            /\ nth_error calls (WorkerSandbox.call l - n)
               = Some (WorkerSandbox.prop l, a).
Proof.
  revert n. induction calls as [|[m a] calls IH]; intros n; simpl.
  - split; [intros [] | intros [a [_ H]]].
    now destruct (WorkerSandbox.call l - n)%nat.
  - rewrite IH. split.
    + intros [<-|[a' [Hle Hnth]]].
      * exists a. simpl. rewrite Nat.sub_diag. now split.
      * exists a'. split; [lia|].
        replace (WorkerSandbox.call l - n)%nat
          with (S (WorkerSandbox.call l - S n)) by lia.
        exact Hnth.
    + intros [a' [Hle Hnth]].
      destruct (Nat.eq_dec (WorkerSandbox.call l) n) as [Heq|Hne].
      * left. rewrite Heq, Nat.sub_diag in Hnth. simpl in Hnth.
        injection Hnth as -> _. destruct l; simpl in *; congruence.
      * right. exists a'. split; [lia|].
        replace (WorkerSandbox.call l - n)%nat
          with (S (WorkerSandbox.call l - S n)) in Hnth by lia.
        exact Hnth.
Qed.

Lemma NoDup_nth_error_fst (calls : list (jsstring * value)) (i k : nat)
    (m : jsstring) (a b : value) :
  NoDup (map fst calls) ->
  nth_error calls i = Some (m, a) ->
  nth_error calls k = Some (m, b) ->
  i = k.
Proof.
  intros Hnd Hi Hk.
  apply (proj1 (NoDup_nth_error (map fst calls)) Hnd).
  - apply nth_error_Some. rewrite nth_error_map, Hi. discriminate.
  - now rewrite !nth_error_map, Hi, Hk.
Qed.

Lemma settled_as_unique (k : nat) (s0 : WorkerSandbox.settlement)
    (l : list (nat * WorkerSandbox.settlement)) :
  (exists s, In (k, s) l) ->
  (forall s, In (k, s) l -> s = s0) ->
  WorkerSandbox.settled_as k l = Some s0.
Proof.
  induction l as [|[k' s'] l IH]; simpl; intros [s Hin] Hall; [destruct Hin|].
  destruct (Nat.eqb_spec k k') as [<-|Hne].
  - f_equal. apply Hall. now left.
  - apply IH.
    + destruct Hin as [H|H]; [congruence | now exists s].
    + intros s1 H1. apply Hall. now right.
Qed.

Section DistinctTools.

Variable mcpHandler : jsstring -> value -> WorkerSandbox.handled.
Variable calls : list (jsstring * value).
Hypothesis distinct : NoDup (map fst calls).

Local Abbreviation invariant := (bridge_invariant mcpHandler calls).
Local Abbreviation handler_ends := (WorkerSandbox.handler_ends mcpHandler calls).

Lemma invariant_issue : invariant [] (WorkerSandbox.issue calls).
Proof.
  unfold WorkerSandbox.issue.
  destruct (issue_from calls WorkerSandbox.start) as [Hl Hs].
  simpl in Hl, Hs. split.
  - intros k s. rewrite Hs. intros [].
  - intros l. rewrite Hl. intros Hin.
    apply In_listeners_from in Hin as [a [_ Hnth]].
    rewrite Nat.sub_0_r in Hnth. now exists a.
  - intros k m a Hnth _. rewrite Hl. apply In_listeners_from.
    exists a. simpl. rewrite Nat.sub_0_r. split; [lia | exact Hnth].
  - intros k [].
Qed.

Lemma invariant_step (done : list nat) (w : WorkerSandbox.Worker) (i : nat) :
  invariant done w -> invariant (done ++ [i]) (handler_ends w i).
Proof.
  intros [Hown Hknown Hpending Hsettled].
  unfold WorkerSandbox.handler_ends.
  destruct (nth_error calls i) as [[m a]|] eqn:Hi.
  - assert (Hhit : forall l,
               In l (WorkerSandbox.listeners w) ->
               str_eqb (WorkerSandbox.method
                          (WorkerSandbox.host_reply mcpHandler m a))
                       (WorkerSandbox.prop l) = true ->
               WorkerSandbox.call l = i /\ WorkerSandbox.prop l = m).
    { intros l Hl Heq. rewrite host_reply_method in Heq.
      apply str_eqb_eq in Heq. destruct (Hknown l Hl) as [b Hb].
      rewrite <- Heq in Hb. split; [|now symmetry].
      exact (NoDup_nth_error_fst calls _ _ m b a distinct Hb Hi). }
    split; unfold WorkerSandbox.deliver; simpl.
    + intros k s Hin. apply in_app_iff in Hin as [Hin|Hin]; [now apply Hown|].
      apply in_map_iff in Hin as [l [Heq Hl]]. injection Heq as <- <-.
      apply filter_In in Hl as [Hl Hm].
      destruct (Hhit l Hl Hm) as [-> _].
      unfold WorkerSandbox.own_outcome. now rewrite Hi.
    + intros l Hl. apply filter_In in Hl as [Hl _]. now apply Hknown.
    + intros k m' a' Hk Hnot. apply filter_In. split.
      * apply (Hpending k m' a' Hk). intros Hd.
        apply Hnot, in_app_iff. now left.
      * apply negb_true_iff. simpl.
        destruct (str_eqb (WorkerSandbox.method
                             (WorkerSandbox.host_reply mcpHandler m a)) m')
          eqn:Heq; [|reflexivity].
        exfalso. apply Hnot, in_app_iff. right. left.
        rewrite host_reply_method in Heq. apply str_eqb_eq in Heq. subst m'.
        exact (NoDup_nth_error_fst calls _ _ m a a' distinct Hi Hk).
    + intros k Hin Hlt. apply in_app_iff in Hin as [Hin|[<-|[]]].
      * destruct (Hsettled k Hin Hlt) as [s Hs]. exists s.
        apply in_app_iff. now left.
      * destruct (in_dec Nat.eq_dec i done) as [Hd|Hd].
        -- destruct (Hsettled i Hd Hlt) as [s Hs]. exists s.
           apply in_app_iff. now left.
        -- exists (WorkerSandbox.settle
                     (WorkerSandbox.host_reply mcpHandler m a)).
           apply in_app_iff. right.
           apply in_map_iff. exists (WorkerSandbox.mkListener i m).
           split; [reflexivity|].
           apply filter_In. split; [exact (Hpending i m a Hi Hd)|].
           simpl. rewrite host_reply_method. apply str_eqb_refl.
  - split.
    + exact Hown.
    + exact Hknown.
    + intros k m a Hk Hnot. apply (Hpending k m a Hk).
      intros Hd. apply Hnot, in_app_iff. now left.
    + intros k Hin Hlt. apply in_app_iff in Hin as [Hin|[<-|[]]].
      * now apply Hsettled.
      * apply nth_error_None in Hi. lia.
Qed.

Lemma invariant_run (order done : list nat) (w : WorkerSandbox.Worker) :
  invariant done w -> invariant (done ++ order) (fold_left handler_ends order w).
Proof.
  revert done w. induction order as [|i order IH]; intros done w Hinv; simpl.
  - now rewrite app_nil_r.
  - replace (done ++ i :: order) with ((done ++ [i]) ++ order)
      by now rewrite <- app_assoc.
    apply IH. now apply invariant_step.
Qed.

(** When the pending calls name pairwise distinct tools, the reply to a
    handler invocation reaches the listener of its own call and no
    other. *)
Lemma worker_bridge_routes_distinct_tools (order : list nat) (k : nat) :
  In k order -> (k < length calls)%nat ->
  WorkerSandbox.settled_as k
    (WorkerSandbox.settlements
       (WorkerSandbox.bridge_run mcpHandler calls order))
  = WorkerSandbox.own_outcome mcpHandler calls k.
Proof.
  intros Hin Hlt.
  destruct (invariant_run order [] (WorkerSandbox.issue calls) invariant_issue)
    as [Hown _ _ Hsettled].
  destruct (WorkerSandbox.own_outcome mcpHandler calls k) as [s0|] eqn:Hk.
  - apply settled_as_unique.
    + now apply Hsettled.
    + intros s Hs. apply Hown in Hs. congruence.
  - unfold WorkerSandbox.own_outcome in Hk. apply nth_error_Some in Hlt.
    destruct (nth_error calls k) as [[m a]|]; [discriminate | congruence].
Qed.

(** X1.  When the pending calls of the worker bridge name pairwise
    distinct tools, every call whose handler invocation has ended is
    settled by that invocation, in whatever order the invocations end:
    fulfilled with the value the handler returned, rejected with the
    message of the error it threw when that message is a non-empty text,
    and fulfilled with [undefined] when the handler threw something whose
    message is empty or missing (the worker tests [msg.error] for
    truth). *)
Theorem worker_bridge_distinct_tools (order : list nat) (k : nat)
    (tool : jsstring) (input : value) :
  In k order -> nth_error calls k = Some (tool, input) ->
  WorkerSandbox.settled_as k
    (WorkerSandbox.settlements
       (WorkerSandbox.bridge_run mcpHandler calls order))
  = Some match mcpHandler tool input with
         | WorkerSandbox.Returns v => WorkerSandbox.Fulfilled v
         | WorkerSandbox.Throws (Some ((_ :: _) as message)) =>
             WorkerSandbox.RejectedWith message
         | WorkerSandbox.Throws (Some []) | WorkerSandbox.Throws None =>
             WorkerSandbox.Fulfilled None
         end.
Proof.
  intros Hin Hnth.
  rewrite (worker_bridge_routes_distinct_tools order k Hin)
    by (apply nth_error_Some; congruence).
  unfold WorkerSandbox.own_outcome. rewrite Hnth. f_equal.
  unfold WorkerSandbox.settle, WorkerSandbox.host_reply.
  now destruct (mcpHandler tool input) as [v|[[|c message]|]].
Qed.

End DistinctTools.

(** Three calls to different tools, the invocations ending in reverse
    order: the first handler returns its argument, the second throws an
    error with a message, the third an error with the empty message. *)
Example worker_bridge_two_tools :
  let handler := fun (tool : jsstring) (a : value) =>
    if str_eqb tool (lit "t") then WorkerSandbox.Returns a
    else if str_eqb tool (lit "u") then WorkerSandbox.Throws (Some (lit "no"))
    else WorkerSandbox.Throws (Some []) in
  let calls := [(lit "t", Some (JNum (lit "1"))); (lit "u", None);
                (lit "v", None)] in
  let settlements :=
    WorkerSandbox.settlements
      (WorkerSandbox.bridge_run handler calls [2; 1; 0]%nat) in
  WorkerSandbox.settled_as 0 settlements
  = Some (WorkerSandbox.Fulfilled (Some (JNum (lit "1"))))
  /\ WorkerSandbox.settled_as 1 settlements
     = Some (WorkerSandbox.RejectedWith (lit "no"))
  /\ WorkerSandbox.settled_as 2 settlements
     = Some (WorkerSandbox.Fulfilled None).
Proof.
  intros handler calls settlements.
  assert (distinct : NoDup (map fst calls))
    by (repeat constructor; simpl; intuition discriminate).
  split; [|split].
  - exact (worker_bridge_distinct_tools handler calls distinct [2; 1; 0]%nat
             0%nat (lit "t") (Some (JNum (lit "1")))
             (or_intror (or_intror (or_introl eq_refl))) eq_refl).
  - exact (worker_bridge_distinct_tools handler calls distinct [2; 1; 0]%nat
             1%nat (lit "u") None (or_intror (or_introl eq_refl)) eq_refl).
  - exact (worker_bridge_distinct_tools handler calls distinct [2; 1; 0]%nat
             2%nat (lit "v") None (or_introl eq_refl) eq_refl).
Defined.

(* ===================================================================== *)
(** * The usage check and the validation gate                             *)
(* ===================================================================== *)

Lemma mem_In (x : jsstring) (l : list jsstring) : mem x l = true <-> In x l.
Proof.
  unfold mem. rewrite existsb_exists. split.
  - intros [y [Hy Heq]]. apply str_eqb_eq in Heq. now subst.
  - intros H. exists x. split; [exact H | apply str_eqb_refl].
Qed.

Lemma mem_not_In (x : jsstring) (l : list jsstring) :
  mem x l = false <-> ~ In x l.
Proof.
  rewrite <- mem_In. destruct (mem x l); split; congruence.
Qed.

Lemma word_run_app (w rest : jsstring) (c : code_unit) :
  Forall (fun c => is_word c = true) w ->
  is_word c = false ->
  Validator.word_run (w ++ c :: rest) = (w, c :: rest).
Proof.
  intros Hw Hc. induction Hw as [|x w Hx _ IH]; simpl.
  - now rewrite Hc.
  - now rewrite Hx, IH.
Qed.

Lemma word_run_split (s w rest : jsstring) :
  Validator.word_run s = (w, rest) ->
  s = w ++ rest /\ Forall (fun c => is_word c = true) w.
Proof.
  revert w rest. induction s as [|c s IH]; intros w rest; simpl.
  - intros H. injection H as <- <-. now split.
  - destruct (is_word c) eqn:Hc.
    + destruct (Validator.word_run s) as [w' rest'].
      intros H. injection H as <- <-.
      destruct (IH w' rest' eq_refl) as [-> Hw]. split; [reflexivity|].
      now constructor.
    + intros H. injection H as <- <-. now split.
Qed.

Lemma match_here_Some (s w : jsstring) (len : nat) :
  Validator.match_here s = Some (w, len) <->
  identifier w /\ len = (5 + length w)%nat
  /\ exists rest, s = lit "mcp." ++ w ++ lit "(" ++ rest.
Proof.
  unfold Validator.match_here. split.
  - destruct (starts_with (lit "mcp.") s) eqn:Hstart; [|discriminate].
    apply starts_with_spec in Hstart as [t ->].
    change (skipn 4 (lit "mcp." ++ t)) with t.
    destruct (Validator.word_run t) as [w' rest] eqn:Hrun.
    apply word_run_split in Hrun as [-> Hw].
    destruct w' as [|x w']; [discriminate|].
    destruct rest as [|c rest]; [discriminate|].
    destruct (N.eqb_spec c 40) as [->|]; [|discriminate].
    intros H. injection H as <- <-. split; [split; [discriminate | exact Hw]|].
    split; [simpl; lia|]. now exists rest.
  - intros [[Hne Hw] [-> [rest ->]]].
    change (starts_with (lit "mcp.") (lit "mcp." ++ w ++ lit "(" ++ rest))
      with (starts_with [] (w ++ lit "(" ++ rest)).
    change (skipn 4 (lit "mcp." ++ w ++ lit "(" ++ rest))
      with (w ++ 40 :: rest).
    simpl starts_with. cbv iota.
    set (run := Validator.word_run _).
    assert (Hrun : run = (w, 40 :: rest)) by now apply word_run_app.
    rewrite Hrun.
    destruct w as [|x w]; [congruence|]. simpl. do 2 f_equal. lia.
Qed.

(** No match starts inside an identifier or at the parenthesis behind it:
    the fourth code unit from there on would have to be the dot. *)
Lemma no_match_in_identifier (w rest : jsstring) :
  Forall (fun c => is_word c = true) w ->
  starts_with (lit "mcp.") (w ++ 40 :: rest) = false.
Proof.
  intros Hw.
  destruct w as [|a [|b [|c [|d w]]]]; cbn -[N.eqb];
    repeat match goal with
           | |- context [N.eqb ?x ?y] =>
               destruct (N.eqb_spec x y); cbn -[N.eqb]
           end;
    try reflexivity; try discriminate.
  exfalso. subst. rewrite Forall_forall in Hw.
  assert (H46 : is_word 46 = true) by (apply Hw; simpl; auto).
  discriminate H46.
Qed.

Lemma match_here_no_start (s : jsstring) :
  starts_with (lit "mcp.") s = false -> Validator.match_here s = None.
Proof. unfold Validator.match_here. now intros ->. Qed.

Lemma no_match_inside_match (w rest : jsstring) (j : nat) :
  Forall (fun c => is_word c = true) w ->
  (1 <= j < 5 + length w)%nat ->
  Validator.match_here (skipn j (lit "mcp." ++ w ++ lit "(" ++ rest)) = None.
Proof.
  intros Hw Hj. apply match_here_no_start.
  destruct j as [|[|[|[|j]]]]; [lia | reflexivity | reflexivity | reflexivity |].
  change (skipn (S (S (S (S j)))) (lit "mcp." ++ w ++ lit "(" ++ rest))
    with (skipn j (w ++ 40 :: rest)).
  assert (Hlen : (j <= length w)%nat) by lia.
  rewrite <- (firstn_skipn j w) at 1. rewrite <- app_assoc.
  rewrite skipn_app, length_firstn, Nat.min_l by exact Hlen.
  rewrite Nat.sub_diag, skipn_all2 by (rewrite length_firstn; lia).
  simpl. apply no_match_in_identifier.
  rewrite <- (firstn_skipn j w) in Hw. now apply Forall_app in Hw.
Qed.

Lemma scan_skip (k : nat) (s : jsstring) :
  Validator.scan k s = Validator.scan 0 (skipn k s).
Proof.
  revert k. induction s as [|c s IH]; intros [|k]; try reflexivity.
  simpl. apply IH.
Qed.

Lemma all_matches_skip (k : nat) (s : jsstring) :
  (forall j, (j < k)%nat -> Validator.match_here (skipn j s) = None) ->
  all_matches s = all_matches (skipn k s).
Proof.
  revert s. induction k as [|k IH]; intros s Hnone; [reflexivity|].
  destruct s as [|c s]; [reflexivity|].
  assert (H0 : Validator.match_here (c :: s) = None)
    by (apply (Hnone 0%nat); lia).
  simpl all_matches at 1. rewrite H0.
  simpl skipn. apply IH. intros j Hj. apply (Hnone (S j)). lia.
Qed.

Lemma scan_all_matches (s : jsstring) :
  Validator.scan 0 s = all_matches s.
Proof.
  remember (length s) as n eqn:Hn.
  assert (Hle : (length s <= n)%nat) by lia. clear Hn.
  revert s Hle. induction n as [|n IH]; intros [|c s] Hle;
    try reflexivity; [simpl in Hle; lia|].
  simpl in Hle. simpl Validator.scan. simpl all_matches.
  destruct (Validator.match_here (c :: s)) as [[w len]|] eqn:Hm.
  - f_equal. rewrite scan_skip, IH
      by (rewrite length_skipn; lia).
    symmetry. apply all_matches_skip. intros j Hj.
    apply match_here_Some in Hm as [[_ Hw] [-> [rest Hs]]].
    change (skipn j s) with (skipn (S j) (c :: s)). rewrite Hs.
    apply no_match_inside_match; [exact Hw | lia].
  - apply IH. lia.
Qed.

Lemma In_all_matches (w s : jsstring) :
  In w (all_matches s) <->
  exists before rest len,
    s = before ++ rest /\ Validator.match_here rest = Some (w, len).
Proof.
  induction s as [|c s IH].
  - simpl. split; [intros [] |].
    intros [before [rest [len [Hs Hm]]]].
    symmetry in Hs. apply app_eq_nil in Hs as [_ ->]. discriminate Hm.
  - simpl all_matches. split.
    + intros Hin.
      destruct (Validator.match_here (c :: s)) as [[w' len]|] eqn:Hm.
      * destruct Hin as [->|Hin].
        -- now exists [], (c :: s), len.
        -- apply IH in Hin as [before [rest [len' [-> Hm']]]].
           now exists (c :: before), rest, len'.
      * apply IH in Hin as [before [rest [len' [-> Hm']]]].
        now exists (c :: before), rest, len'.
    + intros [[|d before] [rest [len [Hs Hm]]]].
      * simpl in Hs. subst rest. rewrite Hm. now left.
      * injection Hs as -> ->.
        assert (Hin : In w (all_matches (before ++ rest)))
          by (apply IH; now exists before, rest, len).
        destruct (Validator.match_here (d :: before ++ rest)) as [[w' len']|];
          [now right | exact Hin].
Qed.

Lemma In_scan (w code : jsstring) :
  In w (Validator.scan 0 code) <-> called_in w code.
Proof.
  rewrite scan_all_matches, In_all_matches. unfold called_in. split.
  - intros [before [rest [len [-> Hm]]]].
    apply match_here_Some in Hm as [Hid [_ [rest' ->]]].
    split; [exact Hid | now exists before, rest'].
  - intros [Hid [before [rest ->]]].
    exists before, (lit "mcp." ++ w ++ lit "(" ++ rest), (5 + length w)%nat.
    split; [reflexivity|]. apply match_here_Some.
    split; [exact Hid | split; [reflexivity | now exists rest]].
Qed.

Lemma In_set_add (w x : jsstring) (set : list jsstring) :
  In w (Validator.set_add set x) <-> In w set \/ w = x.
Proof.
  unfold Validator.set_add. destruct (mem x set) eqn:Hmem.
  - apply mem_In in Hmem. split; [now left | intros [H| ->]; assumption].
  - rewrite in_app_iff. simpl. split.
    + intros [H|[<-|[]]]; auto.
    + intros [H| ->]; auto.
Qed.

Lemma In_fold_set_add (w : jsstring) (l acc : list jsstring) :
  In w (fold_left Validator.set_add l acc) <-> In w acc \/ In w l.
Proof.
  revert acc. induction l as [|x l IH]; intros acc; simpl.
  - split; [now left | now intros [H|[]]].
  - rewrite IH, In_set_add. split.
    + intros [[H| ->]|H]; auto.
    + intros [H|[<-|H]]; auto.
Qed.

Lemma In_usedTools (w code : jsstring) :
  In w (Validator.usedTools code) <-> called_in w code.
Proof.
  unfold Validator.usedTools. rewrite In_fold_set_add, In_scan.
  split; [now intros [[]|H] | now right].
Qed.

Lemma In_invalidTools (w code : jsstring) (availableTools : list jsstring) :
  In w (Validator.invalidTools code availableTools) <->
  called_in w code /\ ~ In w availableTools.
Proof.
  unfold Validator.invalidTools.
  rewrite filter_In, In_usedTools, negb_true_iff, mem_not_In. reflexivity.
Qed.

(** A piece of a joined text stands in the text. *)
Lemma includes_join (sep x : jsstring) (parts : list jsstring) :
  In x parts -> includes x (join sep parts) = true.
Proof.
  intros Hin. apply includes_spec.
  induction parts as [|p parts IH]; [destruct Hin|].
  destruct parts as [|q parts].
  - destruct Hin as [->|[]]. exists [], []. simpl. now rewrite app_nil_r.
  - destruct Hin as [->|Hin].
    + exists [], (sep ++ join sep (q :: parts)). reflexivity.
    + destruct (IH Hin) as [before [rest Heq]].
      exists (p ++ sep ++ before), rest.
      change (join sep (p :: q :: parts)) with (p ++ sep ++ join sep (q :: parts)).
      rewrite Heq, <- !app_assoc. reflexivity.
Qed.

Lemma includes_app_r (x pre s : jsstring) :
  includes x s = true -> includes x (pre ++ s) = true.
Proof.
  rewrite !includes_spec. intros [before [rest ->]].
  exists (pre ++ before), rest. now rewrite <- app_assoc.
Qed.

Lemma validateMCPUsage_fails (code : jsstring) (availableTools : list jsstring) :
  Validator.usage_success (Validator.validateMCPUsage code availableTools) = false
  <-> Validator.invalidTools code availableTools <> [].
Proof.
  unfold Validator.validateMCPUsage.
  destruct (Validator.invalidTools code availableTools); simpl; split;
    congruence.
Qed.

Lemma validateMCPUsage_error (code : jsstring) (availableTools : list jsstring) :
  Validator.usage_success (Validator.validateMCPUsage code availableTools) = false ->
  Validator.usage_error (Validator.validateMCPUsage code availableTools)
  = Some (lit "Code uses undefined MCP tools: "
          ++ join (lit ", ") (Validator.invalidTools code availableTools)).
Proof.
  unfold Validator.validateMCPUsage.
  destruct (Validator.invalidTools code availableTools); simpl;
    [discriminate | reflexivity].
Qed.

Section ValidationGate.

Variable diagnostic : Type.
Variable transpileModule :
  jsstring -> jsstring * list diagnostic * option jsstring.
Variable formatErrorMessages : list diagnostic -> jsstring -> jsstring.
Variable sandbox_execute : jsstring -> CodeMode.settled CodeMode.ExecuteResult.
Variable formatMappedError :
  ErrorMapper.js_error -> jsstring -> jsstring -> jsstring.

Local Abbreviation validate :=
  (Validator.validate transpileModule formatErrorMessages).
Local Abbreviation executeCode :=
  (CodeMode.executeCode transpileModule formatErrorMessages sandbox_execute
     formatMappedError).

(** The usage check against the list it is given.  It collects exactly
    the identifiers [w] for which [mcp.<w>(] stands in the compiled code;
    it fails if and only if one of them is not in the list [executeCode]
    passes, the advertised names, and its error then lists
    exactly the offending identifiers, each readable in the message; and
    on a connected instance with validation enabled, a submission whose
    type validation or usage check fails returns [success = false]
    without any call of the sandbox's [execute]. *)
Theorem validation_gate :
  (forall code w, In w (Validator.usedTools code) <-> called_in w code)
  /\ (forall code availableTools,
        let check := Validator.validateMCPUsage code availableTools in
        (Validator.usage_success check = false
         <-> exists w, called_in w code /\ ~ In w availableTools)
        /\ (Validator.usage_success check = false ->
            exists offending message,
              Validator.usage_error check = Some message
              /\ message = lit "Code uses undefined MCP tools: "
                           ++ join (lit ", ") offending
              /\ (forall w, In w offending
                            <-> called_in w code /\ ~ In w availableTools)
              /\ (forall w, In w offending -> includes w message = true)))
  /\ (forall this code options,
        CodeMode.connected this = true ->
        CodeMode.validateTypes this = true ->
        CodeMode.skipValidation options = false ->
        validation_fails transpileModule formatErrorMessages this code ->
        (exists r, CodeMode.outcome (executeCode this code options)
                   = CodeMode.Resolved r
                   /\ CodeMode.success r = false)
        /\ CodeMode.sandbox_calls (executeCode this code options) = []).
Proof.
  split; [intros code w; apply In_usedTools | split].
  - intros code availableTools check. split.
    + unfold check. rewrite validateMCPUsage_fails. split.
      * destruct (Validator.invalidTools code availableTools) as [|w l] eqn:Hl;
          [congruence|]. intros _. exists w.
        apply In_invalidTools. rewrite Hl. now left.
      * intros [w Hw] Hnil. apply In_invalidTools in Hw.
        rewrite Hnil in Hw. destruct Hw.
    + intros Hfail.
      exists (Validator.invalidTools code availableTools).
      eexists. split; [now apply validateMCPUsage_error|].
      split; [reflexivity|]. split; [intros w; apply In_invalidTools|].
      intros w Hw. apply includes_app_r. now apply includes_join.
  - intros this code options Hconn Hval Hskip Hfails.
    unfold CodeMode.executeCode, validation_fails in *.
    rewrite Hconn, Hval, Hskip. simpl.
    destruct (Validator.validate transpileModule formatErrorMessages code
                (CodeMode.typeDefinitions this)) as [compiled map|errors].
    + rewrite Hfails. simpl. split; [|reflexivity].
      eexists. split; reflexivity.
    + simpl. split; [|reflexivity]. eexists. split; reflexivity.
Qed.

(** The gate opens otherwise: a submission that passes both checks
    reaches the sandbox once, with the compiled code. *)
Lemma validated_code_reaches_sandbox (this : CodeMode.MCPCodeMode)
    (code compiled : jsstring) (map : option jsstring)
    (options : CodeMode.Options) :
  CodeMode.connected this = true ->
  CodeMode.validateTypes this = true ->
  CodeMode.skipValidation options = false ->
  validate code (CodeMode.typeDefinitions this) = Validator.Passed compiled map ->
  Validator.usage_success
    (Validator.validateMCPUsage compiled (CodeMode.availableTools this)) = true ->
  CodeMode.sandbox_calls (executeCode this code options) = [compiled].
Proof.
  intros Hconn Hval Hskip Hpass Husage.
  unfold CodeMode.executeCode in *.
  rewrite Hconn, Hval, Hskip, Hpass, Husage. simpl.
  unfold CodeMode.run_sandbox. now destruct (sandbox_execute compiled).
Qed.

End ValidationGate.

(** The usage check on a submission that calls a tool that does not
    exist: the known tool is passed, the unknown one is named. *)
Example validateMCPUsage_unknown_tool :
  Validator.validateMCPUsage
    (lit "const a = await mcp.search({q: 1}); await mcp.delete_all(a);")
    [lit "search"; lit "play"]
  = Validator.mkUsage false
      (Some (lit "Code uses undefined MCP tools: delete_all")).
Proof. reflexivity. Qed.

(** [connect] lists the tools by their advertised names, not by their
    identifiers in the interface: for the tool [search-music] the
    interface declares [search_music], and the usage check reports a call
    of it. *)
Example connect_lists_advertised_names :
  let this :=
    CodeMode.connect (CodeMode.mkCodeMode false true [] [])
      [SchemaToTypes.mkTool (lit "search-music") None None] [] in
  CodeMode.availableTools this = [lit "search-music"]
  /\ Validator.validateMCPUsage (lit "await mcp.search_music({});")
       (CodeMode.availableTools this)
     = Validator.mkUsage false
         (Some (lit "Code uses undefined MCP tools: search_music")).
Proof. split; reflexivity. Qed.

(* ===================================================================== *)
(** * Schema translation                                                  *)
(* ===================================================================== *)

Lemma lookup_In (key : jsstring) (fields : list (jsstring * json)) (v : json) :
  lookup key fields = Some v -> In (key, v) fields.
Proof.
  induction fields as [|[k x] fields IH]; simpl; [discriminate|].
  destruct (str_eqb key k) eqn:Hk.
  - intros H. injection H as ->. apply str_eqb_eq in Hk. subst. now left.
  - intros H. right. now apply IH.
Qed.

Lemma depth_field (key : jsstring) (v : json) (fields : list (jsstring * json)) :
  In (key, v) fields -> (depth v < depth (JObj fields))%nat.
Proof.
  simpl. induction fields as [|[k x] fields IH]; simpl; [intros []|].
  intros [H|H]; [injection H as -> ->; lia | specialize (IH H); lia].
Qed.

Lemma depth_elem (x : json) (l : list json) :
  In x l -> (depth x < depth (JArr l))%nat.
Proof.
  simpl. induction l as [|y l IH]; simpl; [intros []|].
  intros [->|H]; [lia | specialize (IH H); lia].
Qed.

Lemma depth_lookup (key : jsstring) (fields : list (jsstring * json)) (v : json) :
  lookup key fields = Some v -> (depth v < depth (JObj fields))%nat.
Proof. intros H. eapply depth_field, lookup_In, H. Qed.

Lemma well_formed_keyword (key : jsstring) (fields : list (jsstring * json))
    (v : json) :
  well_formed (JObj fields) = true ->
  lookup key fields = Some v ->
  keyword_ok well_formed key v = true.
Proof.
  intros Hwf Hl. simpl in Hwf. rewrite forallb_forall in Hwf.
  exact (Hwf (key, v) (lookup_In _ _ _ Hl)).
Qed.

Lemma mapM_ok {A B} (f : A -> result B) (l : list A) :
  (forall x, In x l -> exists y, f x = Ok y) ->
  exists ys, mapM f l = Ok ys /\ length ys = length l.
Proof.
  induction l as [|x l IH]; intros Hall; simpl.
  - now exists [].
  - destruct (Hall x (or_introl eq_refl)) as [y ->].
    destruct IH as [ys [-> Hlen]]; [intros z Hz; apply Hall; now right|].
    exists (y :: ys). simpl. now rewrite Hlen.
Qed.

Lemma mapM_ext {A B} (f g : A -> result B) (l : list A) :
  (forall x, In x l -> f x = g x) -> mapM f l = mapM g l.
Proof.
  induction l as [|x l IH]; intros Heq; simpl; [reflexivity|].
  rewrite (Heq x (or_introl eq_refl)), IH; [reflexivity|].
  intros z Hz. apply Heq. now right.
Qed.

Lemma keyword_ok_anyOf (wf : json -> bool) (v : json) :
  keyword_ok wf (lit "anyOf") v
  = negb (truthy (Some v))
    || match v with JArr branches => forallb wf branches | _ => false end.
Proof. reflexivity. Qed.

Lemma keyword_ok_oneOf (wf : json -> bool) (v : json) :
  keyword_ok wf (lit "oneOf") v
  = negb (truthy (Some v))
    || match v with JArr branches => forallb wf branches | _ => false end.
Proof. reflexivity. Qed.

Lemma keyword_ok_allOf (wf : json -> bool) (v : json) :
  keyword_ok wf (lit "allOf") v
  = negb (truthy (Some v))
    || match v with JArr branches => forallb wf branches | _ => false end.
Proof. reflexivity. Qed.

Lemma keyword_ok_enum (wf : json -> bool) (v : json) :
  keyword_ok wf (lit "enum") v
  = negb (truthy (Some v))
    || match v with JArr values => forallb printable values | _ => false end.
Proof. reflexivity. Qed.

Lemma keyword_ok_items (wf : json -> bool) (v : json) :
  keyword_ok wf (lit "items") v = wf v.
Proof. reflexivity. Qed.

Lemma keyword_ok_additionalProperties (wf : json -> bool) (v : json) :
  keyword_ok wf (lit "additionalProperties") v = wf v.
Proof. reflexivity. Qed.

Lemma keyword_ok_properties (wf : json -> bool) (v : json) :
  keyword_ok wf (lit "properties") v
  = negb (truthy (Some v))
    || match v with
       | JObj props =>
           forallb (fun p => negb (is_null (snd p)) && wf (snd p)) props
       | _ => false
       end.
Proof. reflexivity. Qed.

Lemma keyword_ok_description (wf : json -> bool) (v : json) :
  keyword_ok wf (lit "description") v
  = negb (truthy (Some v)) || match v with JStr _ => true | _ => false end.
Proof. reflexivity. Qed.

Lemma keyword_ok_required (wf : json -> bool) (v : json) :
  keyword_ok wf (lit "required") v
  = match v with JNull | JArr _ | JStr _ => true | _ => false end.
Proof. reflexivity. Qed.

(** What a well-formed object holds under a keyword that is set. *)
Lemma well_formed_branches (key : jsstring) (fields : list (jsstring * json))
    (v : json) :
  key = lit "anyOf" \/ key = lit "oneOf" \/ key = lit "allOf" ->
  well_formed (JObj fields) = true ->
  lookup key fields = Some v ->
  truthy (Some v) = true ->
  exists branches, v = JArr branches /\ forallb well_formed branches = true.
Proof.
  intros Hkey Hwf Hl Ht.
  pose proof (well_formed_keyword _ _ _ Hwf Hl) as Hk.
  assert (Hk' : negb (truthy (Some v))
                || match v with
                   | JArr branches => forallb well_formed branches
                   | _ => false
                   end = true).
  { destruct Hkey as [->|[->| ->]];
      [rewrite keyword_ok_anyOf in Hk | rewrite keyword_ok_oneOf in Hk
       | rewrite keyword_ok_allOf in Hk]; exact Hk. }
  rewrite Ht in Hk'. simpl in Hk'.
  destruct v; try discriminate. now eexists.
Qed.

Lemma well_formed_sub (key : jsstring) (fields : list (jsstring * json))
    (v : json) :
  key = lit "items" \/ key = lit "additionalProperties" ->
  well_formed (JObj fields) = true ->
  lookup key fields = Some v ->
  well_formed v = true.
Proof.
  intros Hkey Hwf Hl.
  pose proof (well_formed_keyword _ _ _ Hwf Hl) as Hk.
  destruct Hkey as [->| ->];
    [rewrite keyword_ok_items in Hk
    | rewrite keyword_ok_additionalProperties in Hk]; exact Hk.
Qed.

Lemma doc_comment_ok (spaces : jsstring) (description : value) :
  match description with
  | Some v => negb (truthy (Some v))
              || match v with JStr _ => true | _ => false end = true
  | None => True
  end ->
  exists text, SchemaToTypes.doc_comment spaces description = Ok text.
Proof.
  unfold SchemaToTypes.doc_comment.
  destruct description as [[| [|] | t | [|c s] | l | fs]|]; simpl;
    intros H; try discriminate H; try (now eexists).
  destruct (str_eqb t (lit "0")); simpl in *;
    [now eexists | discriminate H].
Qed.

Lemma is_required_ok (required : value) (key : jsstring) :
  match required with
  | Some v => match v with JNull | JArr _ | JStr _ => true | _ => false end = true
  | None => True
  end ->
  exists b, SchemaToTypes.is_required required key = Ok b.
Proof.
  destruct required as [[]|]; simpl; intros H; try discriminate H; now eexists.
Qed.

(** ** The recursion of the translator

    The recursive calls of the body go to values below the schema, so the
    body cannot tell two functions apart that agree there. *)

Lemma depth_index0 (v : json) (first : value) :
  index0 (Some v) = Ok first -> (depth_of first <= depth v)%nat.
Proof.
  destruct v as [| | |s|l|fs]; simpl; intros H; try discriminate H;
    injection H as <-; simpl; try lia.
  - destruct s; simpl; lia.
  - destruct l as [|x l]; simpl; lia.
  - destruct (lookup (lit "0") fs) as [x|] eqn:Hl; simpl; [|lia].
    pose proof (depth_lookup _ _ _ Hl). simpl in *. lia.
Qed.

Lemma depth_entries (v : json) (key : jsstring) (p : json) :
  In (key, p) (entries (Some v)) -> (depth p < S (depth v))%nat.
Proof.
  destruct v as [| | |s|l|fs]; simpl entries; try (intros []).
  - intros H. apply in_combine_r in H. apply in_map_iff in H as [c [<- _]].
    simpl. lia.
  - intros H. apply in_combine_r in H. pose proof (depth_elem _ _ H). lia.
  - intros H. pose proof (depth_field _ _ _ H). lia.
Qed.

Lemma body_ext (r1 r2 : value -> nat -> result jsstring)
    (schema : value) (indent : nat) :
  (forall s i, (depth_of s < depth_of schema)%nat -> r1 s i = r2 s i) ->
  SchemaToTypes.jsonSchemaToTypeScript_body r1 schema indent
  = SchemaToTypes.jsonSchemaToTypeScript_body r2 schema indent.
Proof.
  intros Hrec. unfold SchemaToTypes.jsonSchemaToTypeScript_body.
  destruct schema as [[| b | t | s | l | fs]|]; try reflexivity.
  cbn [truthy negb get_prop bind].
  assert (Hsub : forall key v, lookup key fs = Some v ->
                   (depth v < depth (JObj fs))%nat)
    by (intros key v; apply depth_lookup).
  unfold depth_of in Hrec at 2.
  destruct (truthy (lookup (lit "anyOf") fs)).
  { destruct (lookup (lit "anyOf") fs) as [[| | | |l|]|] eqn:Hl; try reflexivity.
    cbn [as_array bind].
    rewrite (mapM_ext (fun s => r1 (Some s) indent) (fun s => r2 (Some s) indent));
      [reflexivity|].
    intros x Hx. apply Hrec. pose proof (depth_elem _ _ Hx).
    specialize (Hsub _ _ Hl). unfold depth_of. lia. }
  destruct (truthy (lookup (lit "oneOf") fs)).
  { destruct (lookup (lit "oneOf") fs) as [[| | | |l|]|] eqn:Hl; try reflexivity.
    cbn [as_array bind].
    rewrite (mapM_ext (fun s => r1 (Some s) indent) (fun s => r2 (Some s) indent));
      [reflexivity|].
    intros x Hx. apply Hrec. pose proof (depth_elem _ _ Hx).
    specialize (Hsub _ _ Hl). unfold depth_of. lia. }
  destruct (truthy (lookup (lit "allOf") fs)).
  { destruct (lookup (lit "allOf") fs) as [v|] eqn:Hl; [|reflexivity].
    destruct (index0 (Some v)) as [first|e] eqn:Hfirst; [|reflexivity].
    cbn [bind]. apply Hrec. pose proof (depth_index0 _ _ Hfirst).
    specialize (Hsub _ _ Hl). lia. }
  destruct (is_string (lit "string") (lookup (lit "type") fs)); [reflexivity|].
  destruct (is_string (lit "number") (lookup (lit "type") fs)
            || is_string (lit "integer") (lookup (lit "type") fs)); [reflexivity|].
  destruct (is_string (lit "boolean") (lookup (lit "type") fs)); [reflexivity|].
  destruct (is_string (lit "null") (lookup (lit "type") fs)); [reflexivity|].
  destruct (is_string (lit "array") (lookup (lit "type") fs)).
  { destruct (truthy (lookup (lit "items") fs)); [|reflexivity].
    destruct (lookup (lit "items") fs) as [v|] eqn:Hl.
    - rewrite (Hrec (Some v) indent); [reflexivity|]. exact (Hsub _ _ Hl).
    - rewrite (Hrec None indent); [reflexivity|]. simpl. lia. }
  destruct (is_string (lit "object") (lookup (lit "type") fs)); [|reflexivity].
  destruct (negb (truthy (lookup (lit "properties") fs))); [reflexivity|].
  rewrite (mapM_ext
    (fun entry : jsstring * json =>
       let (key, propSchema) := entry in
       (req <- Ok (lookup (lit "required") fs) ;;
        required <- SchemaToTypes.is_required req key;;
        description <- get_prop (Some propSchema) (lit "description");;
        comment <- SchemaToTypes.doc_comment (spaces indent) description;;
        propType <- r1 (Some propSchema) (indent + 2)%nat;;
        Ok (comment ++ spaces indent ++ lit "  " ++ key
            ++ (if required : bool then [] else lit "?")
            ++ lit ": " ++ propType ++ lit ";"))%js)
    (fun entry : jsstring * json =>
       let (key, propSchema) := entry in
       (req <- Ok (lookup (lit "required") fs) ;;
        required <- SchemaToTypes.is_required req key;;
        description <- get_prop (Some propSchema) (lit "description");;
        comment <- SchemaToTypes.doc_comment (spaces indent) description;;
        propType <- r2 (Some propSchema) (indent + 2)%nat;;
        Ok (comment ++ spaces indent ++ lit "  " ++ key
            ++ (if required : bool then [] else lit "?")
            ++ lit ": " ++ propType ++ lit ";"))%js)).
  2:{ intros [key p] Hin. rewrite (Hrec (Some p)); [reflexivity|].
      destruct (lookup (lit "properties") fs) as [v|] eqn:Hl; [|destruct Hin].
      pose proof (depth_entries _ _ _ Hin). specialize (Hsub _ _ Hl).
      unfold depth_of. lia. }
  destruct (truthy (lookup (lit "additionalProperties") fs)); [|reflexivity].
  destruct (typeof_object (lookup (lit "additionalProperties") fs)); [|reflexivity].
  destruct (lookup (lit "additionalProperties") fs) as [v|] eqn:Hl.
  - rewrite (Hrec (Some v)); [reflexivity|]. exact (Hsub _ _ Hl).
  - rewrite (Hrec None); [reflexivity|]. simpl. lia.
Qed.

Lemma translate_fuel (f1 : nat) :
  forall f2 schema indent,
    (depth_of schema < f1)%nat -> (depth_of schema < f2)%nat ->
    SchemaToTypes.translate f1 schema indent = SchemaToTypes.translate f2 schema indent.
Proof.
  induction f1 as [|f1 IH]; intros [|f2] schema indent H1 H2; try lia.
  simpl. apply body_ext. intros s i Hs. apply IH; lia.
Qed.

(** The wrapper satisfies the recursive equation of the source
    function: the fuel of the model is not observable. *)
Lemma jsonSchemaToTypeScript_unfold (schema : value) (indent : nat) :
  SchemaToTypes.jsonSchemaToTypeScript schema indent
  = SchemaToTypes.jsonSchemaToTypeScript_body
      SchemaToTypes.jsonSchemaToTypeScript schema indent.
Proof.
  unfold SchemaToTypes.jsonSchemaToTypeScript at 1. simpl SchemaToTypes.translate.
  apply body_ext. intros s i Hs. unfold SchemaToTypes.jsonSchemaToTypeScript.
  apply translate_fuel; lia.
Qed.

Lemma union_ok (f : nat) (indent : nat) (l : list json) :
  (forall schema indent, (depth_of schema < f)%nat -> well_formed_value schema = true ->
      exists text, SchemaToTypes.translate f schema indent = Ok text) ->
  (depth (JArr l) <= f)%nat ->
  forallb well_formed l = true ->
  exists texts, mapM (fun s => SchemaToTypes.translate f (Some s) indent) l = Ok texts.
Proof.
  intros IH Hd Hwf.
  destruct (mapM_ok (fun s => SchemaToTypes.translate f (Some s) indent) l) as [ys [H _]].
  - intros x Hx. apply IH.
    + simpl depth_of. pose proof (depth_elem x l Hx). lia.
    + simpl. rewrite forallb_forall in Hwf. now apply Hwf.
  - now exists ys.
Qed.

Lemma translate_total (fuel : nat) :
  forall schema indent,
    (depth_of schema < fuel)%nat ->
    well_formed_value schema = true ->
    exists text, SchemaToTypes.translate fuel schema indent = Ok text.
Proof.
  induction fuel as [|f IH]; intros schema indent Hd Hwf; [lia|].
  destruct schema as [j|]; [|eexists; reflexivity].
  destruct j as [| [|] | t | [|c s] | l | fs]; try (eexists; reflexivity).
  - cbn [SchemaToTypes.translate]. unfold SchemaToTypes.jsonSchemaToTypeScript_body.
    cbn [truthy]. destruct (str_eqb t (lit "0")); eexists; reflexivity.
  - cbn [SchemaToTypes.translate].
    unfold SchemaToTypes.jsonSchemaToTypeScript_body.
    cbn [truthy negb get_prop bind].
    assert (Hobj : well_formed (JObj fs) = true) by exact Hwf.
    assert (Hsub : forall key v, lookup key fs = Some v -> (depth v < f)%nat).
    { intros key v Hl. pose proof (depth_lookup key fs v Hl).
      unfold depth_of in Hd. lia. }
    clear Hwf Hd.
    (* anyOf *)
    destruct (truthy (lookup (lit "anyOf") fs)) eqn:HanyOf.
    { destruct (lookup (lit "anyOf") fs) as [v|] eqn:Hl; [|discriminate].
      destruct (well_formed_branches _ fs v (or_introl eq_refl) Hobj Hl HanyOf)
        as [l [-> Hl']].
      cbn [as_array bind].
      destruct (union_ok f indent l IH) as [texts ->];
        [specialize (Hsub _ _ Hl); lia | exact Hl' | now eexists]. }
    destruct (truthy (lookup (lit "oneOf") fs)) eqn:HoneOf.
    { destruct (lookup (lit "oneOf") fs) as [v|] eqn:Hl; [|discriminate].
      destruct (well_formed_branches _ fs v (or_intror (or_introl eq_refl))
                  Hobj Hl HoneOf)
        as [l [-> Hl']].
      cbn [as_array bind].
      destruct (union_ok f indent l IH) as [texts ->];
        [specialize (Hsub _ _ Hl); lia | exact Hl' | now eexists]. }
    destruct (truthy (lookup (lit "allOf") fs)) eqn:HallOf.
    { destruct (lookup (lit "allOf") fs) as [v|] eqn:Hl; [|discriminate].
      destruct (well_formed_branches _ fs v (or_intror (or_intror eq_refl))
                  Hobj Hl HallOf)
        as [l [-> Hl']].
      cbn [index0 bind]. pose proof (Hsub _ _ Hl) as Hd. apply IH.
      - destruct l as [|x l]; cbn [hd_error depth_of]; [lia|].
        pose proof (depth_elem x (x :: l) (or_introl eq_refl)). lia.
      - destruct l as [|x l]; [reflexivity|]. simpl in Hl'.
        now apply andb_true_iff in Hl' as [Hx _]. }
    destruct (is_string (lit "string") (lookup (lit "type") fs)).
    { destruct (truthy (lookup (lit "enum") fs)) eqn:Henum; [|now eexists].
      destruct (lookup (lit "enum") fs) as [v|] eqn:Hl; [|discriminate].
      pose proof (well_formed_keyword _ _ _ Hobj Hl) as Hk.
      rewrite keyword_ok_enum, Henum in Hk. simpl in Hk.
      destruct v as [| | | |values|]; try discriminate.
      cbn [as_array bind].
      destruct (mapM_ok
                  (fun v => (t <- ToString v ;; Ok (dquote ++ t ++ dquote))%js)
                  values)
        as [texts [-> _]]; [|now eexists].
      intros x Hx. rewrite forallb_forall in Hk. specialize (Hk x Hx).
      unfold printable in Hk. destruct (ToString x); [now eexists | discriminate]. }
    destruct (is_string (lit "number") (lookup (lit "type") fs)
              || is_string (lit "integer") (lookup (lit "type") fs)); [now eexists|].
    destruct (is_string (lit "boolean") (lookup (lit "type") fs)); [now eexists|].
    destruct (is_string (lit "null") (lookup (lit "type") fs)); [now eexists|].
    destruct (is_string (lit "array") (lookup (lit "type") fs)).
    { destruct (truthy (lookup (lit "items") fs)) eqn:Hitems; [|now eexists].
      destruct (lookup (lit "items") fs) as [v|] eqn:Hl; [|discriminate].
      destruct (IH (Some v) indent) as [text ->];
        [exact (Hsub _ _ Hl)
        | exact (well_formed_sub _ fs v (or_introl eq_refl) Hobj Hl)
        | now eexists]. }
    destruct (is_string (lit "object") (lookup (lit "type") fs)); [|now eexists].
    destruct (truthy (lookup (lit "properties") fs)) eqn:Hprops; cbn [negb].
    2:{ destruct (lookup (lit "additionalProperties") fs)
          as [[| [|] | | | |]|]; now eexists. }
    destruct (lookup (lit "properties") fs) as [v|] eqn:Hl; [|discriminate].
    pose proof (well_formed_keyword _ _ _ Hobj Hl) as Hk.
    rewrite keyword_ok_properties, Hprops in Hk. simpl in Hk.
    destruct v as [| | | |?|props]; try discriminate.
    cbn [entries].
    destruct (mapM_ok
      (fun entry : jsstring * json =>
        let (key, propSchema) := entry in
        (required <- SchemaToTypes.is_required (lookup (lit "required") fs) key;;
         description <- get_prop (Some propSchema) (lit "description");;
         comment <- SchemaToTypes.doc_comment (spaces indent) description;;
         propType <- SchemaToTypes.translate f (Some propSchema) (indent + 2);;
         Ok (comment ++ spaces indent ++ lit "  " ++ key
             ++ (if required : bool then [] else lit "?")
             ++ lit ": " ++ propType ++ lit ";"))%js) props) as [lines [Hlines _]].
    { intros [key propSchema] Hin.
      rewrite forallb_forall in Hk. specialize (Hk _ Hin). simpl in Hk.
      apply andb_true_iff in Hk as [Hnull Hp].
      destruct (is_required_ok (lookup (lit "required") fs) key) as [b ->].
      { destruct (lookup (lit "required") fs) as [r|] eqn:Hr; [|exact I].
        pose proof (well_formed_keyword _ _ _ Hobj Hr) as Hrk.
        now rewrite keyword_ok_required in Hrk. }
      cbn [bind].
      assert (Hdesc : exists description,
                 get_prop (Some propSchema) (lit "description") = Ok description
                 /\ match description with
                    | Some v => negb (truthy (Some v))
                                || match v with JStr _ => true | _ => false end = true
                    | None => True
                    end).
      { destruct propSchema as [| | | | |fs0]; try discriminate;
          try (exists None; now split).
        exists (lookup (lit "description") fs0). split; [reflexivity|].
        destruct (lookup (lit "description") fs0) as [d|] eqn:Hd; [|exact I].
        pose proof (well_formed_keyword _ _ _ Hp Hd) as Hdk.
        now rewrite keyword_ok_description in Hdk. }
      destruct Hdesc as [description [-> Hdesc]]. cbn [bind].
      destruct (doc_comment_ok (spaces indent) description Hdesc) as [comment ->].
      cbn [bind].
      destruct (IH (Some propSchema) (indent + 2)%nat) as [propType ->];
        [|exact Hp | now eexists].
      pose proof (depth_field _ _ _ Hin). specialize (Hsub _ _ Hl).
      unfold depth_of. lia. }
    cbn [get_prop] in Hlines. rewrite Hlines. cbn [bind].
    destruct (truthy (lookup (lit "additionalProperties") fs)) eqn:Hap;
      [|now eexists].
    destruct (typeof_object (lookup (lit "additionalProperties") fs));
      [|now eexists].
    destruct (lookup (lit "additionalProperties") fs) as [v|] eqn:Hl2;
      [|discriminate].
    destruct (IH (Some v) (indent + 2)%nat) as [text ->];
      [exact (Hsub _ _ Hl2)
      | exact (well_formed_sub _ fs v (or_intror eq_refl) Hobj Hl2)
      | now eexists].
Qed.

Lemma jsonSchemaToTypeScript_total_on (schema : value) (indent : nat) :
  well_formed_value schema = true ->
  exists text, SchemaToTypes.jsonSchemaToTypeScript schema indent = Ok text.
Proof.
  intros Hwf. unfold SchemaToTypes.jsonSchemaToTypeScript.
  apply translate_total; [lia | exact Hwf].
Qed.

Lemma unrecognized_is_unknown (schema : json) (indent : nat) :
  has_combinator schema = false ->
  recognized (type_tag schema) = false ->
  SchemaToTypes.jsonSchemaToTypeScript (Some schema) indent = Ok (lit "unknown").
Proof.
  intros Hcomb Htag. rewrite jsonSchemaToTypeScript_unfold.
  unfold SchemaToTypes.jsonSchemaToTypeScript_body.
  destruct schema as [| [|] | t | [|c s] | l | fields]; try reflexivity.
  - cbn [truthy]. now destruct (str_eqb t (lit "0")).
  - cbn [truthy negb get_prop bind].
    simpl in Hcomb. apply orb_false_iff in Hcomb as [Hcomb HallOf].
    apply orb_false_iff in Hcomb as [HanyOf HoneOf].
    rewrite HanyOf, HoneOf, HallOf.
    unfold recognized, type_tag in Htag. cbn [existsb] in Htag.
    repeat (apply orb_false_iff in Htag as [?H Htag]).
    now rewrite H, H0, H1, H2, H3, H4, H5.
Qed.

(** On a value whose keywords have the kinds JSON Schema gives them,
    a missing schema ([undefined]) included, the translation returns a type
    text and does not throw; a missing schema, and a schema without
    combinator whose type tag is none of the known ones, translate to
    [unknown]. *)
Theorem jsonSchemaToTypeScript_never_raises (schema : value) (indent : nat) :
  well_formed_value schema = true ->
  (exists text, SchemaToTypes.jsonSchemaToTypeScript schema indent = Ok text)
  /\ (schema = None ->
      SchemaToTypes.jsonSchemaToTypeScript schema indent = Ok (lit "unknown"))
  /\ (forall j, schema = Some j ->
        has_combinator j = false ->
        recognized (type_tag j) = false ->
        SchemaToTypes.jsonSchemaToTypeScript schema indent = Ok (lit "unknown")).
Proof.
  intros Hwf. split; [now apply jsonSchemaToTypeScript_total_on | split].
  - intros ->. reflexivity.
  - intros j -> Hcomb Htag. now apply unrecognized_is_unknown.
Qed.

Lemma jsonSchemaToTypeScript_never_raises_witness :
  exists text,
    SchemaToTypes.jsonSchemaToTypeScript (Some sample_schema) 0 = Ok text.
Proof.
  exact (proj1 (jsonSchemaToTypeScript_never_raises (Some sample_schema) 0
                  eq_refl)).
Defined.

Example sample_schema_text :
  SchemaToTypes.jsonSchemaToTypeScript (Some sample_schema) 0
  = Ok (lit "{" ++ newline
        ++ lit "  /**" ++ newline
        ++ lit "   * What to look for" ++ newline
        ++ lit "   */" ++ newline
        ++ lit "  query: string;" ++ newline
        ++ lit "  mode?: " ++ dquote ++ lit "a" ++ dquote ++ lit " | "
        ++ dquote ++ lit "b" ++ dquote ++ lit ";" ++ newline
        ++ lit "  tags?: number[];" ++ newline
        ++ lit "  when?: null | unknown;" ++ newline
        ++ lit "  extra?: unknown;" ++ newline
        ++ lit "}").
Proof. reflexivity. Qed.

(** Outside of these values the source does throw: a property whose
    schema is [null] is read for its [description]. *)
Example null_property_schema_throws :
  SchemaToTypes.jsonSchemaToTypeScript
    (Some (JObj [(lit "type", JStr (lit "object"));
                 (lit "properties", JObj [(lit "a", JNull)])])) 0
  = Throw TypeError.
Proof. reflexivity. Qed.

(* ===================================================================== *)
(** * Enumerations and the optional marker                                *)
(* ===================================================================== *)

Lemma bind_Ok {A B} (c : result A) (k : A -> result B) (y : B) :
  bind c k = Ok y -> exists x, c = Ok x /\ k x = Ok y.
Proof. destruct c as [x|e]; simpl; [now exists x | discriminate]. Qed.

Lemma mapM_Forall2 {A B} (f : A -> result B) (l : list A) (ys : list B) :
  mapM f l = Ok ys -> Forall2 (fun x y => f x = Ok y) l ys.
Proof.
  revert ys. induction l as [|x l IH]; intros ys; simpl.
  - intros H. injection H as <-. constructor.
  - destruct (f x) as [y|e] eqn:Hx; [|discriminate].
    destruct (mapM f l) as [ys'|e]; [|discriminate].
    intros H. injection H as <-. constructor; [exact Hx | now apply IH].
Qed.

Lemma Forall2_In_l {A B} (R : A -> B -> Prop) (l : list A) (l' : list B) (x : A) :
  Forall2 R l l' -> In x l -> exists y, In y l' /\ R x y.
Proof.
  induction 1 as [|a b l l' Hab _ IH]; [contradiction|].
  intros [<-|Hin].
  - exists b. split; [now left | assumption].
  - destruct (IH Hin) as (y & Hy & Hxy). exists y. split; [now right | assumption].
Qed.

Lemma Ok_inj {A} (a b : A) : Ok a = Ok b -> a = b.
Proof. now intros [= ->]. Qed.

Lemma plain_no_combinator (fields : list (jsstring * json)) :
  plain fields ->
  truthy (lookup (lit "anyOf") fields) = false
  /\ truthy (lookup (lit "oneOf") fields) = false
  /\ truthy (lookup (lit "allOf") fields) = false.
Proof.
  unfold plain. simpl. intros H.
  apply orb_false_iff in H as [H HallOf].
  apply orb_false_iff in H as [HanyOf HoneOf]. auto.
Qed.

Lemma mapM_quote_strings (values : list jsstring) :
  mapM (fun v => bind (ToString v) (fun t => Ok (dquote ++ t ++ dquote)))
       (map JStr values)
  = Ok (map quoted values).
Proof.
  induction values as [|v values IH]; simpl; [reflexivity|].
  simpl in IH. now rewrite IH.
Qed.

Lemma string_enum_text (schema : json) (values : list jsstring) (indent : nat) :
  string_enum schema values ->
  SchemaToTypes.jsonSchemaToTypeScript (Some schema) indent
  = Ok (literal_union values).
Proof.
  intros [fields [-> [Hplain [Htype Henum]]]].
  destruct (plain_no_combinator fields Hplain) as [HanyOf [HoneOf HallOf]].
  rewrite jsonSchemaToTypeScript_unfold.
  unfold SchemaToTypes.jsonSchemaToTypeScript_body.
  cbn [truthy negb get_prop bind].
  rewrite HanyOf, HoneOf, HallOf, Htype, Henum.
  cbn [is_string truthy as_array bind].
  change (str_eqb (lit "string") (lit "string")) with true. cbv iota.
  now rewrite mapM_quote_strings.
Qed.

(** C5.  The text of an object schema is a record with one line per
    property, in order.  A line holds the property's key, then the
    optional marker [?] unless the key is listed in the schema's
    [required] array, then the property's type; and the type of a
    string-typed property carrying [enum: ["a", "b"]] is the literal union
    ["a" | "b"] (for any enumeration of strings, the union of its quoted
    values). *)
Theorem object_properties_rendered
    (fields props : list (jsstring * json)) (indent : nat) (text : jsstring) :
  object_schema fields props ->
  required_array fields ->
  SchemaToTypes.jsonSchemaToTypeScript (Some (JObj fields)) indent = Ok text ->
  (exists lines additionalProps,
      text = lit "{" ++ newline ++ join newline lines ++ additionalProps
             ++ newline ++ spaces indent ++ lit "}"
      /\ Forall2 (rendered fields indent) props lines)
  /\ literal_union [lit "a"; lit "b"]
     = dquote ++ lit "a" ++ dquote ++ lit " | " ++ dquote ++ lit "b" ++ dquote.
Proof.
  intros [Hplain [Htype Hprops]] Hreq Htext. split; [|reflexivity].
  destruct (plain_no_combinator fields Hplain) as [HanyOf [HoneOf HallOf]].
  rewrite jsonSchemaToTypeScript_unfold in Htext.
  unfold SchemaToTypes.jsonSchemaToTypeScript_body in Htext.
  cbn [truthy negb get_prop bind] in Htext.
  rewrite HanyOf, HoneOf, HallOf, Htype, Hprops in Htext.
  cbn [is_string truthy negb entries] in Htext.
  change (str_eqb (lit "object") (lit "string")) with false in Htext.
  change (str_eqb (lit "object") (lit "number")) with false in Htext.
  change (str_eqb (lit "object") (lit "integer")) with false in Htext.
  change (str_eqb (lit "object") (lit "boolean")) with false in Htext.
  change (str_eqb (lit "object") (lit "null")) with false in Htext.
  change (str_eqb (lit "object") (lit "array")) with false in Htext.
  change (str_eqb (lit "object") (lit "object")) with true in Htext.
  cbv iota in Htext. cbn [orb] in Htext. cbv iota in Htext.
  apply bind_Ok in Htext as [lines [Hlines Htext]].
  apply bind_Ok in Htext as [additionalProps [_ Htext]].
  injection Htext as <-.
  exists lines, additionalProps. split; [reflexivity|].
  apply mapM_Forall2 in Hlines.
  eapply Forall2_impl; [|exact Hlines].
  intros [key propSchema] line Hline. unfold rendered.
  apply bind_Ok in Hline as [required [Hrequired Hline]].
  apply bind_Ok in Hline as [description [_ Hline]].
  apply bind_Ok in Hline as [comment [_ Hline]].
  apply bind_Ok in Hline as [propType [HpropType Hline]].
  injection Hline as <-.
  exists comment, propType. split; [|split; [exact HpropType|]].
  - do 4 f_equal. unfold listed. unfold required_array in Hreq.
    destruct (lookup (lit "required") fields) as [[| | | |names|]|];
      try destruct Hreq; simpl in Hrequired; injection Hrequired as <-;
      reflexivity.
  - intros values Henum.
    rewrite (string_enum_text _ _ (indent + 2) Henum) in HpropType.
    now injection HpropType as <-.
Qed.

(** The theorem on the sample schema: [query] is required and has no
    marker, [mode] is an enumeration and optional. *)
Lemma object_properties_rendered_witness :
  (exists lines additionalProps,
      lit "{" ++ newline
      ++ lit "  /**" ++ newline
      ++ lit "   * What to look for" ++ newline
      ++ lit "   */" ++ newline
      ++ lit "  query: string;" ++ newline
      ++ lit "  mode?: " ++ dquote ++ lit "a" ++ dquote ++ lit " | "
      ++ dquote ++ lit "b" ++ dquote ++ lit ";" ++ newline
      ++ lit "  tags?: number[];" ++ newline
      ++ lit "  when?: null | unknown;" ++ newline
      ++ lit "  extra?: unknown;" ++ newline
      ++ lit "}"
      = lit "{" ++ newline ++ join newline lines ++ additionalProps
        ++ newline ++ spaces 0 ++ lit "}"
      /\ Forall2 (rendered sample_fields 0) sample_props lines)
  /\ literal_union [lit "a"; lit "b"]
     = dquote ++ lit "a" ++ dquote ++ lit " | " ++ dquote ++ lit "b" ++ dquote.
Proof.
  exact (object_properties_rendered sample_fields sample_props 0 _
           (conj eq_refl (conj eq_refl eq_refl)) I sample_schema_text).
Defined.

(* ===================================================================== *)
(** * A property without a schema                                          *)
(* ===================================================================== *)

(** C7.  The translation is not total.  Elsewhere the function
    provides for a schema that is missing: it returns [unknown] for a
    schema that is [undefined] or [null], which covers a [null] among the
    branches of [anyOf]; it tests [items] before it translates them and
    [additionalProperties] before it uses them.  But the loop over the
    properties of an object reads [propSchema.description] before it hands
    the property's schema to the function, and for every object schema
    with a property whose schema is [null] the translation throws and
    returns no text. *)
Theorem jsonSchemaToTypeScript_raises_on_null_property
    (fields props : list (jsstring * json)) (key : jsstring) (indent : nat) :
  object_schema fields props ->
  In (key, JNull) props ->
  (forall text,
     SchemaToTypes.jsonSchemaToTypeScript (Some (JObj fields)) indent <> Ok text)
  /\ SchemaToTypes.jsonSchemaToTypeScript None indent = Ok (lit "unknown")
  /\ SchemaToTypes.jsonSchemaToTypeScript (Some JNull) indent = Ok (lit "unknown")
  /\ SchemaToTypes.jsonSchemaToTypeScript
       (Some (JObj [(lit "type", JStr (lit "array")); (lit "items", JNull)]))
       indent
     = Ok (lit "unknown[]")
  /\ SchemaToTypes.jsonSchemaToTypeScript
       (Some (JObj [(lit "anyOf", JArr [JNull; JObj [(lit "type", JStr (lit "null"))]])]))
       indent
     = Ok (lit "unknown | null")
  /\ SchemaToTypes.jsonSchemaToTypeScript
       (Some (JObj [(lit "type", JStr (lit "object"));
                    (lit "properties", JObj []);
                    (lit "additionalProperties", JNull)]))
       indent
     = Ok (lit "{" ++ newline ++ newline ++ spaces indent ++ lit "}").
Proof.
  intros [Hplain [Htype Hprops]] Hin.
  split; [|repeat split].
  intros text Htext.
  destruct (plain_no_combinator fields Hplain) as [HanyOf [HoneOf HallOf]].
  rewrite jsonSchemaToTypeScript_unfold in Htext.
  unfold SchemaToTypes.jsonSchemaToTypeScript_body in Htext.
  cbn [truthy negb get_prop bind] in Htext.
  rewrite HanyOf, HoneOf, HallOf, Htype, Hprops in Htext.
  cbn [is_string truthy negb entries] in Htext.
  change (str_eqb (lit "object") (lit "string")) with false in Htext.
  change (str_eqb (lit "object") (lit "number")) with false in Htext.
  change (str_eqb (lit "object") (lit "integer")) with false in Htext.
  change (str_eqb (lit "object") (lit "boolean")) with false in Htext.
  change (str_eqb (lit "object") (lit "null")) with false in Htext.
  change (str_eqb (lit "object") (lit "array")) with false in Htext.
  change (str_eqb (lit "object") (lit "object")) with true in Htext.
  cbv iota in Htext. cbn [orb] in Htext. cbv iota in Htext.
  apply bind_Ok in Htext as [lines [Hlines _]].
  apply mapM_Forall2 in Hlines.
  destruct (Forall2_In_l _ _ _ _ Hlines Hin) as (line & _ & Hline).
  apply bind_Ok in Hline as [required [_ Hline]].
  discriminate Hline.
Qed.

(** The object schema [{type: 'object', properties: {a: null}}]. *)
Lemma jsonSchemaToTypeScript_raises_on_null_property_witness :
  let schema :=
    JObj [(lit "type", JStr (lit "object"));
          (lit "properties", JObj [(lit "a", JNull)])] in
  SchemaToTypes.jsonSchemaToTypeScript (Some schema) 0 = Throw TypeError
  /\ (forall text,
        SchemaToTypes.jsonSchemaToTypeScript (Some schema) 0 <> Ok text)
  /\ SchemaToTypes.jsonSchemaToTypeScript
       (Some (JObj [(lit "type", JStr (lit "array")); (lit "items", JNull)])) 0
     = Ok (lit "unknown[]").
Proof.
  intros schema.
  pose proof (jsonSchemaToTypeScript_raises_on_null_property
                [(lit "type", JStr (lit "object"));
                 (lit "properties", JObj [(lit "a", JNull)])]
                [(lit "a", JNull)] (lit "a") 0
                (conj eq_refl (conj eq_refl eq_refl)) (or_introl eq_refl))
    as (Hraises & _ & _ & Hitems & _).
  split; [reflexivity | split; [exact Hraises | exact Hitems]].
Defined.

(* ===================================================================== *)
(** * The generated interface                                             *)
(* ===================================================================== *)

(** The interface generated for the sample tools. *)
Example sample_tools_interface :
  SchemaToTypes.generateTypeScriptDefinitions
    SchemaToTypes.ascii_upper SchemaToTypes.ascii_lower sample_tools
  = Ok (lit "// TypeScript definitions for MCP tools" ++ newline
        ++ lit "interface SearchMusic!Input {" ++ newline
        ++ lit "  q: string;" ++ newline
        ++ lit "}" ++ newline ++ newline
        ++ lit "interface SearchMusic!Output {" ++ newline
        ++ lit "  [key: string]: any;" ++ newline
        ++ lit "}" ++ newline ++ newline
        ++ lit "interface GetUserInfoInput {" ++ newline ++ newline
        ++ lit "}" ++ newline ++ newline
        ++ lit "interface GetUserInfoOutput {" ++ newline
        ++ lit "  [key: string]: any;" ++ newline
        ++ lit "}" ++ newline ++ newline
        ++ lit "declare const mcp: {" ++ newline
        ++ lit "  /**" ++ newline
        ++ lit "   * Search the library." ++ newline
        ++ lit "   * Returns tracks." ++ newline
        ++ lit "   */" ++ newline
        ++ lit "  search_music_: (" ++ newline
        ++ lit "    input: SearchMusic!Input" ++ newline
        ++ lit "  ) => Promise<SearchMusic!Output>;" ++ newline ++ newline
        ++ lit "  get_user_info: (" ++ newline
        ++ lit "    input: GetUserInfoInput" ++ newline
        ++ lit "  ) => Promise<GetUserInfoOutput>;" ++ newline
        ++ lit "};").
Proof. reflexivity. Qed.

(* ===================================================================== *)
(** * The worker engine: what ends an execution                           *)
(* ===================================================================== *)

(** X2.  The promise of the worker engine takes the report of the
    first event that is not a tool request, whatever comes after it: the
    timer gives [Execution timeout] with an empty output (lines the worker
    had printed are lost), the [complete] message the logs, an error of
    the worker its message, an exit with a code other than zero [Worker
    exited with code <code>]. *)
Theorem worker_first_event_decides
    (before later : list WorkerSandbox.event) (ev : WorkerSandbox.event)
    (r : WorkerSandbox.Result) :
  forallb WorkerSandbox.is_mcp_call before = true ->
  verdict ev = Some r ->
  WorkerSandbox.resolved (WorkerSandbox.execute (before ++ ev :: later))
  = Some r.
Proof.
  intros Hbefore Hev. unfold WorkerSandbox.execute.
  rewrite fold_left_app, (host_fold_mcp_calls before _ Hbefore).
  cbn [fold_left]. apply host_fold_keeps_resolution.
  destruct ev as [[m a|logs]|message|[|code]|]; try discriminate Hev;
    injection Hev as <-; reflexivity.
Qed.


Lemma worker_first_event_decides_witness :
  WorkerSandbox.resolved
    (WorkerSandbox.execute
       ([WorkerSandbox.Message (WorkerSandbox.McpCall (lit "t") None)]
        ++ WorkerSandbox.TimerFired
           :: [WorkerSandbox.Message (WorkerSandbox.Complete [lit "late"]);
               WorkerSandbox.Exit 1]))
  = Some (WorkerSandbox.mkResult false [] (Some (lit "Execution timeout"))).
Proof.
  exact (worker_first_event_decides
           [WorkerSandbox.Message (WorkerSandbox.McpCall (lit "t") None)]
           [WorkerSandbox.Message (WorkerSandbox.Complete [lit "late"]);
            WorkerSandbox.Exit 1]
           WorkerSandbox.TimerFired _ eq_refl eq_refl).
Defined.

Lemma host_fold_quiet (events : list WorkerSandbox.event)
    (h : WorkerSandbox.Host) :
  forallb quiet events = true ->
  WorkerSandbox.completed h = true ->
  WorkerSandbox.resolved (fold_left WorkerSandbox.host_step events h)
  = WorkerSandbox.resolved h.
Proof.
  revert h. induction events as [|ev events IH]; intros h Hq Hc; [reflexivity|].
  cbn [forallb] in Hq. apply andb_prop in Hq as [Hev Hq]. cbn [fold_left].
  assert (Hstep : WorkerSandbox.host_step h ev = h).
  { destruct ev as [[m a|logs]|message|code|]; try discriminate Hev;
      cbn [WorkerSandbox.host_step]; now rewrite ?Hc. }
  rewrite Hstep. now apply IH.
Qed.

(** X3.  When the worker exits with code 0 before it has sent its
    [complete] message, the exit handler clears the timer and resolves
    nothing: the promise of [execute] stays pending, whatever timer or exit
    events follow. *)
Theorem worker_clean_exit_never_resolves
    (before later : list WorkerSandbox.event) :
  forallb WorkerSandbox.is_mcp_call before = true ->
  forallb quiet later = true ->
  WorkerSandbox.resolved
    (WorkerSandbox.execute (before ++ WorkerSandbox.Exit 0 :: later))
  = None.
Proof.
  intros Hbefore Hlater. unfold WorkerSandbox.execute.
  rewrite fold_left_app, (host_fold_mcp_calls before _ Hbefore).
  cbn [fold_left WorkerSandbox.host_step WorkerSandbox.completed
       WorkerSandbox.resolved].
  now rewrite host_fold_quiet.
Qed.

Lemma worker_clean_exit_never_resolves_witness :
  WorkerSandbox.resolved
    (WorkerSandbox.execute
       ([WorkerSandbox.Message (WorkerSandbox.McpCall (lit "t") None)]
        ++ WorkerSandbox.Exit 0 :: [WorkerSandbox.TimerFired]))
  = None.
Proof.
  exact (worker_clean_exit_never_resolves
           [WorkerSandbox.Message (WorkerSandbox.McpCall (lit "t") None)]
           [WorkerSandbox.TimerFired] eq_refl eq_refl).
Defined.

(* ===================================================================== *)
(** * The isolated engine: output, reuse of the context, disposal         *)
(* ===================================================================== *)

Section Isolated.

Variable object : Type.
Variable JSON_stringify : object -> IsolatedSandbox.stringified.

Local Abbreviation execute := (IsolatedSandbox.execute JSON_stringify).

Lemma execute_logs (this : IsolatedSandbox.Sandbox) (created : nat)
    (code : jsstring) (mcpHandler : bool) (run : IsolatedSandbox.Run object) :
  IsolatedSandbox.logs (IsolatedSandbox.after (execute this created code mcpHandler run))
  = map (console_line JSON_stringify) (IsolatedSandbox.console_calls run)
  /\ forall r,
       IsolatedSandbox.returned (execute this created code mcpHandler run) = Some r ->
       IsolatedSandbox.output r = map (console_line JSON_stringify) (IsolatedSandbox.console_calls run).
Proof.
  unfold IsolatedSandbox.execute.
  destruct (IsolatedSandbox.is_none (IsolatedSandbox.isolate this)
            || IsolatedSandbox.is_none (IsolatedSandbox.context this));
    cbn [IsolatedSandbox.initialize];
    rewrite (console_fold_lines object JSON_stringify); cbn [app];
    change (fun call : IsolatedSandbox.method * list (IsolatedSandbox.arg object) =>
              join (lit " ")
                (prefix (fst call) ++ map (printed JSON_stringify) (snd call)))
      with (console_line JSON_stringify);
    (destruct (IsolatedSandbox.ending run) as [|[message|]];
     [ | destruct (includes (lit "Script execution timed out") message);
         [ | destruct (includes (lit "Isolate was disposed") message) ] | ]);
    cbn; (split; [reflexivity | intros r [= <-]; reflexivity]).
Qed.

(** X4.  Whenever [execute] returns a result (the evaluation completed,
    or raised an error that has a message), its output is the lines of
    the console calls of this evaluation, one per call and in the order of
    the calls, whether the evaluation succeeded or failed; lines a former
    execution left in the sandbox are not part of it. *)
Theorem execute_output_is_this_run (this : IsolatedSandbox.Sandbox)
    (created : nat) (code : jsstring) (mcpHandler : bool)
    (run : IsolatedSandbox.Run object) (earlier : list jsstring) :
  IsolatedSandbox.ending run <> IsolatedSandbox.Raised None ->
  let stale :=
    IsolatedSandbox.mkSandbox (IsolatedSandbox.memoryLimit this)
      (IsolatedSandbox.timeout this) (IsolatedSandbox.isolate this)
      (IsolatedSandbox.context this) earlier in
  exists r,
    IsolatedSandbox.returned (execute stale created code mcpHandler run) = Some r
    /\ IsolatedSandbox.output r
       = map (console_line JSON_stringify) (IsolatedSandbox.console_calls run)
    /\ IsolatedSandbox.returned (execute this created code mcpHandler run) = Some r.
Proof.
  intros Hend stale.
  assert (Hsame : IsolatedSandbox.returned (execute stale created code mcpHandler run)
                  = IsolatedSandbox.returned (execute this created code mcpHandler run)).
  { unfold IsolatedSandbox.execute. subst stale.
    cbn [IsolatedSandbox.isolate IsolatedSandbox.context].
    destruct (IsolatedSandbox.is_none (IsolatedSandbox.isolate this)
              || IsolatedSandbox.is_none (IsolatedSandbox.context this));
      cbn [IsolatedSandbox.initialize IsolatedSandbox.memoryLimit
           IsolatedSandbox.timeout IsolatedSandbox.isolate IsolatedSandbox.context];
      destruct (IsolatedSandbox.ending run) as [|[message|]]; try reflexivity;
      destruct (includes (lit "Script execution timed out") message);
      try reflexivity;
      destruct (includes (lit "Isolate was disposed") message); reflexivity. }
  destruct (IsolatedSandbox.returned (execute this created code mcpHandler run))
    as [r|] eqn:Hr.
  - exists r. split; [exact Hsame | split; [|reflexivity]].
    now apply (proj2 (execute_logs this created code mcpHandler run)).
  - exfalso. apply Hend. revert Hr. unfold IsolatedSandbox.execute.
    destruct (IsolatedSandbox.is_none (IsolatedSandbox.isolate this)
              || IsolatedSandbox.is_none (IsolatedSandbox.context this));
      cbn [IsolatedSandbox.initialize];
      destruct (IsolatedSandbox.ending run) as [|[message|]]; try reflexivity;
      try discriminate;
      destruct (includes (lit "Script execution timed out") message);
      try discriminate;
      destruct (includes (lit "Isolate was disposed") message); discriminate.
Qed.

Lemma execute_after (this : IsolatedSandbox.Sandbox) (created : nat)
    (code : jsstring) (mcpHandler : bool) (run : IsolatedSandbox.Run object) :
  keeps_isolate run = true ->
  let first := execute this created code mcpHandler run in
  exists c,
    IsolatedSandbox.isolate (IsolatedSandbox.after first) <> None
    /\ IsolatedSandbox.context (IsolatedSandbox.after first) = Some c
    /\ IsolatedSandbox.timeout (IsolatedSandbox.after first)
       = IsolatedSandbox.timeout this
    /\ IsolatedSandbox.memoryLimit (IsolatedSandbox.after first)
       = IsolatedSandbox.memoryLimit this
    /\ In (IsolatedSandbox.Eval c code (IsolatedSandbox.timeout this))
          (IsolatedSandbox.ivm_calls first).
Proof.
  unfold keeps_isolate, IsolatedSandbox.execute. intros Hkeep.
  destruct (IsolatedSandbox.isolate this) as [i|] eqn:Hi;
    destruct (IsolatedSandbox.context this) as [c|] eqn:Hc;
    cbn [IsolatedSandbox.is_none orb IsolatedSandbox.initialize
         IsolatedSandbox.context IsolatedSandbox.isolate
         IsolatedSandbox.timeout IsolatedSandbox.memoryLimit];
    try rewrite Hi; try rewrite Hc;
    (destruct (IsolatedSandbox.ending run) as [|[message|]];
     [ | destruct (includes (lit "Script execution timed out") message);
         [ | destruct (includes (lit "Isolate was disposed") message);
             [discriminate Hkeep | ] ] | ]);
    cbn; eexists; (split; [discriminate|]); (split; [reflexivity|]);
    (split; [reflexivity|]); (split; [reflexivity|]);
    destruct mcpHandler; cbn; intuition.
Qed.

(** X5.  The engine decides by the text of the error alone whether it
    keeps its isolate.  Unless the error an evaluation raises carries
    [Isolate was disposed] without [Script execution timed out], the next
    [execute] creates no isolate and evaluates in the context the
    evaluation before it ran in: one context serves successive executions,
    also after a timeout and after an error of any other text.  When the
    error does carry that text, whether the isolation layer raised it at
    the memory limit or the submitted code threw an error of that message
    in an isolate that lives on, the engine lets go of its isolate and the
    next [execute] creates a new one and evaluates there. *)
Theorem execute_reuses_context (this : IsolatedSandbox.Sandbox) (created : nat)
    (code code' : jsstring) (mcpHandler mcpHandler' : bool)
    (run run' : IsolatedSandbox.Run object) :
  let first := execute this created code mcpHandler run in
  let second :=
    execute (IsolatedSandbox.after first) (IsolatedSandbox.isolates first)
            code' mcpHandler' run' in
  (keeps_isolate run = true ->
   exists c,
     In (IsolatedSandbox.Eval c code (IsolatedSandbox.timeout this))
        (IsolatedSandbox.ivm_calls first)
     /\ IsolatedSandbox.ivm_calls second
        = (if mcpHandler' then [IsolatedSandbox.SetupMCPProxy c] else [])
          ++ [IsolatedSandbox.Eval c code' (IsolatedSandbox.timeout this)]
     /\ IsolatedSandbox.isolates second = IsolatedSandbox.isolates first)
  /\ (forall message,
        IsolatedSandbox.ending run = IsolatedSandbox.Raised (Some message) ->
        includes (lit "Script execution timed out") message = false ->
        includes (lit "Isolate was disposed") message = true ->
        let fresh := IsolatedSandbox.isolates first in
        IsolatedSandbox.ivm_calls second
        = [IsolatedSandbox.NewIsolate (IsolatedSandbox.memoryLimit this) fresh;
           IsolatedSandbox.Bootstrap fresh]
          ++ (if mcpHandler' then [IsolatedSandbox.SetupMCPProxy fresh] else [])
          ++ [IsolatedSandbox.Eval fresh code' (IsolatedSandbox.timeout this)]
        /\ IsolatedSandbox.isolates second = S fresh).
Proof.
  intros first second. split.
  - intros Hkeep.
    destruct (execute_after this created code mcpHandler run Hkeep)
      as (c & Hiso & Hctx & Htime & _ & Hin).
    exists c. split; [exact Hin|].
    subst second. fold first in Hiso, Hctx, Htime.
    unfold IsolatedSandbox.execute.
    destruct (IsolatedSandbox.isolate (IsolatedSandbox.after first)) as [i|];
      [|congruence].
    rewrite Hctx. cbn [IsolatedSandbox.is_none orb IsolatedSandbox.context
                       IsolatedSandbox.timeout app].
    rewrite Htime, ?Hctx.
    destruct (IsolatedSandbox.ending run') as [|[message|]];
      [split; reflexivity | | split; reflexivity].
    destruct (includes (lit "Script execution timed out") message);
      [split; reflexivity|].
    destruct (includes (lit "Isolate was disposed") message); split; reflexivity.
  - intros message Hend Htimeout Hdisposed fresh.
    assert (Hafter : IsolatedSandbox.isolate (IsolatedSandbox.after first) = None
                     /\ IsolatedSandbox.memoryLimit (IsolatedSandbox.after first)
                        = IsolatedSandbox.memoryLimit this
                     /\ IsolatedSandbox.timeout (IsolatedSandbox.after first)
                        = IsolatedSandbox.timeout this).
    { subst first. unfold IsolatedSandbox.execute.
      destruct (IsolatedSandbox.is_none (IsolatedSandbox.isolate this)
                || IsolatedSandbox.is_none (IsolatedSandbox.context this));
        cbn [IsolatedSandbox.initialize IsolatedSandbox.memoryLimit
             IsolatedSandbox.timeout];
        rewrite Hend, Htimeout, Hdisposed; now repeat split. }
    destruct Hafter as (Hiso & Hmem & Htime).
    subst second fresh. unfold IsolatedSandbox.execute at 1 2.
    rewrite Hiso. cbn [IsolatedSandbox.is_none orb IsolatedSandbox.initialize
                       IsolatedSandbox.context IsolatedSandbox.timeout
                       IsolatedSandbox.memoryLimit].
    rewrite Hmem, Htime.
    destruct (IsolatedSandbox.ending run') as [|[message'|]];
      [split; reflexivity | | split; reflexivity].
    destruct (includes (lit "Script execution timed out") message');
      [split; reflexivity|].
    destruct (includes (lit "Isolate was disposed") message'); split; reflexivity.
Qed.

(** X6.  An evaluation that raises the timeout of the isolation layer
    is reported as [Execution timeout (<timeout>ms exceeded)], with the
    lines printed until then, and the sandbox keeps its isolate and its
    context; the timeout test comes first, so this also holds of a message
    that speaks of a disposed isolate as well. *)
Theorem execute_timeout (this : IsolatedSandbox.Sandbox) (created : nat)
    (code : jsstring) (mcpHandler : bool) (run : IsolatedSandbox.Run object)
    (message : jsstring) :
  IsolatedSandbox.ending run = IsolatedSandbox.Raised (Some message) ->
  includes (lit "Script execution timed out") message = true ->
  let first := execute this created code mcpHandler run in
  IsolatedSandbox.returned first
  = Some (IsolatedSandbox.mkResult false
            (Some (lit "Execution timeout ("
                   ++ decimal (IsolatedSandbox.timeout this)
                   ++ lit "ms exceeded)"))
            (map (console_line JSON_stringify) (IsolatedSandbox.console_calls run)))
  /\ IsolatedSandbox.isolate (IsolatedSandbox.after first) <> None
  /\ IsolatedSandbox.context (IsolatedSandbox.after first) <> None.
Proof.
  intros Hend Htimeout first.
  assert (Hkeep : keeps_isolate run = true)
    by (unfold keeps_isolate; now rewrite Hend, Htimeout).
  destruct (execute_after this created code mcpHandler run Hkeep)
    as (c & Hiso & Hctx & _).
  fold first in Hiso, Hctx. split; [|split; [exact Hiso | congruence]].
  pose proof (proj2 (execute_logs this created code mcpHandler run)) as Hout.
  fold first in Hout. revert Hout. subst first.
  unfold IsolatedSandbox.execute.
  destruct (IsolatedSandbox.is_none (IsolatedSandbox.isolate this)
            || IsolatedSandbox.is_none (IsolatedSandbox.context this));
    cbn [IsolatedSandbox.initialize IsolatedSandbox.timeout];
    rewrite Hend, Htimeout; cbn [IsolatedSandbox.returned];
    intros Hout; specialize (Hout _ eq_refl);
    cbn [IsolatedSandbox.output] in Hout; now rewrite Hout.
Qed.

(** X7.  After [dispose] the sandbox holds no isolate: a second
    [dispose] calls nothing, [getMemoryUsage] answers [null], and the next
    [execute] creates a new isolate under the same memory limit; and after
    an evaluation that ended with the disposal of the isolate, [dispose]
    has nothing left to release. *)
Theorem dispose_releases_once (this : IsolatedSandbox.Sandbox) :
  let disposed := fst (IsolatedSandbox.dispose this) in
  IsolatedSandbox.dispose disposed = (disposed, [])
  /\ (forall used total, IsolatedSandbox.getMemoryUsage disposed used total = None)
  /\ (forall created code mcpHandler run,
        IsolatedSandbox.ivm_calls (execute disposed created code mcpHandler run)
        = [IsolatedSandbox.NewIsolate (IsolatedSandbox.memoryLimit this) created;
           IsolatedSandbox.Bootstrap created]
          ++ (if mcpHandler then [IsolatedSandbox.SetupMCPProxy created] else [])
          ++ [IsolatedSandbox.Eval created code (IsolatedSandbox.timeout this)])
  /\ (forall created code mcpHandler run,
        keeps_isolate run = false ->
        snd (IsolatedSandbox.dispose
               (IsolatedSandbox.after (execute this created code mcpHandler run)))
        = []).
Proof.
  intros disposed. subst disposed. unfold IsolatedSandbox.dispose at 1 2 3 4.
  cbn [fst IsolatedSandbox.isolate IsolatedSandbox.context
       IsolatedSandbox.memoryLimit IsolatedSandbox.timeout IsolatedSandbox.logs app].
  split; [reflexivity | split; [reflexivity | split]].
  - intros created code mcpHandler run.
    now apply (execute_reinitializes object JSON_stringify).
  - intros created code mcpHandler run. unfold keeps_isolate. intros Hkeep.
    unfold IsolatedSandbox.execute.
    destruct (IsolatedSandbox.is_none (IsolatedSandbox.isolate this)
              || IsolatedSandbox.is_none (IsolatedSandbox.context this));
      cbn [IsolatedSandbox.initialize];
      (destruct (IsolatedSandbox.ending run) as [|[message|]];
       try discriminate Hkeep;
       destruct (includes (lit "Script execution timed out") message);
       try discriminate Hkeep;
       destruct (includes (lit "Isolate was disposed") message);
       try discriminate Hkeep); reflexivity.
Qed.

End Isolated.

Lemma execute_output_is_this_run_witness :
  exists r,
    IsolatedSandbox.returned
      (IsolatedSandbox.execute (fun _ : unit => IsolatedSandbox.Fails)
         (IsolatedSandbox.mkSandbox 128 5000 None None [lit "stale"]) 0%nat
         (lit "console.log('a'); console.warn(null); x()") false
         (IsolatedSandbox.mkRun unit
            [(IsolatedSandbox.log, [IsolatedSandbox.AStr (lit "a")]);
             (IsolatedSandbox.warn, [IsolatedSandbox.ANull])]
            (IsolatedSandbox.Raised (Some (lit "x is not defined")))))
    = Some r
    /\ IsolatedSandbox.output r = [lit "a"; lit "WARN: null"].
Proof.
  destruct (execute_output_is_this_run unit (fun _ : unit => IsolatedSandbox.Fails)
              (IsolatedSandbox.constructor None None) 0%nat
              (lit "console.log('a'); console.warn(null); x()") false
              (IsolatedSandbox.mkRun unit
                 [(IsolatedSandbox.log, [IsolatedSandbox.AStr (lit "a")]);
                  (IsolatedSandbox.warn, [IsolatedSandbox.ANull])]
                 (IsolatedSandbox.Raised (Some (lit "x is not defined"))))
              [lit "stale"]
              ltac:(discriminate))
    as (r & Hr & Hout & _).
  exists r. split; [exact Hr | exact Hout].
Defined.

Lemma execute_reuses_context_witness :
  let execute := IsolatedSandbox.execute (fun _ : unit => IsolatedSandbox.Fails) in
  let completes := IsolatedSandbox.mkRun unit [] IsolatedSandbox.Completed in
  let throws :=
    IsolatedSandbox.mkRun unit []
      (IsolatedSandbox.Raised (Some (lit "Isolate was disposed"))) in
  (exists c,
     IsolatedSandbox.ivm_calls
       (execute
          (IsolatedSandbox.after
             (execute (IsolatedSandbox.constructor None None) 0%nat
                (lit "globalThis.secret = 1") false completes))
          1%nat (lit "console.log(secret)") false completes)
     = [IsolatedSandbox.Eval c (lit "console.log(secret)") 5000])
  /\ IsolatedSandbox.ivm_calls
       (execute
          (IsolatedSandbox.after
             (execute (IsolatedSandbox.constructor None None) 0%nat
                (lit "throw new Error('Isolate was disposed')") false throws))
          1%nat (lit "console.log(secret)") false completes)
     = [IsolatedSandbox.NewIsolate 128 1; IsolatedSandbox.Bootstrap 1;
        IsolatedSandbox.Eval 1%nat (lit "console.log(secret)") 5000].
Proof.
  intros execute completes throws. split.
  - destruct (proj1 (execute_reuses_context unit
                       (fun _ : unit => IsolatedSandbox.Fails)
                       (IsolatedSandbox.constructor None None) 0%nat
                       (lit "globalThis.secret = 1") (lit "console.log(secret)")
                       false false completes completes) eq_refl)
      as (c & _ & Hcalls & _).
    exists c. exact Hcalls.
  - exact (proj1 (proj2 (execute_reuses_context unit
                           (fun _ : unit => IsolatedSandbox.Fails)
                           (IsolatedSandbox.constructor None None) 0%nat
                           (lit "throw new Error('Isolate was disposed')")
                           (lit "console.log(secret)")
                           false false throws completes)
                    (lit "Isolate was disposed") eq_refl eq_refl eq_refl)).
Defined.

Lemma execute_timeout_witness :
  IsolatedSandbox.returned
    (IsolatedSandbox.execute (fun _ : unit => IsolatedSandbox.Fails)
       (IsolatedSandbox.constructor None (Some 100%nat)) 0%nat
       (lit "console.log('start'); while (true) {}") false
       (IsolatedSandbox.mkRun unit
          [(IsolatedSandbox.log, [IsolatedSandbox.AStr (lit "start")])]
          (IsolatedSandbox.Raised (Some (lit "Script execution timed out.")))))
  = Some (IsolatedSandbox.mkResult false
            (Some (lit "Execution timeout (100ms exceeded)")) [lit "start"]).
Proof.
  exact (proj1 (execute_timeout unit (fun _ : unit => IsolatedSandbox.Fails)
                  (IsolatedSandbox.constructor None (Some 100%nat)) 0%nat
                  (lit "console.log('start'); while (true) {}") false
                  (IsolatedSandbox.mkRun unit
                     [(IsolatedSandbox.log, [IsolatedSandbox.AStr (lit "start")])]
                     (IsolatedSandbox.Raised
                        (Some (lit "Script execution timed out."))))
                  (lit "Script execution timed out.") eq_refl eq_refl)).
Defined.

(* ===================================================================== *)
(** * Identifiers of tools                                                *)
(* ===================================================================== *)

Lemma sanitizeName_word (name : jsstring) :
  Forall (fun c => is_word c = true) (SchemaToTypes.sanitizeName name).
Proof.
  unfold SchemaToTypes.sanitizeName. apply Forall_forall. intros c Hin.
  apply in_map_iff in Hin as (x & <- & _).
  destruct (is_word x) eqn:E; [exact E | reflexivity].
Qed.

Lemma sanitizeName_fixes (name : jsstring) :
  Forall (fun c => is_word c = true) name ->
  SchemaToTypes.sanitizeName name = name.
Proof.
  unfold SchemaToTypes.sanitizeName. induction 1 as [|c name Hc _ IH]; simpl.
  - reflexivity.
  - now rewrite Hc, IH.
Qed.

Lemma sanitizeName_idem (name : jsstring) :
  SchemaToTypes.sanitizeName (SchemaToTypes.sanitizeName name)
  = SchemaToTypes.sanitizeName name.
Proof. apply sanitizeName_fixes, sanitizeName_word. Qed.

(** X20.  The identifier [sanitizeName] gives holds letters, digits and
    underscores only; sanitizing it again changes nothing; the names the
    rule leaves as they are are exactly those made of such characters; and
    a call written with the identifier of a tool of non-empty name is one
    the usage check reads that identifier from. *)
Theorem sanitizeName_gives_identifier (name : jsstring) :
  Forall (fun c => is_word c = true) (SchemaToTypes.sanitizeName name)
  /\ SchemaToTypes.sanitizeName (SchemaToTypes.sanitizeName name)
     = SchemaToTypes.sanitizeName name
  /\ (SchemaToTypes.sanitizeName name = name
      <-> Forall (fun c => is_word c = true) name)
  /\ (name <> [] ->
      forall before rest,
        In (SchemaToTypes.sanitizeName name)
           (Validator.usedTools
              (before ++ lit "mcp." ++ SchemaToTypes.sanitizeName name
               ++ lit "(" ++ rest))).
Proof.
  split; [apply sanitizeName_word | split; [apply sanitizeName_idem | split]].
  - split.
    + intros <-. apply sanitizeName_word.
    + apply sanitizeName_fixes.
  - intros Hname before rest. apply In_usedTools. split.
    + split; [|apply sanitizeName_word].
      destruct name; [contradiction | discriminate].
    + now exists before, rest.
Qed.

(* ===================================================================== *)
(** * The bridge: which tool a call reaches                               *)
(* ===================================================================== *)

Lemma names_identifier (toolName : jsstring) (t : SchemaToTypes.ToolDescriptor) :
  MCPBridge.names toolName t = true ->
  identifier_of t = SchemaToTypes.sanitizeName toolName.
Proof.
  unfold MCPBridge.names, identifier_of. intros H.
  apply orb_prop in H as [H|H]; apply str_eqb_eq in H.
  - now rewrite <- H, sanitizeName_idem.
  - now rewrite H.
Qed.

Lemma NoDup_map_In {A B} (f : A -> B) (l : list A) (x y : A) :
  NoDup (map f l) -> In x l -> In y l -> f x = f y -> x = y.
Proof.
  induction l as [|a l IH]; [contradiction|].
  cbn [map]. intros Hnd Hx Hy Hf. inversion Hnd as [|? ? Hnot Hnd']; subst.
  destruct Hx as [->|Hx], Hy as [->|Hy].
  - reflexivity.
  - exfalso. apply Hnot. rewrite Hf. now apply in_map.
  - exfalso. apply Hnot. rewrite <- Hf. now apply in_map.
  - now apply IH.
Qed.

Section Resolution.

Variable client_callTool : jsstring -> value -> MCPBridge.reply.
Variable JSON_parse : jsstring -> option json.

Local Abbreviation callTool :=
  (MCPBridge.callTool client_callTool JSON_parse).

Lemma callTool_found (this : MCPBridge.Bridge) (toolName : jsstring)
    (args : value) (t : SchemaToTypes.ToolDescriptor) :
  MCPBridge.client this = true ->
  find (MCPBridge.names toolName) (MCPBridge.tools this) = Some t ->
  MCPBridge.requests (callTool this toolName args)
  = [(SchemaToTypes.name t, arguments_sent args)].
Proof.
  intros Hc Hfind. unfold MCPBridge.callTool. now rewrite Hc, Hfind.
Qed.

(** X8.  When the tools of the server have pairwise distinct
    identifiers, a call under the identifier of a tool, or under its name
    as advertised, sends one request to the server, for that tool under
    its advertised name, with the arguments given (an empty object when
    none are). *)
Theorem callTool_resolves_identifier (this : MCPBridge.Bridge)
    (t : SchemaToTypes.ToolDescriptor) (toolName : jsstring) (args : value) :
  MCPBridge.client this = true ->
  NoDup (map identifier_of (MCPBridge.tools this)) ->
  In t (MCPBridge.tools this) ->
  toolName = identifier_of t \/ toolName = SchemaToTypes.name t ->
  MCPBridge.requests (callTool this toolName args)
  = [(SchemaToTypes.name t, arguments_sent args)].
Proof.
  intros Hc Hnd Hin Hname.
  assert (Ht : MCPBridge.names toolName t = true).
  { unfold MCPBridge.names. destruct Hname as [->| ->].
    - unfold identifier_of. now rewrite str_eqb_refl.
    - rewrite (str_eqb_refl (SchemaToTypes.name t)). apply orb_true_r. }
  destruct (find (MCPBridge.names toolName) (MCPBridge.tools this)) as [u|] eqn:Hfind.
  - apply find_some in Hfind as Hu. destruct Hu as [Hu Hnames].
    assert (u = t) as ->.
    { apply (NoDup_map_In identifier_of (MCPBridge.tools this)); try assumption.
      now rewrite (names_identifier _ _ Hnames), (names_identifier _ _ Ht). }
    now apply callTool_found.
  - rewrite (find_none _ _ Hfind t Hin) in Ht. discriminate.
Qed.

(** X9.  [callTool] sends at most one request, and only for a tool the
    server advertised whose identifier or name is the one called; without
    a client it ends with [Not connected to MCP server], and when no tool
    answers to the name with [Unknown MCP tool: <name>], in both cases
    without a request to the server. *)
Theorem callTool_asks_for_known_tools (this : MCPBridge.Bridge)
    (toolName : jsstring) (args : value) :
  let called := callTool this toolName args in
  (MCPBridge.requests called = []
   \/ exists t,
        In t (MCPBridge.tools this)
        /\ (identifier_of t = toolName \/ SchemaToTypes.name t = toolName)
        /\ MCPBridge.requests called
           = [(SchemaToTypes.name t, arguments_sent args)])
  /\ (MCPBridge.client this = false ->
      called = MCPBridge.mkCalled
                 (MCPBridge.Throws (lit "Not connected to MCP server")) [])
  /\ (MCPBridge.client this = true ->
      (forall t, In t (MCPBridge.tools this) ->
                 identifier_of t <> toolName /\ SchemaToTypes.name t <> toolName) ->
      called = MCPBridge.mkCalled
                 (MCPBridge.Throws (lit "Unknown MCP tool: " ++ toolName)) []).
Proof.
  intros called. subst called. split; [|split].
  - destruct (MCPBridge.client this) eqn:Hc.
    + destruct (find (MCPBridge.names toolName) (MCPBridge.tools this))
        as [t|] eqn:Hfind.
      * right. exists t. apply find_some in Hfind as Ht. destruct Ht as [Hin Hn].
        split; [exact Hin | split].
        -- unfold MCPBridge.names in Hn.
           apply orb_prop in Hn as [Hn|Hn]; apply str_eqb_eq in Hn; auto.
        -- now apply callTool_found.
      * left. unfold MCPBridge.callTool. now rewrite Hc, Hfind.
    + left. unfold MCPBridge.callTool. now rewrite Hc.
  - intros Hc. unfold MCPBridge.callTool. now rewrite Hc.
  - intros Hc Hnone. unfold MCPBridge.callTool. rewrite Hc. cbn [negb].
    destruct (find (MCPBridge.names toolName) (MCPBridge.tools this))
      as [t|] eqn:Hfind; [|reflexivity].
    apply find_some in Hfind as [Hin Hn]. destruct (Hnone t Hin) as [H1 H2].
    unfold MCPBridge.names in Hn.
    apply orb_prop in Hn as [Hn|Hn]; apply str_eqb_eq in Hn; contradiction.
Qed.

Lemma find_app_first {A} (p : A -> bool) (before after : list A) (x : A) :
  (forall y, In y before -> p y = false) -> p x = true ->
  find p (before ++ x :: after) = Some x.
Proof.
  intros Hb Hx. induction before as [|y before IH]; cbn [app find].
  - now rewrite Hx.
  - rewrite (Hb y (or_introl eq_refl)). apply IH. intros z Hz. apply Hb. now right.
Qed.

(** X10.  When two tools with distinct advertised names share an
    identifier, a call under that identifier never reaches the tool
    listed second: the request goes to a tool listed no later than the
    first of the two, under a name that is not the second tool's. *)
Theorem callTool_shadowed_tool (this : MCPBridge.Bridge)
    (before between after : list SchemaToTypes.ToolDescriptor)
    (t1 t2 : SchemaToTypes.ToolDescriptor) (toolName : jsstring) (args : value) :
  MCPBridge.client this = true ->
  MCPBridge.tools this = before ++ t1 :: between ++ t2 :: after ->
  NoDup (map SchemaToTypes.name (MCPBridge.tools this)) ->
  identifier_of t1 = identifier_of t2 ->
  toolName = identifier_of t2 ->
  exists u,
    In u (before ++ [t1])
    /\ SchemaToTypes.name u <> SchemaToTypes.name t2
    /\ MCPBridge.requests (callTool this toolName args)
       = [(SchemaToTypes.name u, arguments_sent args)].
Proof.
  intros Hc Htools Hnd Hsame ->.
  assert (H1 : MCPBridge.names (identifier_of t2) t1 = true).
  { unfold MCPBridge.names. fold (identifier_of t1).
    now rewrite Hsame, str_eqb_refl. }
  assert (Hex : exists u, find (MCPBridge.names (identifier_of t2))
                               (MCPBridge.tools this) = Some u
                          /\ In u (before ++ [t1])).
  { rewrite Htools. clear Htools Hnd.
    induction before as [|b before IH]; cbn [app find].
    - rewrite H1. exists t1. split; [reflexivity | now left].
    - destruct (MCPBridge.names (identifier_of t2) b).
      + exists b. split; [reflexivity | now left].
      + destruct IH as (u & Hu & Hin). exists u. split; [exact Hu | now right]. }
  destruct Hex as (u & Hfind & Hin). exists u. split; [exact Hin | split].
  - intros Heq. rewrite Htools in Hnd.
    replace (before ++ t1 :: between ++ t2 :: after)
      with (((before ++ [t1]) ++ between) ++ t2 :: after) in Hnd
      by (now rewrite <- !app_assoc).
    rewrite map_app in Hnd. cbn [map] in Hnd.
    apply NoDup_remove_2 in Hnd. apply Hnd.
    apply in_or_app. left. rewrite <- Heq. apply in_map.
    apply in_or_app. now left.
  - now apply callTool_found.
Qed.

End Resolution.

Lemma callTool_resolves_identifier_witness :
  MCPBridge.requests
    (MCPBridge.callTool (fun _ _ => MCPBridge.Resolves []) (fun _ => None)
       (MCPBridge.mkBridge true true sample_tools [])
       (lit "search_music_") None)
  = [(lit "search-music!", Some (JObj []))].
Proof.
  refine (callTool_resolves_identifier
            (fun _ _ => MCPBridge.Resolves []) (fun _ => None)
            (MCPBridge.mkBridge true true sample_tools [])
            (SchemaToTypes.mkTool (lit "search-music!")
               (Some (lit "Search the library." ++ newline
                      ++ lit "Returns tracks."))
               (Some (JObj [(lit "type", JStr (lit "object"));
                            (lit "properties",
                             JObj [(lit "q", JObj [(lit "type", JStr (lit "string"))])]);
                            (lit "required", JArr [JStr (lit "q")])])))
            (lit "search_music_") None eq_refl _ (or_introl eq_refl)
            (or_introl eq_refl)).
  repeat constructor; cbn; intuition discriminate.
Defined.

(** The tool [a_b] cannot be called when [a-b] is listed before it. *)
Lemma callTool_shadowed_tool_witness :
  exists u,
    In u ([] ++ [SchemaToTypes.mkTool (lit "a-b") None None])
    /\ SchemaToTypes.name u <> lit "a_b"
    /\ MCPBridge.requests
         (MCPBridge.callTool (fun _ _ => MCPBridge.Resolves []) (fun _ => None)
            (MCPBridge.mkBridge true true
               [SchemaToTypes.mkTool (lit "a-b") None None;
                SchemaToTypes.mkTool (lit "a_b") None None] [])
            (lit "a_b") None)
       = [(SchemaToTypes.name u, arguments_sent None)].
Proof.
  refine (callTool_shadowed_tool
            (fun _ _ => MCPBridge.Resolves []) (fun _ => None)
            (MCPBridge.mkBridge true true
               [SchemaToTypes.mkTool (lit "a-b") None None;
                SchemaToTypes.mkTool (lit "a_b") None None] [])
            [] [] []
            (SchemaToTypes.mkTool (lit "a-b") None None)
            (SchemaToTypes.mkTool (lit "a_b") None None)
            (lit "a_b") None eq_refl eq_refl _ eq_refl eq_refl).
  repeat constructor; cbn; intuition discriminate.
Defined.

Section Lifecycle.

Variables toUpperCase toLowerCase : jsstring -> jsstring.
Variable client_callTool : jsstring -> value -> MCPBridge.reply.
Variable JSON_parse : jsstring -> option json.

Local Abbreviation connect := (MCPBridge.connect toUpperCase toLowerCase).

(** X11.  [connect] sets the client before the server has answered: when
    the server refuses the connection or the listing, the attempt on a
    fresh bridge fails and leaves a bridge that says it is connected, on
    which every further [connect] ends with [Already connected to MCP
    server] and every [callTool] with [Unknown MCP tool: <name>];
    [disconnect] brings the fresh state back. *)
Theorem connect_failure_leaves_client (server : MCPBridge.Server) :
  refuses server = true ->
  let attempt := connect MCPBridge.constructor server in
  let this := fst attempt in
  snd attempt = Some MCPBridge.SdkRejection
  /\ MCPBridge.isConnected this = true
  /\ (forall server',
        connect this server'
        = (this, Some (MCPBridge.NewError (lit "Already connected to MCP server"))))
  /\ (forall toolName args,
        MCPBridge.callTool client_callTool JSON_parse this toolName args
        = MCPBridge.mkCalled
            (MCPBridge.Throws (lit "Unknown MCP tool: " ++ toolName)) [])
  /\ MCPBridge.disconnect this true true = (MCPBridge.constructor, None).
Proof.
  intros Href attempt this.
  assert (Hthis : attempt
                  = (MCPBridge.mkBridge true true [] [],
                     Some MCPBridge.SdkRejection)).
  { subst attempt. unfold MCPBridge.connect, MCPBridge.constructor. cbn.
    unfold refuses in Href.
    destruct (MCPBridge.accepts server); cbn in *; [|reflexivity].
    destruct (MCPBridge.listTools server); [reflexivity | discriminate]. }
  subst this. rewrite Hthis. cbn [fst snd]. repeat split.
Qed.

End Lifecycle.

Lemma connect_failure_leaves_client_witness :
  MCPBridge.isConnected
    (fst (MCPBridge.connect SchemaToTypes.ascii_upper SchemaToTypes.ascii_lower
            MCPBridge.constructor
            (MCPBridge.mkServer false MCPBridge.ListToolsRejects)))
  = true.
Proof.
  exact (proj1 (proj2 (connect_failure_leaves_client
                         SchemaToTypes.ascii_upper SchemaToTypes.ascii_lower
                         (fun _ _ => MCPBridge.Resolves []) (fun _ => None)
                         (MCPBridge.mkServer false MCPBridge.ListToolsRejects)
                         eq_refl))).
Defined.

(* ===================================================================== *)
(** * Lines of text, and the marker of the submission                     *)
(* ===================================================================== *)

Lemma split_on_nonempty (sep : code_unit -> bool) (s : jsstring) :
  split_on sep s <> [].
Proof.
  destruct s as [|c s]; simpl; [discriminate|].
  destruct (sep c); [discriminate|].
  destruct (split_on sep s); discriminate.
Qed.

Lemma split_on_app (sep : code_unit -> bool) (a b : jsstring) (c : code_unit) :
  sep c = true ->
  split_on sep (a ++ c :: b) = split_on sep a ++ split_on sep b.
Proof.
  intros Hc. induction a as [|x a IH]; simpl.
  - now rewrite Hc.
  - rewrite IH. destruct (sep x); [reflexivity|].
    pose proof (split_on_nonempty sep a) as Hne.
    destruct (split_on sep a); [contradiction | reflexivity].
Qed.

Lemma split_on_no_separator (sep : code_unit -> bool) (s : jsstring) :
  forallb (fun c => negb (sep c)) s = true -> split_on sep s = [s].
Proof.
  induction s as [|c s IH]; simpl; [reflexivity|].
  intros H. apply andb_prop in H as [Hc Hs].
  destruct (sep c); [discriminate|]. now rewrite (IH Hs).
Qed.

Lemma join_cons (sep p : jsstring) (rest : list jsstring) :
  rest <> [] -> join sep (p :: rest) = p ++ sep ++ join sep rest.
Proof. destruct rest; [contradiction | reflexivity]. Qed.

Lemma join_split_on (c0 : code_unit) (s : jsstring) :
  join [c0] (split_on (fun c => c =? c0) s) = s.
Proof.
  induction s as [|c s IH]; [reflexivity|].
  simpl split_on. pose proof (split_on_nonempty (fun c => c =? c0) s) as Hne.
  destruct (N.eqb_spec c c0) as [->|Hc].
  - rewrite join_cons, IH by assumption. reflexivity.
  - destruct (split_on (fun c => c =? c0) s) as [|p ps] eqn:E; [contradiction|].
    destruct ps as [|q ps].
    + simpl in *. now rewrite IH.
    + rewrite join_cons in * by discriminate. now rewrite <- IH.
Qed.

Lemma split_on_first (sep : code_unit -> bool) (s p : jsstring)
    (ps : list jsstring) :
  split_on sep s = p :: ps -> exists post, s = p ++ post.
Proof.
  revert p ps. induction s as [|c s IH]; intros p ps; simpl.
  - intros [= <- _]. now exists [].
  - destruct (sep c).
    + intros [= <- _]. now exists (c :: s).
    + pose proof (split_on_nonempty sep s) as Hne.
      destruct (split_on sep s) as [|q qs]; [contradiction|].
      intros [= <- _]. destruct (IH q qs eq_refl) as [post ->].
      now exists post.
Qed.

Lemma In_split_on (sep : code_unit -> bool) (s l : jsstring) :
  In l (split_on sep s) -> exists pre post, s = pre ++ l ++ post.
Proof.
  revert l. induction s as [|c s IH]; intros l; simpl.
  - intros [<-|[]]. now exists [], [].
  - destruct (sep c).
    + intros [<-|Hin].
      * now exists [], (c :: s).
      * destruct (IH l Hin) as (pre & post & ->). now exists (c :: pre), post.
    + pose proof (split_on_nonempty sep s) as Hne.
      destruct (split_on sep s) as [|p ps] eqn:E; [contradiction|].
      intros [<-|Hin].
      * destruct (split_on_first sep s p ps E) as [post ->].
        now exists [], post.
      * destruct (IH l (or_intror Hin)) as (pre & post & ->).
        now exists (c :: pre), post.
Qed.

Lemma includes_within (p l pre post : jsstring) :
  includes p l = true -> includes p (pre ++ l ++ post) = true.
Proof.
  intros H. apply includes_spec in H as (a & b & ->).
  apply includes_spec. exists (pre ++ a), (b ++ post).
  now rewrite <- !app_assoc.
Qed.

Lemma includes_line (p s l : jsstring) :
  includes p s = false -> In l (lines_of s) -> includes p l = false.
Proof.
  intros Hs Hl. apply In_split_on in Hl as (pre & post & ->).
  destruct (includes p l) eqn:E; [|reflexivity].
  now rewrite (includes_within p l pre post E) in Hs.
Qed.

Lemma find_marker_none (lines : list jsstring) :
  (forall l, In l lines -> includes marker l = false) ->
  Validator.find_marker lines = None.
Proof.
  induction lines as [|l lines IH]; intros H; simpl; [reflexivity|].
  fold marker. rewrite (H l (or_introl eq_refl)), IH; [reflexivity|].
  intros l' Hl'. apply H. now right.
Qed.

Lemma find_marker_app (a b : list jsstring) :
  Validator.find_marker a = None ->
  Validator.find_marker (a ++ b)
  = option_map (Nat.add (length a)) (Validator.find_marker b).
Proof.
  induction a as [|l a IH]; simpl.
  - intros _. now destruct (Validator.find_marker b).
  - destruct (includes (lit "// User code") l); [discriminate|].
    destruct (Validator.find_marker a); [discriminate|]. intros _.
    rewrite IH by reflexivity. now destruct (Validator.find_marker b).
Qed.

Lemma lines_of_app (a b : jsstring) :
  lines_of (a ++ newline ++ b) = lines_of a ++ lines_of b.
Proof. unfold lines_of. now apply split_on_app. Qed.

Lemma lines_of_marker : lines_of marker = [marker].
Proof. reflexivity. Qed.

(** The text after the first line holding the marker, trimmed. *)
Lemma extractUserCode_after_marker (pre body : jsstring) :
  includes marker pre = false ->
  Validator.extractUserCode (pre ++ newline ++ marker ++ newline ++ body)
  = Validator.trim body.
Proof.
  intros Hpre. unfold Validator.extractUserCode.
  change (split_on (fun c => c =? 10)) with lines_of.
  rewrite !lines_of_app, lines_of_marker.
  rewrite find_marker_app
    by (apply find_marker_none; intros l; apply includes_line, Hpre).
  cbn [Validator.find_marker app]. fold marker.
  replace (includes marker marker) with true by reflexivity.
  cbn [option_map]. rewrite Nat.add_0_r.
  replace (length (lines_of pre) + 1)%nat with (length (lines_of pre ++ [marker]))
    by (rewrite length_app; reflexivity).
  change (lines_of pre ++ marker :: lines_of body)
    with (lines_of pre ++ [marker] ++ lines_of body).
  rewrite app_assoc, skipn_app, skipn_all, Nat.sub_diag. simpl skipn.
  cbn [app]. f_equal. exact (join_split_on 10 body).
Qed.

Lemma extractUserCode_no_marker (text : jsstring) :
  includes marker text = false -> Validator.extractUserCode text = text.
Proof.
  intros H. unfold Validator.extractUserCode.
  change (split_on (fun c => c =? 10)) with lines_of.
  rewrite find_marker_none; [reflexivity|].
  intros l. now apply includes_line.
Qed.

(* ===================================================================== *)
(** * The validator: what it returns and where it reports                 *)
(* ===================================================================== *)

Section StrippedPreamble.

Variable diagnostic : Type.
Variable transpileModule :
  jsstring -> jsstring * list diagnostic * option jsstring.
Variable formatErrorMessages : list diagnostic -> jsstring -> jsstring.

Local Abbreviation validate :=
  (Validator.validate transpileModule formatErrorMessages).

(** X12.  When the compiler reports nothing, [validate] succeeds with
    what the compiled text holds after its first line carrying the marker
    comment, trimmed: the interface text put before the submission is cut
    off.  When the compiled text carries no marker, [validate] returns it
    whole, the compiled interface text included. *)
Theorem validate_strips_preamble (code types output : jsstring)
    (sourceMap : option jsstring) :
  transpileModule (fullSource code types) = (output, [], sourceMap) ->
  (forall pre body,
      output = pre ++ newline ++ marker ++ newline ++ body ->
      includes marker pre = false ->
      validate code types = Validator.Passed (Validator.trim body) sourceMap)
  /\ (includes marker output = false ->
      validate code types = Validator.Passed output sourceMap).
Proof.
  intros Hout. unfold Validator.validate.
  change (transpileModule _) with (transpileModule (fullSource code types)).
  rewrite Hout. split.
  - intros pre body -> Hpre. now rewrite extractUserCode_after_marker.
  - intros Hno. now rewrite extractUserCode_no_marker.
Qed.

End StrippedPreamble.

(** A compiler that answers with the submission behind a directive and
    the marker, as [ts.transpileModule] does for plain JavaScript. *)
Lemma validate_strips_preamble_witness :
  Validator.validate
    (fun _ : jsstring =>
       (lit "'use strict';" ++ newline ++ marker ++ newline
        ++ lit "  console.log(1);" ++ newline,
        @nil unit, None))
    (fun _ _ => [])
    (lit "  console.log(1);") (lit "declare const mcp: {};")
  = Validator.Passed (lit "console.log(1);") None.
Proof.
  exact (proj1 (validate_strips_preamble unit
                  (fun _ : jsstring =>
                     (lit "'use strict';" ++ newline ++ marker ++ newline
                      ++ lit "  console.log(1);" ++ newline,
                      @nil unit, None))
                  (fun _ _ => [])
                  (lit "  console.log(1);") (lit "declare const mcp: {};")
                  _ None eq_refl)
               (lit "'use strict';") (lit "  console.log(1);" ++ newline)
               eq_refl eq_refl).
Defined.


Lemma lines_of_fullSource (code types : jsstring) :
  lines_of (fullSource code types)
  = ([] :: lit "// Type definitions" :: lines_of types ++ [[]; marker])
    ++ lines_of code ++ [[]].
Proof.
  unfold fullSource.
  change (newline ++ lit "// Type definitions" ++ newline ++ types ++ newline
          ++ newline ++ marker ++ newline ++ code ++ newline)
    with ([] ++ newline ++ lit "// Type definitions" ++ newline ++ types
          ++ newline ++ [] ++ newline ++ marker ++ newline ++ code
          ++ newline ++ []).
  rewrite !lines_of_app, lines_of_marker.
  change (lines_of []) with [@nil code_unit].
  change (lines_of (lit "// Type definitions")) with [lit "// Type definitions"].
  cbn [app]. now rewrite <- !app_assoc.
Qed.

Lemma find_marker_fullSource (code types : jsstring) :
  includes marker types = false ->
  Validator.find_marker (lines_of (fullSource code types))
  = Some (length (lines_of types) + 3)%nat.
Proof.
  intros Htypes. rewrite lines_of_fullSource.
  change ([] :: lit "// Type definitions" :: lines_of types ++ [[]; marker])
    with ([[]; lit "// Type definitions"] ++ lines_of types ++ [[]; marker]).
  rewrite <- !app_assoc.
  rewrite find_marker_app by reflexivity.
  rewrite find_marker_app
    by (apply find_marker_none; intros l; apply includes_line, Htypes).
  cbn [app Validator.find_marker]. fold marker.
  replace (includes marker []) with false by reflexivity.
  replace (includes marker marker) with true by reflexivity.
  cbn [option_map length]. f_equal. lia.
Qed.

Lemma nth_error_user_line (code types : jsstring) (k : nat) (l : jsstring) :
  nth_error (lines_of code) k = Some l ->
  nth_error (lines_of (fullSource code types)) (user_line types k) = Some l.
Proof.
  intros Hk. rewrite lines_of_fullSource. unfold user_line.
  rewrite nth_error_app2 by (cbn [length]; rewrite length_app; simpl; lia).
  replace (_ - _)%nat with k by (cbn [length]; rewrite length_app; simpl; lia).
  rewrite nth_error_app1; [assumption|].
  apply nth_error_Some. congruence.
Qed.

(** X13.  A diagnostic the compiler places on line [k] of the
    submission (counted from zero) is reported with line [k], its
    character as the column and that line of the submission, trimmed, as
    the code; the diagnostics keep their order; and the message shows
    the line and the column counted from one.  The interface text must not
    hold the marker comment itself. *)
Theorem formatDiagnostics_user_line
    (code types : jsstring) (k character : nat) (l text : jsstring)
    (category : Validator.DiagnosticCategory)
    (before after : list Validator.Diagnostic) :
  includes marker types = false ->
  nth_error (lines_of code) k = Some l ->
  let source := fullSource code types in
  let diagnostic :=
    Validator.mkDiagnostic text (Some (user_line types k, character)) category in
  let error :=
    Validator.mkFormattedError text (Some (Z.of_nat k)) (Some character)
      (Some (Validator.trim l)) (Validator.getSeverity category) in
  nth_error (lines_of source) (user_line types k) = Some l
  /\ Validator.formatDiagnostics (before ++ diagnostic :: after) source
     = Validator.formatDiagnostics before source
       ++ error :: Validator.formatDiagnostics after source
  /\ Validator.error_message error
     = SchemaToTypes.ascii_upper (Validator.getSeverity category)
       ++ lit ": " ++ text
       ++ lit " (line " ++ decimal (k + 1) ++ lit ", col "
       ++ decimal (character + 1) ++ lit ")"
       ++ match Validator.trim l with
          | [] => []
          | _ :: _ => newline ++ lit "  > " ++ Validator.trim l
          end.
Proof.
  intros Htypes Hk source diagnostic error.
  pose proof (nth_error_user_line code types k l Hk) as Hline.
  split; [exact Hline | split].
  - unfold Validator.formatDiagnostics. rewrite map_app. cbn [map].
    f_equal. f_equal. subst diagnostic error.
    cbn [Validator.position Validator.messageText Validator.category].
    change (split_on (fun c => c =? 10) source) with (lines_of source).
    subst source. rewrite find_marker_fullSource by assumption.
    rewrite (nth_error_nth _ _ _ Hline).
    f_equal. f_equal. unfold user_line. lia.
  - subst error. unfold Validator.error_message.
    cbn [Validator.severity Validator.message Validator.line Validator.column
         Validator.code].
    replace (Validator.integer_text (Z.of_nat k + 1))
      with (decimal (k + 1)).
    + destruct (Validator.trim l); now rewrite <- !app_assoc.
    + replace (Z.of_nat k + 1)%Z with (Z.pos (Pos.of_nat (k + 1))) by lia.
      cbn [Validator.integer_text]. f_equal. lia.
Qed.

Lemma formatDiagnostics_user_line_witness :
  Validator.formatErrorMessages
    (Validator.formatDiagnostics
       [Validator.mkDiagnostic (lit "Cannot find name 'y'.")
          (Some (user_line (lit "declare const mcp: {};") 1, 10%nat))
          Validator.Error]
       (fullSource (lit "let x = 1;" ++ newline ++ lit "  let z = y;")
          (lit "declare const mcp: {};")))
  = lit "ERROR: Cannot find name 'y'. (line 2, col 11)" ++ newline
    ++ lit "  > let z = y;".
Proof.
  pose proof (formatDiagnostics_user_line
                (lit "let x = 1;" ++ newline ++ lit "  let z = y;")
                (lit "declare const mcp: {};") 1%nat 10%nat (lit "  let z = y;")
                (lit "Cannot find name 'y'.") Validator.Error [] []
                eq_refl eq_refl) as (_ & Hlist & Hmessage).
  cbn [app] in Hlist. unfold Validator.formatErrorMessages.
  rewrite Hlist. cbn [Validator.formatDiagnostics map join app].
  rewrite Hmessage. reflexivity.
Defined.

(* ===================================================================== *)
(** * The error mapper: stack frames and the code around an error         *)
(* ===================================================================== *)


Lemma filter_none {A} (p : A -> bool) (l : list A) :
  (forall x, In x l -> p x = false) -> filter p l = [].
Proof.
  induction l as [|a l IH]; intros H; [reflexivity|]. simpl.
  rewrite (H a (or_introl eq_refl)). apply IH. intros x Hx. apply H. now right.
Qed.

Lemma filter_eqb_seq (e start len : nat) :
  (start < e <= start + len)%nat ->
  filter (fun i => Nat.eqb (i + 1) e) (seq start len) = [(e - 1)%nat].
Proof.
  revert start. induction len as [|len IH]; intros start H; [lia|].
  cbn [seq filter].
  destruct (Nat.eqb_spec (start + 1) e) as [E|E].
  - replace (e - 1)%nat with start by lia. f_equal.
    apply filter_none. intros i Hi. apply in_seq in Hi.
    apply Nat.eqb_neq. lia.
  - apply IH. lia.
Qed.

Lemma filter_map_comm {A B} (f : A -> B) (p : B -> bool) (l : list A) :
  filter p (map f l) = map f (filter (fun a => p (f a)) l).
Proof.
  induction l as [|a l IH]; [reflexivity|]. simpl.
  destruct (p (f a)); simpl; now rewrite IH.
Qed.

(** The window always holds the line of the error, once. *)
Lemma getCodeContext_error_line (code : jsstring) (errorLine contextLines : nat)
    (l : jsstring) :
  nth_error (lines_of code) (errorLine - 1) = Some l ->
  (1 <= errorLine)%nat ->
  filter ErrorMapper.isError
    (ErrorMapper.getCodeContext code errorLine contextLines)
  = [ErrorMapper.mkContextLine errorLine l true].
Proof.
  intros Hl Hpos. unfold ErrorMapper.getCodeContext.
  change (split_on (fun c => c =? 10) code) with (lines_of code).
  assert (Hlen : (errorLine - 1 < length (lines_of code))%nat)
    by (apply nth_error_Some; congruence).
  rewrite filter_map_comm. cbn [ErrorMapper.isError].
  rewrite filter_eqb_seq by lia.
  cbn [map]. rewrite (nth_error_nth _ _ _ Hl).
  replace (errorLine - 1 + 1)%nat with errorLine by lia.
  now rewrite Nat.eqb_refl.
Qed.

(** X14.  For an error line within the code, [getCodeContext] returns
    the lines numbered from [errorLine - contextLines] (at least 1) to
    [errorLine + contextLines] (at most the last line), in order; every
    entry carries the text of the line of its number; exactly one entry is
    flagged, the one of the error line; and there are at most
    [2 * contextLines + 1] entries. *)
Theorem getCodeContext_window (code : jsstring) (errorLine contextLines : nat) :
  (1 <= errorLine <= length (lines_of code))%nat ->
  let context := ErrorMapper.getCodeContext code errorLine contextLines in
  let first := Nat.max 1 (errorLine - contextLines) in
  let last := Nat.min (length (lines_of code)) (errorLine + contextLines) in
  map ErrorMapper.number context = seq first (last + 1 - first)
  /\ (forall entry, In entry context ->
        nth_error (lines_of code) (ErrorMapper.number entry - 1)
        = Some (ErrorMapper.text entry)
        /\ ErrorMapper.isError entry
           = Nat.eqb (ErrorMapper.number entry) errorLine)
  /\ (exists l,
        nth_error (lines_of code) (errorLine - 1) = Some l
        /\ filter ErrorMapper.isError context
           = [ErrorMapper.mkContextLine errorLine l true])
  /\ (length context <= 2 * contextLines + 1)%nat.
Proof.
  intros Hrange context first last.
  assert (Hctx : context
                 = map (fun i => ErrorMapper.mkContextLine (i + 1)
                                   (nth i (lines_of code) [])
                                   (Nat.eqb (i + 1) errorLine))
                       (seq (errorLine - contextLines - 1)
                            (last - (errorLine - contextLines - 1))))
    by reflexivity.
  split; [|split; [|split]].
  - rewrite Hctx, map_map. cbn [ErrorMapper.number].
    replace (last + 1 - first)%nat
      with (last - (errorLine - contextLines - 1))%nat by (subst first last; lia).
    replace first with (errorLine - contextLines - 1 + 1)%nat
      by (subst first; lia).
    generalize (last - (errorLine - contextLines - 1))%nat as len.
    generalize (errorLine - contextLines - 1)%nat as start.
    intros start len. revert start.
    induction len as [|len IH]; intros start; [reflexivity|].
    cbn [seq map]. f_equal. rewrite IH. f_equal. 
  - intros entry Hin. rewrite Hctx in Hin. apply in_map_iff in Hin as (i & <- & Hi).
    apply in_seq in Hi. cbn [ErrorMapper.number ErrorMapper.text ErrorMapper.isError].
    split; [|reflexivity].
    replace (i + 1 - 1)%nat with i by lia.
    apply nth_error_nth'. subst last. lia.
  - destruct (nth_error (lines_of code) (errorLine - 1)) as [l|] eqn:Hl.
    + exists l. split; [reflexivity|].
      apply getCodeContext_error_line; [assumption | lia].
    + apply nth_error_None in Hl. lia.
  - rewrite Hctx, length_map, length_seq. subst last. lia.
Qed.

Lemma getCodeContext_window_witness :
  map ErrorMapper.number
    (ErrorMapper.getCodeContext
       (lit "a" ++ newline ++ lit "b" ++ newline ++ lit "c" ++ newline
        ++ lit "d" ++ newline ++ lit "e") 4 1)
  = [3; 4; 5]%nat.
Proof.
  exact (proj1 (getCodeContext_window
                  (lit "a" ++ newline ++ lit "b" ++ newline ++ lit "c" ++ newline
                   ++ lit "d" ++ newline ++ lit "e") 4 1
                  (conj (le_S _ _ (le_S _ _ (le_S _ _ (le_n 1))))
                        (le_S _ _ (le_n 4))))).
Defined.

Lemma star_stops {R} (class : code_unit -> bool) (rest : jsstring)
    (k : jsstring -> option R) :
  stops class rest = true -> RegExp.star class rest k = k rest.
Proof.
  destruct rest as [|c rest]; [reflexivity|]. simpl.
  now destruct (class c).
Qed.

Lemma star_greedy {R} (class : code_unit -> bool) (run rest : jsstring)
    (k : jsstring -> option R) (r : R) :
  forallb class run = true -> stops class rest = true ->
  k rest = Some r ->
  RegExp.star class (run ++ rest) k = Some r.
Proof.
  intros Hrun Hstop Hk. induction run as [|c run IH]; cbn [app].
  - now rewrite star_stops.
  - cbn [forallb] in Hrun. apply andb_prop in Hrun as [Hc Hrun].
    cbn [RegExp.star]. now rewrite Hc, (IH Hrun).
Qed.

Lemma star_capture_greedy {R} (class : code_unit -> bool)
    (run rest taken : jsstring) (k : jsstring -> jsstring -> option R) (r : R) :
  forallb class run = true -> stops class rest = true ->
  k (taken ++ run) rest = Some r ->
  RegExp.star_capture class taken (run ++ rest) k = Some r.
Proof.
  intros Hrun Hstop. revert taken.
  induction run as [|c run IH]; intros taken Hk; cbn [app].
  - rewrite app_nil_r in Hk. destruct rest as [|c rest]; [exact Hk|].
    cbn [RegExp.star_capture]. simpl in Hstop.
    now destruct (class c).
  - cbn [forallb] in Hrun. apply andb_prop in Hrun as [Hc Hrun].
    cbn [RegExp.star_capture]. rewrite Hc, (IH Hrun (taken ++ [c])); [reflexivity|].
    now rewrite <- app_assoc.
Qed.

Lemma plus_capture_greedy {R} (class : code_unit -> bool)
    (run rest : jsstring) (k : jsstring -> jsstring -> option R) (r : R) :
  run <> [] -> forallb class run = true -> stops class rest = true ->
  k run rest = Some r ->
  RegExp.plus_capture class (run ++ rest) k = Some r.
Proof.
  intros Hne Hrun Hstop Hk. destruct run as [|c run]; [contradiction|].
  cbn [forallb] in Hrun. apply andb_prop in Hrun as [Hc Hrun].
  cbn [app RegExp.plus_capture]. rewrite Hc.
  now apply star_capture_greedy.
Qed.

Lemma lazy_star_first {R} (class : code_unit -> bool)
    (skipped rest : jsstring) (k : jsstring -> option R) (r : R) :
  forallb class skipped = true ->
  (forall c s, In c skipped -> k (c :: s) = None) ->
  k rest = Some r ->
  RegExp.lazy_star class (skipped ++ rest) k = Some r.
Proof.
  intros Hclass Hfail Hk. induction skipped as [|c skipped IH]; cbn [app].
  - destruct rest; cbn [RegExp.lazy_star]; now rewrite Hk.
  - cbn [forallb] in Hclass. apply andb_prop in Hclass as [Hc Hclass].
    cbn [RegExp.lazy_star]. rewrite (Hfail c _ (or_introl eq_refl)), Hc.
    apply IH; [assumption|]. intros c' s Hin. apply Hfail. now right.
Qed.

Lemma lazy_star_here {R} (class : code_unit -> bool) (s : jsstring)
    (k : jsstring -> option R) (r : R) :
  k s = Some r -> RegExp.lazy_star class s k = Some r.
Proof. intros H. destruct s; cbn [RegExp.lazy_star]; now rewrite H. Qed.

Lemma search_first {R} (pattern : jsstring -> option R)
    (skipped rest : jsstring) :
  (forall c s, In c skipped -> pattern (c :: s) = None) ->
  RegExp.search pattern (skipped ++ rest) = RegExp.search pattern rest.
Proof.
  intros Hfail. induction skipped as [|c skipped IH]; [reflexivity|].
  cbn [app RegExp.search]. rewrite (Hfail c _ (or_introl eq_refl)).
  apply IH. intros c' s Hin. apply Hfail. now right.
Qed.

Lemma search_here {R} (pattern : jsstring -> option R) (s : jsstring) (r : R) :
  pattern s = Some r -> RegExp.search pattern s = Some r.
Proof. intros H. destruct s; cbn [RegExp.search]; now rewrite H. Qed.

Lemma literal_at {R} (s : jsstring) (k : jsstring -> option R) :
  RegExp.literal (lit "at") (lit "at" ++ s) k = k s.
Proof. reflexivity. Qed.

Lemma literal_colon {R} (s : jsstring) (k : jsstring -> option R) :
  RegExp.literal (lit ":") (lit ":" ++ s) k = k s.
Proof. reflexivity. Qed.

Lemma literal_colon_fails {R} (c : code_unit) (s : jsstring)
    (k : jsstring -> option R) :
  c <> 58 -> RegExp.literal (lit ":") (c :: s) k = None.
Proof.
  intros Hc. unfold RegExp.literal.
  change (starts_with (lit ":") (c :: s)) with ((58 =? c) && true).
  destruct (N.eqb_spec 58 c); [congruence | reflexivity].
Qed.

(** X16.  The pattern of [parseStackTrace] reads the line and the
    column off a stack-frame line of the engine's shape: after an
    indentation, the word [at], white space and a description that holds
    no colon, the first [:digits:digits] gives the two captured numbers,
    whatever follows them. *)
Theorem frame_of_stack_line
    (indentation blank description digits1 digits2 tail : jsstring) :
  frame_line indentation blank description digits1 digits2 tail ->
  ErrorMapper.frame
    (indentation ++ lit "at" ++ blank ++ description
     ++ lit ":" ++ digits1 ++ lit ":" ++ digits2 ++ tail)
  = Some (digits1, digits2).
Proof.
  intros [Hind [Hb0 Hblank] (Hdot & Hcolon & Hstop) [H10 H1] [H20 H2] Htail].
  unfold ErrorMapper.frame.
  rewrite search_first.
  2:{ intros c s Hin. rewrite Forall_forall in Hind. specialize (Hind c Hin).
      unfold ErrorMapper.frame_here, RegExp.literal.
      change (starts_with (lit "at") (c :: s))
        with ((97 =? c) && starts_with (lit "t") s).
      destruct (N.eqb_spec 97 c); [congruence | reflexivity]. }
  assert (Hcolons :
    forall R (k : jsstring -> jsstring -> option R) (r : R),
      k digits1 (lit ":" ++ digits2 ++ tail) = Some r ->
      RegExp.plus_capture RegExp.digit (digits1 ++ lit ":" ++ digits2 ++ tail) k
      = Some r).
  { intros R k r Hk. now apply plus_capture_greedy. }
  set (rest := lit ":" ++ digits1 ++ lit ":" ++ digits2 ++ tail).
  set (K3 := fun s : jsstring =>
    RegExp.literal (lit ":") s (fun s =>
    RegExp.plus_capture RegExp.digit s (fun lineNum s =>
    RegExp.literal (lit ":") s (fun s =>
    RegExp.plus_capture RegExp.digit s (fun column _ =>
    Some (lineNum, column)))))).
  assert (HK3 : K3 rest = Some (digits1, digits2)).
  { subst K3 rest. cbv beta. rewrite literal_colon. apply Hcolons.
    rewrite literal_colon. now apply plus_capture_greedy. }
  assert (HK3fail : forall c s, In c description -> K3 (c :: s) = None).
  { intros c s Hin. rewrite Forall_forall in Hcolon.
    apply literal_colon_fails. now apply Hcolon. }
  assert (Hlazy : forall skipped,
             forallb RegExp.dot skipped = true ->
             (forall c, In c skipped -> In c description) ->
             RegExp.lazy_star RegExp.dot (skipped ++ rest) K3
             = Some (digits1, digits2)).
  { intros skipped Hd Hsub. apply lazy_star_first; [assumption| |assumption].
    intros c s Hin. apply HK3fail. now apply Hsub. }
  set (K2 := fun s : jsstring =>
    RegExp.optional (RegExp.char (fun c => (c =? 40) || (c =? 60))) s (fun s =>
    RegExp.lazy_star RegExp.dot s K3)).
  assert (HK2 : K2 (description ++ rest) = Some (digits1, digits2)).
  { subst K2. unfold RegExp.optional.
    rewrite (Hlazy description Hdot (fun c H => H)).
    destruct description as [|c description]; cbn [app].
    - reflexivity.
    - cbn [RegExp.char]. destruct ((c =? 40) || (c =? 60)); [|reflexivity].
      cbn [forallb] in Hdot. apply andb_prop in Hdot as [_ Hdot].
      rewrite (Hlazy description Hdot); [reflexivity|].
      intros c' H. now right. }
  assert (Hstop' : stops RegExp.space (description ++ rest) = true).
  { subst rest. destruct description; [reflexivity | exact Hstop]. }
  apply search_here. unfold ErrorMapper.frame_here.
  change (lit "at" ++ blank ++ description ++ lit ":" ++ digits1 ++ lit ":"
          ++ digits2 ++ tail)
    with (lit "at" ++ blank ++ description ++ rest).
  rewrite literal_at.
  destruct blank as [|b blank]; [contradiction|].
  cbn [forallb] in Hblank. apply andb_prop in Hblank as [Hb Hblank].
  unfold RegExp.plus. cbn [app RegExp.char]. rewrite Hb.
  apply star_greedy; [assumption | assumption |].
  apply lazy_star_here. rewrite star_stops by assumption. exact HK2.
Qed.

Lemma frame_of_stack_line_witness :
  ErrorMapper.frame (lit "    at main (file.js:12:34)")
  = Some (lit "12", lit "34").
Proof.
  refine (frame_of_stack_line (lit "    ") (lit " ") (lit "main (file.js")
            (lit "12") (lit "34") (lit ")") _).
  constructor.
  - repeat constructor; discriminate.
  - split; [discriminate | reflexivity].
  - split; [reflexivity | split; [|reflexivity]].
    repeat constructor; discriminate.
  - split; [discriminate | reflexivity].
  - split; [discriminate | reflexivity].
  - reflexivity.
Defined.

Lemma fold_decimal_value (digits : jsstring) (acc : N) :
  fold_left (fun n d => 10 * n + (d - 48)) digits acc
  = acc * 10 ^ N.of_nat (length digits) + decimal_value digits.
Proof.
  revert acc. induction digits as [|d rest IH]; intros acc.
  - cbn [fold_left length decimal_value]. change (N.of_nat 0) with 0.
    rewrite N.pow_0_r. lia.
  - cbn [fold_left length decimal_value]. rewrite IH.
    rewrite Nat2N.inj_succ, N.pow_succ_r'. lia.
Qed.

Lemma to_double_large (n : N) :
  2 ^ 53 <= n ->
  1 <= N.size n - 53
  /\ 2 ^ 52 <= N.shiftr n (N.size n - 53).
Proof.
  intros Hn.
  assert (Hsize : 53 < N.size n).
  { apply (N.pow_lt_mono_r_iff 2); [lia|].
    eapply N.le_lt_trans; [exact Hn | apply N.size_gt]. }
  split; [lia|].
  rewrite N.shiftr_div_pow2.
  assert (Hle : 2 ^ N.size n <= N.succ_double n) by apply N.size_le.
  rewrite N.succ_double_spec in Hle.
  replace (N.size n) with (N.succ (52 + (N.size n - 53))) in Hle at 1 by lia.
  rewrite N.pow_succ_r', N.pow_add_r in Hle.
  set (E := 2 ^ (N.size n - 53)) in *.
  assert (HE : E <> 0) by (apply N.pow_nonzero; lia).
  apply N.div_le_lower_bound; [lia|].
  set (P := 2 ^ 52) in *. nia.
Qed.

Lemma to_double_exact_below (n m : N) :
  ErrorMapper.to_double n = ErrorMapper.Finite m -> m < 2 ^ 53 -> m = n.
Proof.
  unfold ErrorMapper.to_double.
  destruct (n <? 2 ^ 53) eqn:Hn; [now intros [= <-]|].
  apply N.ltb_ge in Hn. destruct (to_double_large n Hn) as [He Hq].
  set (e := N.size n - 53) in *. set (q := N.shiftr n e) in *.
  cbv zeta.
  match goal with
  | |- context [if ?c then q + 1 else q] =>
      set (q' := if c then q + 1 else q);
      assert (Hq' : q <= q') by (subst q'; destruct c; lia)
  end.
  destruct (1024 <? N.size (N.shiftl q' e)); [discriminate|]. intros [= <-].
  rewrite N.shiftl_mul_pow2. intros Hm. exfalso.
  assert (H2 : 2 ^ 1 <= 2 ^ e) by (apply N.pow_le_mono_r; lia).
  rewrite N.pow_1_r in H2.
  assert (H53 : 2 ^ 53 = 2 ^ 52 * 2) by reflexivity.
  set (P := 2 ^ 52) in *. set (E := 2 ^ e) in *. nia.
Qed.

Lemma parseInt_exact_below (digits : jsstring) (n : N) :
  ErrorMapper.parseInt digits = ErrorMapper.Finite n -> n < 2 ^ 53 ->
  n = decimal_value digits.
Proof.
  unfold ErrorMapper.parseInt. destruct digits as [|d rest]; [discriminate|].
  rewrite fold_decimal_value, N.mul_0_l, N.add_0_l.
  apply to_double_exact_below.
Qed.

Lemma parseInt_exact (digits : jsstring) :
  digits <> [] -> decimal_value digits < 2 ^ 53 ->
  ErrorMapper.parseInt digits = ErrorMapper.Finite (decimal_value digits).
Proof.
  unfold ErrorMapper.parseInt. destruct digits as [|d rest]; [easy|].
  intros _ H. rewrite fold_decimal_value, N.mul_0_l, N.add_0_l.
  unfold ErrorMapper.to_double. apply N.ltb_lt in H. now rewrite H.
Qed.

(** [parseInt] at work: leading zeros, the first integers that are not
    doubles (a tie going down to the even neighbour, the next one going up),
    a column of twenty nines, the largest double, a one with twenty-three
    zeros, and a number beyond the doubles. *)
Example parseInt_rounds :
  ErrorMapper.parseInt (lit "007") = ErrorMapper.Finite 7
  /\ ErrorMapper.parseInt (lit "9007199254740993")
     = ErrorMapper.Finite 9007199254740992
  /\ ErrorMapper.parseInt (lit "9007199254740995")
     = ErrorMapper.Finite 9007199254740996
  /\ ErrorMapper.parseInt (lit "99999999999999999999")
     = ErrorMapper.Finite 100000000000000000000
  /\ ErrorMapper.parseInt
       (lit "1797693134862315708145274237317043567980705675258449965989174768"
        ++ lit "0315726078002853876058955863276687817154045895351438246423432132"
        ++ lit "6889464182768467546703537516986049910576551282076245490090389328"
        ++ lit "9440758685084551339423045832369032229481658085593321233482747978"
        ++ lit "26204144723168738177180919299881250404026184124858368")
     = ErrorMapper.Finite ((2 ^ 53 - 1) * 2 ^ 971)
  /\ ErrorMapper.parseInt (lit "1" ++ repeat 48 23)
     = ErrorMapper.Finite 99999999999999991611392
  /\ ErrorMapper.parseInt (lit "2" ++ repeat 48 308) = ErrorMapper.Infinity
  /\ ErrorMapper.parseInt [] = ErrorMapper.NaN.
Proof. vm_compute. repeat split. Qed.

Lemma within_Some (lineNum : ErrorMapper.double) (length k : nat) :
  ErrorMapper.within lineNum length = Some k ->
  lineNum = ErrorMapper.Finite (N.of_nat k) /\ (1 <= k <= length)%nat.
Proof.
  unfold ErrorMapper.within. destruct lineNum as [n| |]; try discriminate.
  destruct ((0 <? n) && (n <=? N.of_nat length)) eqn:Hin; [|discriminate].
  intros [= <-]. apply andb_prop in Hin as [H0 H1].
  apply N.ltb_lt in H0. apply N.leb_le in H1.
  rewrite N2Nat.id. split; [reflexivity | lia].
Qed.

Lemma within_None (lineNum : ErrorMapper.double) (length : nat) :
  ErrorMapper.within lineNum length = None ->
  match lineNum with
  | ErrorMapper.Finite n => (0 <? n) && (n <=? N.of_nat length)
  | _ => false
  end = false.
Proof.
  unfold ErrorMapper.within. destruct lineNum as [n| |]; try reflexivity.
  now destruct ((0 <? n) && (n <=? N.of_nat length)).
Qed.

Lemma first_frame_Some (codeLines lines : list jsstring)
    (loc : ErrorMapper.Location) :
  ErrorMapper.first_frame codeLines lines = Some loc ->
  exists before line after digits1 digits2 lineNum,
    lines = before ++ line :: after
    /\ forallb (fun l => negb (in_code codeLines l)) before = true
    /\ ErrorMapper.frame line = Some (digits1, digits2)
    /\ ErrorMapper.parseInt digits1 = ErrorMapper.Finite (N.of_nat lineNum)
    /\ (1 <= lineNum <= length codeLines)%nat
    /\ loc = ErrorMapper.mkLocation lineNum (ErrorMapper.parseInt digits2)
               (nth (lineNum - 1) codeLines []).
Proof.
  induction lines as [|l lines IH]; [discriminate|].
  cbn [ErrorMapper.first_frame].
  destruct (ErrorMapper.frame l) as [[d1 d2]|] eqn:Hframe.
  - cbv zeta.
    destruct (ErrorMapper.within (ErrorMapper.parseInt d1) (length codeLines))
      as [k|] eqn:Hin.
    + intros [= <-]. exists [], l, lines, d1, d2, k.
      apply within_Some in Hin as [Hk Hrange].
      repeat split; try assumption; lia.
    + intros H. destruct (IH H) as (before & line & after & e1 & e2 & k
                                     & -> & Hb & Hf & Hk & Hr & ->).
      exists (l :: before), line, after, e1, e2, k.
      repeat split; try assumption; try lia.
      cbn [forallb]. unfold in_code at 1.
      now rewrite Hframe, (within_None _ _ Hin), Hb.
  - intros H. destruct (IH H) as (before & line & after & e1 & e2 & k
                                   & -> & Hb & Hf & Hk & Hr & ->).
    exists (l :: before), line, after, e1, e2, k.
    repeat split; try assumption; try lia.
    cbn [forallb]. unfold in_code at 1. now rewrite Hframe, Hb.
Qed.

(** X15.  A location [parseStackTrace] returns lies within the code:
    its line number is between 1 and the number of lines, and its [code]
    is the text of that line.  It is read off the first line of the stack
    that holds a frame whose line number lies within the code: the line
    number is what [parseInt] makes of the first run of digits and the
    column what it makes of the second, a double that is the number the
    digits write whenever it is below 2^53 (and so is the line number when
    the code has fewer than 2^53 lines).  The context [getCodeContext] cuts
    around the location flags exactly that line. *)
Theorem parseStackTrace_location_in_code
    (stack : option jsstring) (code : jsstring) (loc : ErrorMapper.Location) :
  ErrorMapper.parseStackTrace stack code = Some loc ->
  (1 <= ErrorMapper.line loc <= length (lines_of code))%nat
  /\ nth_error (lines_of code) (ErrorMapper.line loc - 1)
     = Some (ErrorMapper.code loc)
  /\ (exists text before line after digits1 digits2,
        stack = Some text
        /\ lines_of text = before ++ line :: after
        /\ forallb (fun l => negb (in_code (lines_of code) l)) before = true
        /\ ErrorMapper.frame line = Some (digits1, digits2)
        /\ ErrorMapper.parseInt digits1
           = ErrorMapper.Finite (N.of_nat (ErrorMapper.line loc))
        /\ ErrorMapper.column loc = ErrorMapper.parseInt digits2
        /\ (N.of_nat (length (lines_of code)) < 2 ^ 53 ->
            N.of_nat (ErrorMapper.line loc) = decimal_value digits1)
        /\ (forall n, ErrorMapper.column loc = ErrorMapper.Finite n ->
            n < 2 ^ 53 -> n = decimal_value digits2))
  /\ filter ErrorMapper.isError
       (ErrorMapper.getCodeContext code (ErrorMapper.line loc) 3)
     = [ErrorMapper.mkContextLine (ErrorMapper.line loc)
          (ErrorMapper.code loc) true].
Proof.
  unfold ErrorMapper.parseStackTrace.
  destruct stack as [[|c text]|]; try discriminate.
  change (split_on (fun c => c =? 10)) with lines_of.
  intros H. apply first_frame_Some in H
    as (before & line & after & d1 & d2 & k
        & Hlines & Hbefore & Hframe & Hk & Hrange & ->).
  cbn [ErrorMapper.line ErrorMapper.column ErrorMapper.code].
  assert (Hnth : nth_error (lines_of code) (k - 1)
                 = Some (nth (k - 1) (lines_of code) []))
    by (apply nth_error_nth'; lia).
  split; [exact Hrange | split; [exact Hnth | split]].
  - exists (c :: text), before, line, after, d1, d2.
    split; [reflexivity|]. split; [exact Hlines|]. split; [exact Hbefore|].
    split; [exact Hframe|]. split; [exact Hk|]. split; [reflexivity|]. split.
    + intros Hlen. apply (parseInt_exact_below d1 _ Hk). lia.
    + intros n Hn. now apply parseInt_exact_below.
  - apply getCodeContext_error_line; [exact Hnth | lia].
Qed.

Lemma parseStackTrace_location_in_code_witness :
  let stack :=
    lit "Error: boom" ++ newline ++ lit "    at main (file.js:99:1)"
    ++ newline ++ lit "    at <anonymous>:2:99999999999999999999" in
  let code := lit "let a = 1;" ++ newline ++ lit "throw new Error('boom');" in
  ErrorMapper.parseStackTrace (Some stack) code
  = Some (ErrorMapper.mkLocation 2
            (ErrorMapper.Finite 100000000000000000000)
            (lit "throw new Error('boom');"))
  /\ filter ErrorMapper.isError (ErrorMapper.getCodeContext code 2 3)
     = [ErrorMapper.mkContextLine 2 (lit "throw new Error('boom');") true].
Proof.
  intros stack code.
  assert (H : ErrorMapper.parseStackTrace (Some stack) code
              = Some (ErrorMapper.mkLocation 2
                        (ErrorMapper.Finite 100000000000000000000)
                        (lit "throw new Error('boom');")))
    by (vm_compute; reflexivity).
  split; [exact H|].
  exact (proj2 (proj2 (proj2 (parseStackTrace_location_in_code _ _ _ H)))).
Defined.

(* ===================================================================== *)
(** * Submissions: the usage check and [executeCode]                      *)
(* ===================================================================== *)

Lemma set_add_NoDup (set : list jsstring) (x : jsstring) :
  NoDup set -> NoDup (Validator.set_add set x).
Proof.
  intros Hnd. unfold Validator.set_add.
  destruct (mem x set) eqn:E; [assumption|].
  apply mem_not_In in E.
  apply NoDup_app; [assumption | repeat constructor; intros [] |].
  intros a Ha [<-|[]]. contradiction.
Qed.

Lemma fold_set_add_NoDup (l acc : list jsstring) :
  NoDup acc -> NoDup (fold_left Validator.set_add l acc).
Proof.
  revert acc. induction l as [|x l IH]; intros acc Hnd; [assumption|].
  cbn [fold_left]. now apply IH, set_add_NoDup.
Qed.

(** X17.  The usage check names every tool once: the used tools and the
    offending ones are lists without repetition, however often the code
    calls a tool; and a submission that passes the check still passes it
    when the server advertises more tools. *)
Theorem validateMCPUsage_names_each_tool_once
    (code : jsstring) (availableTools : list jsstring) :
  NoDup (Validator.usedTools code)
  /\ NoDup (Validator.invalidTools code availableTools)
  /\ (forall more,
        Validator.usage_success (Validator.validateMCPUsage code availableTools)
        = true ->
        Validator.usage_success
          (Validator.validateMCPUsage code (availableTools ++ more)) = true).
Proof.
  assert (Hused : NoDup (Validator.usedTools code))
    by (apply fold_set_add_NoDup; constructor).
  split; [exact Hused | split].
  - unfold Validator.invalidTools. now apply NoDup_filter.
  - intros more Hok.
    destruct (Validator.usage_success
                (Validator.validateMCPUsage code (availableTools ++ more))) eqn:E;
      [reflexivity|].
    apply validateMCPUsage_fails in E.
    destruct (Validator.invalidTools code (availableTools ++ more)) as [|w rest] eqn:Hw;
      [contradiction|].
    assert (Hin : In w (Validator.invalidTools code (availableTools ++ more)))
      by (rewrite Hw; now left).
    apply In_invalidTools in Hin as [Hcalled Hnot].
    assert (Hin' : In w (Validator.invalidTools code availableTools)).
    { apply In_invalidTools. split; [assumption|].
      intros H. apply Hnot. apply in_or_app. now left. }
    assert (Hf : Validator.usage_success
                   (Validator.validateMCPUsage code availableTools) = false).
    { apply validateMCPUsage_fails. intros E'. now rewrite E' in Hin'. }
    congruence.
Qed.


Section Submission.

Variable diagnostic : Type.
Variable transpileModule :
  jsstring -> jsstring * list diagnostic * option jsstring.
Variable formatErrorMessages : list diagnostic -> jsstring -> jsstring.
Variable sandbox_execute : jsstring -> CodeMode.settled CodeMode.ExecuteResult.
Variable formatMappedError :
  ErrorMapper.js_error -> jsstring -> jsstring -> jsstring.

Local Abbreviation validate :=
  (Validator.validate transpileModule formatErrorMessages).
Local Abbreviation executeCode :=
  (CodeMode.executeCode transpileModule formatErrorMessages sandbox_execute
     formatMappedError).

Lemma run_sandbox_resolves (this : CodeMode.MCPCodeMode)
    (code processedCode : jsstring) (sourceMap : option jsstring) :
  exists r,
    CodeMode.run_sandbox sandbox_execute formatMappedError
      this code processedCode sourceMap
    = CodeMode.mkExecuted (CodeMode.Resolved r) [processedCode]
    /\ (forall e, sandbox_execute processedCode = CodeMode.Rejected e ->
          CodeMode.success r = false
          /\ CodeMode.rawError r = Some (ErrorMapper.message e)
          /\ CodeMode.output r = []).
Proof.
  unfold CodeMode.run_sandbox.
  destruct (sandbox_execute processedCode) as [result|error].
  - eexists. split; [reflexivity | discriminate].
  - eexists. split; [reflexivity|]. intros e [= <-]. now repeat split.
Qed.

(** X19.  [executeCode] rejects exactly when the instance is not
    connected, and then calls nothing; it calls the sandbox at most once;
    with validation switched off or skipped it hands the submission to the
    sandbox as it is; and a rejection of the sandbox becomes a result with
    [success: false], the message as [rawError] and an empty output. *)
Theorem executeCode_rejects_only_when_disconnected
    (this : CodeMode.MCPCodeMode) (code : jsstring) (options : CodeMode.Options) :
  let executed := executeCode this code options in
  ((exists e, CodeMode.outcome executed = CodeMode.Rejected e)
   <-> CodeMode.connected this = false)
  /\ (CodeMode.connected this = false -> CodeMode.sandbox_calls executed = [])
  /\ (length (CodeMode.sandbox_calls executed) <= 1)%nat
  /\ (CodeMode.connected this = true ->
      CodeMode.validateTypes this && negb (CodeMode.skipValidation options) = false ->
      CodeMode.sandbox_calls executed = [code])
  /\ (forall e processedCode,
        CodeMode.sandbox_calls executed = [processedCode] ->
        sandbox_execute processedCode = CodeMode.Rejected e ->
        exists r,
          CodeMode.outcome executed = CodeMode.Resolved r
          /\ CodeMode.success r = false
          /\ CodeMode.rawError r = Some (ErrorMapper.message e)
          /\ CodeMode.output r = []).
Proof.
  intros executed. subst executed. unfold CodeMode.executeCode.
  destruct (CodeMode.connected this) eqn:Hc; cbn [negb].
  2:{ cbn [CodeMode.outcome CodeMode.sandbox_calls length].
      split; [split; [reflexivity | eauto] | ].
      split; [reflexivity | split; [lia | split; discriminate]]. }
  assert (Hno : forall (r : CodeMode.ExecuteResult),
             (exists e, CodeMode.Resolved r = CodeMode.Rejected e) <-> true = false)
    by (intros r; split; [intros [e He]; discriminate He | discriminate]).
  destruct (CodeMode.validateTypes this && negb (CodeMode.skipValidation options))
    eqn:Hv.
  - destruct (validate code (CodeMode.typeDefinitions this))
      as [compiled sourceMap|errors] eqn:Hval.
    + destruct (negb (Validator.usage_success
                        (Validator.validateMCPUsage compiled
                           (CodeMode.availableTools this)))).
      * cbn [CodeMode.outcome CodeMode.sandbox_calls length].
        split; [apply Hno|].
        split; [reflexivity | split; [lia | split; discriminate]].
      * destruct (run_sandbox_resolves this code compiled sourceMap)
          as (r & -> & Hrej).
        cbn [CodeMode.outcome CodeMode.sandbox_calls length].
        split; [apply Hno|].
        split; [discriminate | split; [lia | split; [discriminate|]]].
        intros e p [= <-] He. exists r. split; [reflexivity | now apply Hrej].
    + cbn [CodeMode.outcome CodeMode.sandbox_calls length].
      split; [apply Hno|].
      split; [reflexivity | split; [lia | split; discriminate]].
  - destruct (run_sandbox_resolves this code code None) as (r & -> & Hrej).
    cbn [CodeMode.outcome CodeMode.sandbox_calls length].
    split; [apply Hno|].
    split; [discriminate | split; [lia | split; [reflexivity|]]].
    intros e p [= <-] He. exists r. split; [reflexivity | now apply Hrej].
Qed.

(** X18.  [connect] lists the tools the usage check knows by their
    advertised names, while the interface declares them by their identifiers: when
    the identifier of a tool is not itself an advertised name, a
    submission that passes the compiler and calls the tool by its
    identifier is refused by the usage check, with a message naming the
    identifier, and is never executed. *)
Theorem gate_rejects_generated_identifier
    (base : CodeMode.MCPCodeMode) (tools : list SchemaToTypes.ToolDescriptor)
    (typeDefinitions code compiled : jsstring) (sourceMap : option jsstring)
    (t : SchemaToTypes.ToolDescriptor) (options : CodeMode.Options) :
  let this := CodeMode.connect base tools typeDefinitions in
  In t tools ->
  ~ In (identifier_of t) (map SchemaToTypes.name tools) ->
  CodeMode.validateTypes base = true ->
  CodeMode.skipValidation options = false ->
  validate code typeDefinitions = Validator.Passed compiled sourceMap ->
  called_in (identifier_of t) compiled ->
  exists r message,
    executeCode this code options = CodeMode.mkExecuted (CodeMode.Resolved r) []
    /\ CodeMode.success r = false
    /\ CodeMode.error r = Some message
    /\ includes (identifier_of t) message = true.
Proof.
  intros this Hin Hraw Hvt Hskip Hval Hcalled.
  assert (Hinv : In (identifier_of t)
                    (Validator.invalidTools compiled (CodeMode.availableTools this)))
    by (apply In_invalidTools; split; assumption).
  assert (Hfail : Validator.usage_success
                    (Validator.validateMCPUsage compiled
                       (CodeMode.availableTools this)) = false).
  { apply validateMCPUsage_fails. intros E. now rewrite E in Hinv. }
  unfold CodeMode.executeCode. subst this.
  cbn [CodeMode.connect CodeMode.connected CodeMode.validateTypes
       CodeMode.typeDefinitions negb].
  rewrite Hvt, Hskip. cbn [andb negb]. rewrite Hval.
  cbn [CodeMode.connect CodeMode.availableTools] in Hfail, Hinv |- *.
  rewrite Hfail. cbn [negb].
  rewrite (validateMCPUsage_error _ _ Hfail).
  eexists. eexists. split; [reflexivity|]. cbn [CodeMode.success CodeMode.error].
  split; [reflexivity | split; [reflexivity|]].
  apply includes_app_r. now apply includes_join.
Qed.

End Submission.

Lemma gate_rejects_generated_identifier_witness :
  exists r message,
    CodeMode.executeCode
      (fun code : jsstring =>
         (marker ++ newline ++ lit "await mcp.search_music_({q: 'x'});",
          @nil unit, None))
      (fun _ _ => [])
      (fun _ => CodeMode.Resolved (CodeMode.mkResult true None None None [] None))
      (fun _ _ _ => [])
      (CodeMode.connect (CodeMode.mkCodeMode false true [] []) sample_tools [])
      (lit "await mcp.search_music_({q: 'x'});")
      (CodeMode.mkOptions false)
    = CodeMode.mkExecuted (CodeMode.Resolved r) []
    /\ CodeMode.success r = false
    /\ CodeMode.error r = Some message
    /\ includes (lit "search_music_") message = true.
Proof.
  refine (gate_rejects_generated_identifier unit
            (fun code : jsstring =>
               (marker ++ newline ++ lit "await mcp.search_music_({q: 'x'});",
                @nil unit, None))
            (fun _ _ => [])
            (fun _ => CodeMode.Resolved
                        (CodeMode.mkResult true None None None [] None))
            (fun _ _ _ => [])
            (CodeMode.mkCodeMode false true [] []) sample_tools []
            (lit "await mcp.search_music_({q: 'x'});")
            (lit "await mcp.search_music_({q: 'x'});") None
            (SchemaToTypes.mkTool (lit "search-music!")
               (Some (lit "Search the library." ++ newline
                      ++ lit "Returns tracks."))
               (Some (JObj [(lit "type", JStr (lit "object"));
                            (lit "properties",
                             JObj [(lit "q", JObj [(lit "type", JStr (lit "string"))])]);
                            (lit "required", JArr [JStr (lit "q")])])))
            (CodeMode.mkOptions false)
            (or_introl eq_refl) _ eq_refl eq_refl eq_refl _).
  - cbn. intuition discriminate.
  - split.
    + split; [discriminate | repeat constructor].
    + exists (lit "await "), (lit "{q: 'x'});"). reflexivity.
Defined.

(* ===================================================================== *)
(** * The generated interface: names, combinators, members                *)
(* ===================================================================== *)

Lemma In_split_piece (sep : code_unit -> bool) (s : jsstring) (c : code_unit) :
  In c s -> sep c = false -> exists piece, In piece (split_on sep s) /\ In c piece.
Proof.
  induction s as [|x s IH]; [contradiction|].
  intros Hin Hc. cbn [split_on].
  pose proof (split_on_nonempty sep s) as Hne.
  destruct Hin as [->|Hin].
  - rewrite Hc. destruct (split_on sep s) as [|p ps]; [contradiction|].
    exists (c :: p). split; now left.
  - destruct (IH Hin Hc) as (piece & Hp & Hcp).
    destruct (sep x).
    + exists piece. split; [now right | assumption].
    + destruct (split_on sep s) as [|p ps]; [contradiction|].
      destruct Hp as [<-|Hp].
      * exists (x :: p). split; [now left | now right].
      * exists piece. split; [now right | assumption].
Qed.

Lemma split_on_Forall (P : code_unit -> Prop) (sep : code_unit -> bool)
    (s : jsstring) :
  Forall P s -> Forall (Forall P) (split_on sep s).
Proof.
  induction 1 as [|x s Hx Hs IH]; cbn [split_on].
  - repeat constructor.
  - destruct (sep x); [now constructor|].
    inversion IH as [|p ps Hp Hps E]; subst.
    + now repeat constructor.
    + constructor; [now constructor | assumption].
Qed.

Lemma ascii_upper_keeps (c : code_unit) (s : jsstring) :
  is_word c = false -> In c s -> In c (SchemaToTypes.ascii_upper s).
Proof.
  intros Hc Hin. unfold SchemaToTypes.ascii_upper. apply in_map_iff.
  exists c. split; [|assumption].
  unfold is_word in Hc. now destruct (is_lower c).
Qed.

Lemma ascii_lower_keeps (c : code_unit) (s : jsstring) :
  is_word c = false -> In c s -> In c (SchemaToTypes.ascii_lower s).
Proof.
  intros Hc Hin. unfold SchemaToTypes.ascii_lower. apply in_map_iff.
  exists c. split; [|assumption].
  unfold is_word in Hc. destruct (is_upper c); [|reflexivity].
  now rewrite orb_true_r in Hc.
Qed.

Section InterfaceNames.

Variables toUpperCase toLowerCase : jsstring -> jsstring.

(** On ASCII text the engine's case mappings are the ASCII ones. *)
Hypothesis toUpperCase_ascii :
  forall s, ascii s -> toUpperCase s = SchemaToTypes.ascii_upper s.
Hypothesis toLowerCase_ascii :
  forall s, ascii s -> toLowerCase s = SchemaToTypes.ascii_lower s.

(** X21.  [toPascalCase] does not sanitize: a character of an ASCII tool
    name that is no letter, digit or underscore, and no [-] either, stays
    in the Pascal-case name, so that the interface name [<Pascal>Input]
    built from it is no identifier. *)
Theorem toPascalCase_keeps_other_characters (name : jsstring) (c : code_unit) :
  ascii name -> In c name -> is_word c = false -> c <> 45 ->
  In c (SchemaToTypes.toPascalCase toUpperCase toLowerCase name)
  /\ ~ Forall (fun c => is_word c = true)
         (SchemaToTypes.toPascalCase toUpperCase toLowerCase name ++ lit "Input").
Proof.
  intros Hascii Hin Hword Hdash.
  assert (Hc : In c (SchemaToTypes.toPascalCase toUpperCase toLowerCase name)).
  { unfold SchemaToTypes.toPascalCase.
    assert (Hsep : (fun c => (c =? 45) || (c =? underscore)) c = false).
    { cbv beta. destruct (N.eqb_spec c 45); [contradiction|].
      destruct (N.eqb_spec c underscore) as [->|]; [discriminate Hword | reflexivity]. }
    destruct (In_split_piece _ name c Hin Hsep) as (piece & Hpiece & Hcp).
    apply in_concat. exists (SchemaToTypes.capitalize toUpperCase toLowerCase piece).
    split; [now apply in_map|].
    pose proof (split_on_Forall _ (fun c => (c =? 45) || (c =? underscore)) name Hascii)
      as Hall.
    rewrite Forall_forall in Hall. specialize (Hall piece Hpiece).
    unfold SchemaToTypes.capitalize.
    rewrite toUpperCase_ascii, toLowerCase_ascii.
    - rewrite <- (firstn_skipn 1 piece) in Hcp. apply in_app_or in Hcp.
      apply in_or_app. destruct Hcp as [H|H].
      + left. now apply ascii_upper_keeps.
      + right. now apply ascii_lower_keeps.
    - unfold ascii. rewrite <- (firstn_skipn 1 piece) in Hall.
      now apply Forall_app in Hall.
    - unfold ascii. rewrite <- (firstn_skipn 1 piece) in Hall.
      now apply Forall_app in Hall. }
  split; [exact Hc|].
  intros Hall. apply Forall_app in Hall as [Hall _].
  rewrite Forall_forall in Hall. specialize (Hall c Hc). congruence.
Qed.

End InterfaceNames.

Lemma toPascalCase_keeps_other_characters_witness :
  In 33 (SchemaToTypes.toPascalCase SchemaToTypes.ascii_upper
           SchemaToTypes.ascii_lower (lit "search-music!")).
Proof.
  refine (proj1 (toPascalCase_keeps_other_characters
                   SchemaToTypes.ascii_upper SchemaToTypes.ascii_lower
                   (fun s _ => eq_refl) (fun s _ => eq_refl)
                   (lit "search-music!") 33 _ _ eq_refl _)).
  - repeat constructor.
  - cbn. intuition.
  - discriminate.
Defined.

(** X22.  How the translator composes: a schema whose [anyOf] is an
    array translates to the translations of its branches joined by [ | ],
    whatever else it holds; so does [oneOf] when [anyOf] is not set; and
    [allOf], when neither is set, translates as its first branch alone,
    the other branches being dropped. *)
Theorem combinators_compose (fields : list (jsstring * json)) (indent : nat) :
  let translate := SchemaToTypes.jsonSchemaToTypeScript in
  let union := fun branches =>
    bind (mapM (fun s => translate (Some s) indent) branches)
         (fun texts => Ok (join (lit " | ") texts)) in
  (forall branches,
      lookup (lit "anyOf") fields = Some (JArr branches) ->
      translate (Some (JObj fields)) indent = union branches)
  /\ (forall branches,
        truthy (lookup (lit "anyOf") fields) = false ->
        lookup (lit "oneOf") fields = Some (JArr branches) ->
        translate (Some (JObj fields)) indent = union branches)
  /\ (forall branch others,
        truthy (lookup (lit "anyOf") fields) = false ->
        truthy (lookup (lit "oneOf") fields) = false ->
        lookup (lit "allOf") fields = Some (JArr (branch :: others)) ->
        translate (Some (JObj fields)) indent = translate (Some branch) indent).
Proof.
  intros translate union. subst translate union. split; [|split].
  - intros branches Hany. rewrite jsonSchemaToTypeScript_unfold at 1.
    unfold SchemaToTypes.jsonSchemaToTypeScript_body.
    cbn [truthy negb get_prop bind]. rewrite Hany. reflexivity.
  - intros branches Hany Hone. rewrite jsonSchemaToTypeScript_unfold at 1.
    unfold SchemaToTypes.jsonSchemaToTypeScript_body.
    cbn [truthy negb get_prop bind]. rewrite Hany, Hone. reflexivity.
  - intros branch others Hany Hone Hall.
    rewrite jsonSchemaToTypeScript_unfold at 1.
    unfold SchemaToTypes.jsonSchemaToTypeScript_body.
    cbn [truthy negb get_prop bind]. rewrite Hany, Hone, Hall. reflexivity.
Qed.

Lemma includes_trans (a b c : jsstring) :
  includes a b = true -> includes b c = true -> includes a c = true.
Proof.
  intros Hab Hbc. apply includes_spec in Hbc as (pre & post & ->).
  now apply includes_within.
Qed.

Lemma includes_refl (a : jsstring) : includes a a = true.
Proof. apply includes_spec. exists [], []. now rewrite app_nil_r. Qed.

Lemma includes_prefix (a post : jsstring) : includes a (a ++ post) = true.
Proof. apply includes_spec. now exists [], post. Qed.

Section GeneratedInterface.

Variables toUpperCase toLowerCase : jsstring -> jsstring.

Local Abbreviation toPascalCase :=
  (SchemaToTypes.toPascalCase toUpperCase toLowerCase).
Local Abbreviation tool_entry :=
  (SchemaToTypes.tool_entry toUpperCase toLowerCase).
Local Abbreviation generateTypeScriptDefinitions :=
  (SchemaToTypes.generateTypeScriptDefinitions toUpperCase toLowerCase).

Lemma tool_entry_ok (tool : SchemaToTypes.ToolDescriptor) :
  well_formed_value (SchemaToTypes.inputSchema tool) = true ->
  exists inputType description,
    tool_entry tool
    = Ok ([lit "interface " ++ (toPascalCase (SchemaToTypes.name tool)
                                  ++ lit "Input") ++ lit " " ++ inputType;
           lit "interface " ++ (toPascalCase (SchemaToTypes.name tool)
                                  ++ lit "Output") ++ lit " {" ++ newline
           ++ lit "  [key: string]: any;" ++ newline ++ lit "}"],
          description ++ lit "  " ++ identifier_of tool ++ lit ": (" ++ newline
          ++ lit "    input: " ++ (toPascalCase (SchemaToTypes.name tool)
                                     ++ lit "Input") ++ newline
          ++ lit "  ) => Promise<" ++ (toPascalCase (SchemaToTypes.name tool)
                                         ++ lit "Output") ++ lit ">;").
Proof.
  intros Hwf. unfold SchemaToTypes.tool_entry.
  assert (Hschema : well_formed_value
            (if truthy (SchemaToTypes.inputSchema tool)
             then SchemaToTypes.inputSchema tool
             else Some (JObj [(lit "type", JStr (lit "object"));
                              (lit "properties", JObj [])])) = true)
    by (destruct (truthy (SchemaToTypes.inputSchema tool)); [assumption | reflexivity]).
  destruct (jsonSchemaToTypeScript_total_on _ 0%nat Hschema) as [inputType Htype].
  cbv zeta. rewrite Htype. cbn [bind]. exists inputType.
  eexists. unfold identifier_of. reflexivity.
Qed.

(** X23.  For tools whose input schemas are schema trees the generator
    returns a text, and the text declares every tool: a member of [mcp]
    under the tool's identifier, taking [<Pascal>Input] and promising
    [<Pascal>Output], and the two interfaces of these names. *)
Theorem generateTypeScriptDefinitions_declares_every_tool
    (tools : list SchemaToTypes.ToolDescriptor) :
  (forall tool, In tool tools ->
     well_formed_value (SchemaToTypes.inputSchema tool) = true) ->
  exists text,
    generateTypeScriptDefinitions tools = Ok text
    /\ forall tool, In tool tools ->
         let pascalName := toPascalCase (SchemaToTypes.name tool) in
         includes (lit "  " ++ identifier_of tool ++ lit ": (" ++ newline
                   ++ lit "    input: " ++ pascalName ++ lit "Input" ++ newline
                   ++ lit "  ) => Promise<" ++ pascalName ++ lit "Output>;")
                  text = true
         /\ includes (lit "interface " ++ pascalName ++ lit "Input ") text = true
         /\ includes (lit "interface " ++ pascalName ++ lit "Output {") text = true.
Proof.
  intros Hwf. unfold SchemaToTypes.generateTypeScriptDefinitions.
  destruct (mapM_ok tool_entry tools) as (pushed & Hpushed & _).
  { intros tool Hin. destruct (tool_entry_ok tool (Hwf tool Hin)) as (i & d & ->).
    now eexists. }
  rewrite Hpushed. cbn [bind]. eexists. split; [reflexivity|].
  intros tool Hin. cbv zeta.
  apply mapM_Forall2 in Hpushed.
  destruct (Forall2_In_l _ _ _ tool Hpushed Hin) as (p & Hp & Hentry).
  destruct (tool_entry_ok tool (Hwf tool Hin)) as (inputType & description & Hshape).
  rewrite Hshape in Hentry. apply Ok_inj in Hentry.
  assert (Hmethod : forall x, In x (map snd pushed) ->
            includes x
              (lit "// TypeScript definitions for MCP tools" ++ newline
               ++ join (newline ++ newline) (concat (map fst pushed))
               ++ newline ++ newline ++ lit "declare const mcp: {" ++ newline
               ++ join (newline ++ newline) (map snd pushed)
               ++ newline ++ lit "};") = true).
  { intros x Hx.
    replace (lit "// TypeScript definitions for MCP tools" ++ newline
             ++ join (newline ++ newline) (concat (map fst pushed))
             ++ newline ++ newline ++ lit "declare const mcp: {" ++ newline
             ++ join (newline ++ newline) (map snd pushed)
             ++ newline ++ lit "};")
      with ((lit "// TypeScript definitions for MCP tools" ++ newline
             ++ join (newline ++ newline) (concat (map fst pushed))
             ++ newline ++ newline ++ lit "declare const mcp: {" ++ newline)
            ++ join (newline ++ newline) (map snd pushed)
            ++ newline ++ lit "};")
      by (now rewrite <- !app_assoc).
    apply includes_within. now apply includes_join. }
  assert (Hiface : forall x, In x (concat (map fst pushed)) ->
            includes x
              (lit "// TypeScript definitions for MCP tools" ++ newline
               ++ join (newline ++ newline) (concat (map fst pushed))
               ++ newline ++ newline ++ lit "declare const mcp: {" ++ newline
               ++ join (newline ++ newline) (map snd pushed)
               ++ newline ++ lit "};") = true).
  { intros x Hx.
    replace (lit "// TypeScript definitions for MCP tools" ++ newline
             ++ join (newline ++ newline) (concat (map fst pushed))
             ++ newline ++ newline ++ lit "declare const mcp: {" ++ newline
             ++ join (newline ++ newline) (map snd pushed)
             ++ newline ++ lit "};")
      with ((lit "// TypeScript definitions for MCP tools" ++ newline)
            ++ join (newline ++ newline) (concat (map fst pushed))
            ++ newline ++ newline ++ lit "declare const mcp: {" ++ newline
            ++ join (newline ++ newline) (map snd pushed)
            ++ newline ++ lit "};")
      by (now rewrite <- !app_assoc).
    apply includes_within. now apply includes_join. }
  assert (Hfst : forall x, In x (fst p) -> In x (concat (map fst pushed))).
  { intros x Hx. apply in_concat. exists (fst p). split; [now apply in_map | exact Hx]. }
  subst p. cbn [fst snd] in Hp, Hfst. split; [|split].
  - eapply includes_trans; [|apply Hmethod, (in_map snd _ _ Hp)].
    cbn [snd]. apply includes_spec.
    exists description, []. rewrite app_nil_r.
    do 6 f_equal. rewrite <- !app_assoc. reflexivity.
  - eapply includes_trans; [|apply Hiface, Hfst; left; reflexivity].
    apply includes_spec.
    exists [], inputType. cbn [app]. rewrite <- !app_assoc. reflexivity.
  - eapply includes_trans; [|apply Hiface, Hfst; right; left; reflexivity].
    apply includes_spec.
    exists [], (newline ++ lit "  [key: string]: any;" ++ newline ++ lit "}").
    cbn [app]. rewrite <- !app_assoc. reflexivity.
Qed.

End GeneratedInterface.

Lemma generateTypeScriptDefinitions_declares_every_tool_witness :
  exists text,
    SchemaToTypes.generateTypeScriptDefinitions
      SchemaToTypes.ascii_upper SchemaToTypes.ascii_lower sample_tools
    = Ok text
    /\ includes (lit "  get_user_info: (") text = true.
Proof.
  destruct (generateTypeScriptDefinitions_declares_every_tool
              SchemaToTypes.ascii_upper SchemaToTypes.ascii_lower sample_tools)
    as (text & Htext & Hall).
  - intros tool [<-|[<-|[]]]; reflexivity.
  - exists text. split; [exact Htext|].
    destruct (Hall (SchemaToTypes.mkTool (lit "get_user_info") None None))
      as (Hmember & _); [right; left; reflexivity|].
    eapply includes_trans; [|exact Hmember]. reflexivity.
Defined.

(* ===================================================================== *)
(** * The usage check and the identifiers of the interface                *)
(* ===================================================================== *)

Section DeclaredIdentifier.

Variable diagnostic : Type.
Variable transpileModule :
  jsstring -> jsstring * list diagnostic * option jsstring.
Variable formatErrorMessages : list diagnostic -> jsstring -> jsstring.
Variable sandbox_execute : jsstring -> CodeMode.settled CodeMode.ExecuteResult.
Variable formatMappedError :
  ErrorMapper.js_error -> jsstring -> jsstring -> jsstring.
Variables toUpperCase toLowerCase : jsstring -> jsstring.

Local Abbreviation validate :=
  (Validator.validate transpileModule formatErrorMessages).
Local Abbreviation executeCode :=
  (CodeMode.executeCode transpileModule formatErrorMessages sandbox_execute
     formatMappedError).
Local Abbreviation generateTypeScriptDefinitions :=
  (SchemaToTypes.generateTypeScriptDefinitions toUpperCase toLowerCase).

(** Whatever the generator returns declares every tool under its
    identifier. *)
Lemma generated_text_declares (tools : list SchemaToTypes.ToolDescriptor)
    (text : jsstring) (t : SchemaToTypes.ToolDescriptor) :
  generateTypeScriptDefinitions tools = Ok text ->
  In t tools ->
  includes (lit "  " ++ identifier_of t ++ lit ": (") text = true.
Proof.
  unfold SchemaToTypes.generateTypeScriptDefinitions. intros Htext Hin.
  apply bind_Ok in Htext as (pushed & Hpushed & Htext).
  cbv zeta in Htext. apply Ok_inj in Htext. subst text.
  apply mapM_Forall2 in Hpushed.
  destruct (Forall2_In_l _ _ _ t Hpushed Hin) as (p & Hp & Hentry).
  unfold SchemaToTypes.tool_entry in Hentry. cbv zeta in Hentry.
  apply bind_Ok in Hentry as (inputType & _ & Hentry).
  apply Ok_inj in Hentry.
  apply includes_app_r, includes_app_r, includes_app_r, includes_app_r,
    includes_app_r, includes_app_r.
  replace (join (newline ++ newline) (map snd pushed) ++ newline ++ lit "};")
    with ([] ++ join (newline ++ newline) (map snd pushed)
          ++ newline ++ lit "};") by reflexivity.
  apply (includes_within _ (join (newline ++ newline) (map snd pushed)) []
           (newline ++ lit "};")).
  apply (includes_trans _ (snd p));
    [|apply includes_join, (in_map snd _ _ Hp)].
  rewrite <- Hentry. cbn [snd]. apply includes_app_r.
  unfold identifier_of. apply includes_spec. eexists [], _.
  cbn [app]. rewrite <- !app_assoc. reflexivity.
Qed.

(** C2.  The usage check does not fail only for identifiers that are
    unknown.  The interface the bridge generates declares every tool under
    its identifier, the sanitized name, and [callTool] resolves a call by
    that identifier; but [connect] fills the list the usage check reads
    with the names as advertised.  So for a tool whose identifier is not
    itself an advertised name, a submission that passes the compiler and
    calls the tool by the identifier the interface declares is refused: the
    result has [success = false], the error names the identifier among the
    undefined tools, and the sandbox is not called. *)
Theorem validation_gate_refuses_declared_identifier
    (base : CodeMode.MCPCodeMode) (tools : list SchemaToTypes.ToolDescriptor)
    (typeDefinitions code compiled : jsstring) (sourceMap : option jsstring)
    (t : SchemaToTypes.ToolDescriptor) (options : CodeMode.Options) :
  let this := CodeMode.connect base tools typeDefinitions in
  generateTypeScriptDefinitions tools = Ok typeDefinitions ->
  In t tools ->
  ~ In (identifier_of t) (map SchemaToTypes.name tools) ->
  CodeMode.validateTypes base = true ->
  CodeMode.skipValidation options = false ->
  validate code typeDefinitions = Validator.Passed compiled sourceMap ->
  called_in (identifier_of t) compiled ->
  includes (lit "  " ++ identifier_of t ++ lit ": (") typeDefinitions = true
  /\ MCPBridge.names (identifier_of t) t = true
  /\ exists r offending,
       executeCode this code options
       = CodeMode.mkExecuted (CodeMode.Resolved r) []
       /\ CodeMode.success r = false
       /\ CodeMode.error r
          = Some (lit "Code uses undefined MCP tools: "
                  ++ join (lit ", ") offending)
       /\ In (identifier_of t) offending
       /\ (forall w, In w offending
                     <-> called_in w compiled
                         /\ ~ In w (map SchemaToTypes.name tools)).
Proof.
  intros this Hgen Hin Hraw Hvt Hskip Hval Hcalled.
  split; [exact (generated_text_declares tools typeDefinitions t Hgen Hin)|].
  split; [unfold MCPBridge.names, identifier_of; now rewrite str_eqb_refl|].
  assert (Hinv : In (identifier_of t)
                    (Validator.invalidTools compiled (CodeMode.availableTools this)))
    by (apply In_invalidTools; split; assumption).
  assert (Hfail : Validator.usage_success
                    (Validator.validateMCPUsage compiled
                       (CodeMode.availableTools this)) = false).
  { apply validateMCPUsage_fails. intros E. now rewrite E in Hinv. }
  exists (CodeMode.mkResult false
            (Some (lit "Code uses undefined MCP tools: "
                   ++ join (lit ", ")
                        (Validator.invalidTools compiled
                           (CodeMode.availableTools this))))
            None None [] None),
    (Validator.invalidTools compiled (CodeMode.availableTools this)).
  split; [|split; [reflexivity | split; [reflexivity | split; [exact Hinv|]]]].
  2:{ intros w. apply In_invalidTools. }
  unfold CodeMode.executeCode. subst this.
  cbn [CodeMode.connect CodeMode.connected CodeMode.validateTypes
       CodeMode.typeDefinitions negb].
  rewrite Hvt, Hskip. cbn [andb negb]. rewrite Hval.
  cbn [CodeMode.connect CodeMode.availableTools] in Hfail |- *.
  rewrite Hfail. cbn [negb].
  now rewrite (validateMCPUsage_error _ _ Hfail).
Qed.

End DeclaredIdentifier.

(** The server advertises [search-music]; the submission calls
    [mcp.search_music], as the interface tells it to. *)
Lemma validation_gate_refuses_declared_identifier_witness :
  let tool := SchemaToTypes.mkTool (lit "search-music") None None in
  let typeDefinitions :=
    lit "// TypeScript definitions for MCP tools" ++ newline
    ++ lit "interface SearchMusicInput {" ++ newline ++ newline
    ++ lit "}" ++ newline ++ newline
    ++ lit "interface SearchMusicOutput {" ++ newline
    ++ lit "  [key: string]: any;" ++ newline
    ++ lit "}" ++ newline ++ newline
    ++ lit "declare const mcp: {" ++ newline
    ++ lit "  search_music: (" ++ newline
    ++ lit "    input: SearchMusicInput" ++ newline
    ++ lit "  ) => Promise<SearchMusicOutput>;" ++ newline
    ++ lit "};" in
  let code := lit "await mcp.search_music({});" in
  SchemaToTypes.generateTypeScriptDefinitions
    SchemaToTypes.ascii_upper SchemaToTypes.ascii_lower [tool]
  = Ok typeDefinitions
  /\ CodeMode.executeCode
       (fun source : jsstring => (marker ++ newline ++ code, @nil unit, None))
       (fun _ _ => [])
       (fun _ => CodeMode.Resolved (CodeMode.mkResult true None None None [] None))
       (fun _ _ _ => [])
       (CodeMode.connect (CodeMode.mkCodeMode false true [] []) [tool]
          typeDefinitions)
       code (CodeMode.mkOptions false)
     = CodeMode.mkExecuted
         (CodeMode.Resolved
            (CodeMode.mkResult false
               (Some (lit "Code uses undefined MCP tools: search_music"))
               None None [] None))
         []
  /\ includes (lit "  search_music: (") typeDefinitions = true
  /\ MCPBridge.names (lit "search_music") tool = true.
Proof.
  intros tool typeDefinitions code.
  assert (Hgen : SchemaToTypes.generateTypeScriptDefinitions
                   SchemaToTypes.ascii_upper SchemaToTypes.ascii_lower [tool]
                 = Ok typeDefinitions) by (vm_compute; reflexivity).
  split; [exact Hgen|]. split; [vm_compute; reflexivity|].
  destruct (validation_gate_refuses_declared_identifier unit
              (fun source : jsstring => (marker ++ newline ++ code, @nil unit, None))
              (fun _ _ => [])
              (fun _ => CodeMode.Resolved
                          (CodeMode.mkResult true None None None [] None))
              (fun _ _ _ => [])
              SchemaToTypes.ascii_upper SchemaToTypes.ascii_lower
              (CodeMode.mkCodeMode false true [] []) [tool]
              typeDefinitions code code None tool (CodeMode.mkOptions false)
              Hgen (or_introl eq_refl))
    as (Hdeclared & Hnames & _).
  - cbn. intuition discriminate.
  - reflexivity.
  - reflexivity.
  - vm_compute. reflexivity.
  - split.
    + split; [discriminate | repeat constructor].
    + exists (lit "await "), (lit "{});"). reflexivity.
  - split; [exact Hdeclared | exact Hnames].
Defined.

(* ===================================================================== *)
(** * Code out of a model's answer                                        *)
(* ===================================================================== *)

Lemma starts_with_before (p x y : jsstring) (c : code_unit) :
  ~ In c p -> starts_with p (x ++ c :: y) = true -> starts_with p x = true.
Proof.
  revert x. induction p as [|a p IH]; intros x Hc H; [reflexivity|].
  destruct x as [|b x]; cbn [app starts_with] in *.
  - apply andb_prop in H as [Ha _]. apply N.eqb_eq in Ha.
    exfalso. apply Hc. now left.
  - apply andb_prop in H as [Ha H]. rewrite Ha. cbn [andb].
    apply IH; [|assumption]. intros Hin. apply Hc. now right.
Qed.

Lemma starts_with_includes (p s pre : jsstring) :
  starts_with p s = true -> includes p (pre ++ s) = true.
Proof.
  intros H. apply starts_with_spec in H as [t ->].
  apply includes_spec. now exists pre, t.
Qed.

Lemma lazy_star_capture_first {R} (class : code_unit -> bool)
    (skipped rest taken : jsstring)
    (k : jsstring -> jsstring -> option R) (r : R) :
  forallb class skipped = true ->
  (forall m1 c m2, skipped = m1 ++ c :: m2 ->
                   k (taken ++ m1) (c :: m2 ++ rest) = None) ->
  k (taken ++ skipped) rest = Some r ->
  RegExp.lazy_star_capture class taken (skipped ++ rest) k = Some r.
Proof.
  revert taken. induction skipped as [|c skipped IH]; intros taken Hclass Hfail Hk.
  - rewrite app_nil_r in Hk. cbn [app].
    destruct rest; cbn [RegExp.lazy_star_capture]; now rewrite Hk.
  - cbn [forallb] in Hclass. apply andb_prop in Hclass as [Hc Hclass].
    cbn [app RegExp.lazy_star_capture].
    pose proof (Hfail [] c skipped eq_refl) as H0. rewrite app_nil_r in H0.
    rewrite H0, Hc. apply IH; [assumption| |].
    + intros m1 c' m2 ->. rewrite <- app_assoc.
      apply (Hfail (c :: m1) c' m2). reflexivity.
    + now rewrite <- app_assoc.
Qed.

Lemma language_tag_taken {R} (tag rest : jsstring) (k : jsstring -> option R)
    (r : R) :
  known_tag tag -> k (newline ++ rest) = Some r ->
  RegExp.optional CodeMode.language_tag (tag ++ newline ++ rest) k = Some r.
Proof.
  intros Htag Hk. unfold known_tag in Htag. cbn [In] in Htag.
  unfold RegExp.optional, CodeMode.language_tag, RegExp.alternative.
  destruct Htag as [<-|[<-|[<-|[<-|[<-|[]]]]]];
    cbn [app]; unfold RegExp.literal;
    cbn -[N.eqb]; cbn; unfold newline in Hk; cbn [app] in Hk; now rewrite Hk.
Qed.

Lemma closing_fence_fails (code m1 m2 post : jsstring) (c : code_unit) :
  includes CodeMode.fence code = false ->
  code = m1 ++ c :: m2 ->
  RegExp.optional (RegExp.char (fun c => c =? 10))
    (c :: m2 ++ newline ++ CodeMode.fence ++ post)
    (fun s => RegExp.literal CodeMode.fence s (fun _ => Some m1))
  = None.
Proof.
  intros Hcode ->.
  assert (Hnl : ~ In 10 CodeMode.fence)
    by (cbn; intros [H|[H|[H|[]]]]; discriminate H).
  assert (H1 : starts_with CodeMode.fence
                 (c :: m2 ++ newline ++ CodeMode.fence ++ post) = false).
  { destruct (starts_with CodeMode.fence
                (c :: m2 ++ newline ++ CodeMode.fence ++ post)) eqn:E;
      [|reflexivity].
    change (c :: m2 ++ newline ++ CodeMode.fence ++ post)
      with ((c :: m2) ++ 10 :: CodeMode.fence ++ post) in E.
    apply starts_with_before in E; [|assumption].
    now rewrite (starts_with_includes _ _ m1 E) in Hcode. }
  assert (H2 : starts_with CodeMode.fence
                 (m2 ++ newline ++ CodeMode.fence ++ post) = false).
  { destruct (starts_with CodeMode.fence
                (m2 ++ newline ++ CodeMode.fence ++ post)) eqn:E;
      [|reflexivity].
    change (m2 ++ newline ++ CodeMode.fence ++ post)
      with (m2 ++ 10 :: CodeMode.fence ++ post) in E.
    apply starts_with_before in E; [|assumption].
    pose proof (starts_with_includes _ _ (m1 ++ [c]) E) as Hi.
    rewrite <- app_assoc in Hi. cbn [app] in Hi. congruence. }
  unfold RegExp.optional, RegExp.char, RegExp.literal.
  rewrite H1. destruct (c =? 10); [now rewrite H2 | reflexivity].
Qed.

(** X24.  [extractCode] gives back the code of a fenced block: from an
    answer made of text without backtick, a fence with one of the language
    tags [javascript], [js], [typescript], [ts] or none, a line break, the
    code, a line break, a fence and anything after it, the result is the
    code, trimmed, provided the code holds no fence itself. *)
Theorem extractCode_fenced_block (before tag code after : jsstring) :
  Forall (fun c => c <> 96) before ->
  known_tag tag ->
  includes CodeMode.fence code = false ->
  CodeMode.extractCode
    (Some (before ++ CodeMode.fence ++ tag ++ newline ++ code ++ newline
           ++ CodeMode.fence ++ after))
  = Validator.trim code.
Proof.
  intros Hbefore Htag Hcode. unfold CodeMode.extractCode.
  assert (Hfound :
    RegExp.search CodeMode.code_block_here
      (before ++ CodeMode.fence ++ tag ++ newline ++ code ++ newline
       ++ CodeMode.fence ++ after) = Some code).
  { rewrite search_first.
    2:{ intros c s Hin. rewrite Forall_forall in Hbefore.
        specialize (Hbefore c Hin).
        unfold CodeMode.code_block_here, RegExp.literal.
        change (starts_with CodeMode.fence (c :: s))
          with ((96 =? c) && starts_with [96; 96] s).
        destruct (N.eqb_spec 96 c); [congruence | reflexivity]. }
    apply search_here. unfold CodeMode.code_block_here.
    change (RegExp.literal CodeMode.fence
              (CodeMode.fence ++ tag ++ newline ++ code ++ newline
               ++ CodeMode.fence ++ after) ?k)
      with (RegExp.optional CodeMode.language_tag
              (tag ++ newline ++ code ++ newline ++ CodeMode.fence ++ after)
              (fun s =>
               RegExp.optional (RegExp.char (fun c => c =? 10)) s (fun s =>
               RegExp.lazy_star_capture RegExp.any [] s (fun captured s =>
               RegExp.optional (RegExp.char (fun c => c =? 10)) s (fun s =>
               RegExp.literal CodeMode.fence s (fun _ => Some captured)))))).
    apply language_tag_taken; [assumption|].
    assert (Hcapture :
      RegExp.lazy_star_capture RegExp.any []
        (code ++ newline ++ CodeMode.fence ++ after)
        (fun captured s =>
           RegExp.optional (RegExp.char (fun c => c =? 10)) s (fun s =>
           RegExp.literal CodeMode.fence s (fun _ => Some captured)))
      = Some code).
    { apply lazy_star_capture_first.
      - clear. induction code; [reflexivity | assumption].
      - intros m1 c m2 E. cbn [app]. now apply (closing_fence_fails code).
      - reflexivity. }
    cbv beta. unfold RegExp.optional at 1. unfold RegExp.char at 1.
    unfold newline at 1. cbn [app]. change (10 =? 10) with true. cbv iota.
    now rewrite Hcapture. }
  destruct (before ++ CodeMode.fence ++ tag ++ newline ++ code ++ newline
            ++ CodeMode.fence ++ after) as [|c s] eqn:E.
  - destruct before; discriminate E.
  - now rewrite Hfound.
Qed.

Lemma extractCode_fenced_block_witness :
  CodeMode.extractCode
    (Some (lit "Here is the code:" ++ newline ++ CodeMode.fence ++ lit "js"
           ++ newline ++ lit "  await mcp.play({});" ++ newline
           ++ CodeMode.fence ++ lit " Done."))
  = lit "await mcp.play({});".
Proof.
  refine (extractCode_fenced_block (lit "Here is the code:" ++ newline)
            (lit "js") (lit "  await mcp.play({});") (lit " Done.") _ _ eq_refl).
  - repeat constructor; discriminate.
  - right. right. left. reflexivity.
Defined.

(* ===================================================================== *)
(** * The two engines side by side                                        *)
(* ===================================================================== *)

Section TwoEngines.

Variable object : Type.
Variables stringify_worker stringify_isolated
  : object -> IsolatedSandbox.stringified.

Lemma format_primitive (a : IsolatedSandbox.arg object) :
  primitive a = true ->
  WorkerSandbox.text_of (WorkerSandbox.format stringify_worker a)
  = printed stringify_isolated a.
Proof.
  unfold printed. destruct a as [| |[|]| | |o|]; try reflexivity. discriminate.
Qed.

(** X25.  On arguments that are no objects the two engines print the
    same line for [console.log]: the texts of the arguments joined by one
    space.  For [console.error] and [console.warn] the isolated engine
    puts [ERROR:] or [WARN:] before that line, which the worker engine,
    whose console methods are all alike, does not. *)
Theorem engines_print_primitives_alike
    (args : list (IsolatedSandbox.arg object)) (logs : list jsstring) :
  forallb primitive args = true ->
  let line := join (lit " ") (map (printed stringify_isolated) args) in
  WorkerSandbox.console stringify_worker args logs = logs ++ [line]
  /\ IsolatedSandbox.console stringify_isolated IsolatedSandbox.log args logs
     = logs ++ [line]
  /\ (forall m, m <> IsolatedSandbox.log ->
        IsolatedSandbox.console stringify_isolated m args logs
        = logs ++ [match m with
                   | IsolatedSandbox.error => lit "ERROR:"
                   | _ => lit "WARN:"
                   end
                   ++ match args with
                      | [] => []
                      | _ :: _ => lit " " ++ line
                      end]).
Proof.
  intros Hprim line.
  assert (Hworker : map WorkerSandbox.text_of
                      (map (WorkerSandbox.format stringify_worker) args)
                    = map (printed stringify_isolated) args).
  { induction args as [|a args IH]; [reflexivity|].
    cbn [forallb] in Hprim. apply andb_prop in Hprim as [Ha Hargs].
    cbn [map]. now rewrite (format_primitive a Ha), (IH Hargs). }
  split; [|split].
  - unfold WorkerSandbox.console. now rewrite Hworker.
  - cbn [IsolatedSandbox.console]. now rewrite logSync_line.
  - intros m Hm. destruct m; [contradiction| |];
      cbn [IsolatedSandbox.console]; rewrite logSync_line; cbn [map];
      subst line; (destruct args as [|a args]; [reflexivity|]);
      cbn [map]; reflexivity.
Qed.

End TwoEngines.

Lemma engines_print_primitives_alike_witness :
  WorkerSandbox.console (fun _ : unit => IsolatedSandbox.Fails)
    [IsolatedSandbox.AStr (lit "x"); IsolatedSandbox.ANull] []
  = [lit "x null"].
Proof.
  exact (proj1 (engines_print_primitives_alike unit
                  (fun _ : unit => IsolatedSandbox.Fails)
                  (fun _ : unit => IsolatedSandbox.Fails)
                  [IsolatedSandbox.AStr (lit "x"); IsolatedSandbox.ANull] []
                  eq_refl)).
Defined.

(* ===================================================================== *)
(** * Tools with plain names                                              *)
(* ===================================================================== *)

Section PlainNames.

Variable client_callTool : jsstring -> value -> MCPBridge.reply.
Variable JSON_parse : jsstring -> option json.

(** X26.  For tools whose advertised names are identifiers and pairwise
    distinct, the three components agree on a tool: its identifier is its
    name; a call [mcp.<name>(] in a submission is read by the usage check
    and is no offence after [connect]; and the bridge answers a call under
    that identifier with one request for the tool by its name. *)
Theorem plain_names_agree (tools : list SchemaToTypes.ToolDescriptor)
    (t : SchemaToTypes.ToolDescriptor) :
  Forall plain_name tools ->
  NoDup (map SchemaToTypes.name tools) ->
  In t tools ->
  identifier_of t = SchemaToTypes.name t
  /\ (forall base typeDefinitions before rest,
        let code := before ++ lit "mcp." ++ identifier_of t ++ lit "(" ++ rest in
        In (identifier_of t) (Validator.usedTools code)
        /\ ~ In (identifier_of t)
             (Validator.invalidTools code
                (CodeMode.availableTools
                   (CodeMode.connect base tools typeDefinitions))))
  /\ (forall typeDefinitions args,
        MCPBridge.requests
          (MCPBridge.callTool client_callTool JSON_parse
             (MCPBridge.mkBridge true true tools typeDefinitions)
             (identifier_of t) args)
        = [(SchemaToTypes.name t, arguments_sent args)]).
Proof.
  intros Hplain Hnd Hin.
  assert (Hid : forall u, In u tools -> identifier_of u = SchemaToTypes.name u).
  { intros u Hu. rewrite Forall_forall in Hplain.
    destruct (Hplain u Hu) as [_ Hword]. now apply sanitizeName_fixes. }
  split; [now apply Hid | split].
  - intros base typeDefinitions before rest code.
    assert (Hcalled : called_in (identifier_of t) code).
    { split.
      - rewrite (Hid t Hin). rewrite Forall_forall in Hplain. now apply Hplain.
      - now exists before, rest. }
    split; [now apply In_usedTools|].
    intros Hinv. apply In_invalidTools in Hinv as [_ Hnot]. apply Hnot.
    cbn [CodeMode.connect CodeMode.availableTools].
    rewrite (Hid t Hin). now apply in_map.
  - intros typeDefinitions args.
    assert (Ht : MCPBridge.names (identifier_of t) t = true).
    { unfold MCPBridge.names. fold (identifier_of t). now rewrite str_eqb_refl. }
    destruct (find (MCPBridge.names (identifier_of t)) tools) as [u|] eqn:Hfind.
    + apply find_some in Hfind as Hu. destruct Hu as [Hu Hnames].
      assert (u = t) as ->.
      { apply (NoDup_map_In SchemaToTypes.name tools); try assumption.
        rewrite <- (Hid u Hu), <- (Hid t Hin).
        transitivity (SchemaToTypes.sanitizeName (identifier_of t));
          [now apply names_identifier | symmetry; now apply names_identifier]. }
      now apply callTool_found.
    + rewrite (find_none _ _ Hfind t Hin) in Ht. discriminate.
Qed.

End PlainNames.

Lemma plain_names_agree_witness :
  MCPBridge.requests
    (MCPBridge.callTool (fun _ _ => MCPBridge.Resolves []) (fun _ => None)
       (MCPBridge.mkBridge true true
          [SchemaToTypes.mkTool (lit "search") None None;
           SchemaToTypes.mkTool (lit "get_user_info") None None] [])
       (lit "get_user_info") None)
  = [(lit "get_user_info", Some (JObj []))].
Proof.
  refine (proj2 (proj2 (plain_names_agree
                          (fun _ _ => MCPBridge.Resolves []) (fun _ => None)
                          [SchemaToTypes.mkTool (lit "search") None None;
                           SchemaToTypes.mkTool (lit "get_user_info") None None]
                          (SchemaToTypes.mkTool (lit "get_user_info") None None)
                          _ _ (or_intror (or_introl eq_refl))))
                [] None).
  - repeat constructor; try discriminate.
  - repeat constructor; cbn; intuition discriminate.
Defined.
